(** * doubao-cli: the streaming consumer, the animation handshake and the
      conversation transcript of [main.go]

    The development embeds [sendStreamRequest], [loadingAnimation] and
    [executor] of [main.go].

    - Go strings are [string]s of bytes (UTF-8 as the source file has it).
    - An [error] built by [fmt.Errorf] is its message.
    - [encoding/json] and [net/http] are outside the repository: the decoder
      is a parameter of the development and one HTTP exchange is a value of
      type [Exchange] chosen by the environment.
    - The main goroutine runs a list of instructions, [loadingAnimation] is a
      small state machine, and a schedule (a list of goroutine names) drives
      both over one shared state.  Channels are unbuffered: a communication
      happens when one goroutine performs its half while the other one is
      parked in the blocking opposite half. *)

From Stdlib Require Import String Ascii List ZArith NArith Lia Bool DecimalString.
Import ListNotations.
Open Scope string_scope.
Open Scope list_scope.

(** ** Bytes and strings *)

Definition LF : string := String "010" EmptyString.
Definition CR : string := String "013" EmptyString.
Definition DQ : string := String "034" EmptyString.

Definition byte (c : ascii) : N := N_of_ascii c.

(** [strings.HasPrefix(s, p)] *)
Fixpoint HasPrefix (s p : string) {struct p} : bool :=
  match p with
  | EmptyString => true
  | String a p' =>
      match s with
      | EmptyString => false
      | String b s' => Ascii.eqb a b && HasPrefix s' p'
      end
  end.

(** [s[n:]] for [n <= len(s)] *)
Fixpoint slice_from (n : nat) (s : string) : string :=
  match n, s with
  | S n', String _ s' => slice_from n' s'
  | _, _ => s
  end.

(** [strings.TrimPrefix(s, p)] *)
Definition TrimPrefix (s p : string) : string :=
  if HasPrefix s p then slice_from (String.length p) s else s.

Fixpoint rev_string (s acc : string) : string :=
  match s with
  | EmptyString => acc
  | String c r => rev_string r (String c acc)
  end.

Definition reverse (s : string) : string := rev_string s EmptyString.

(** *** [strings.TrimSpace]

    [unicode.IsSpace] holds for the six ASCII characters of [asciiSpace],
    for U+0085 and U+00A0, and for the runes of the White_Space table:
    U+1680, U+2000..U+200A, U+2028, U+2029, U+202F, U+205F and U+3000.  Go
    decodes shortest-form UTF-8 only, so a white-space rune is present
    exactly where one of these byte sequences stands. *)

Definition asciiSpace (c : ascii) : bool :=
  let n := byte c in
  ((n =? 9) || (n =? 10) || (n =? 11) || (n =? 12) || (n =? 13) || (n =? 32))%N.

(** Two bytes [c d] that encode U+0085 or U+00A0. *)
Definition space2 (c d : ascii) : bool :=
  ((byte c =? 194) && ((byte d =? 133) || (byte d =? 160)))%N.

(** Three bytes [c d e] that encode a rune of the White_Space table. *)
Definition space3 (c d e : ascii) : bool :=
  (((byte c =? 225) && (byte d =? 154) && (byte e =? 128))
   || ((byte c =? 226) && (byte d =? 128)
        && ((128 <=? byte e) && (byte e <=? 138)
            || (byte e =? 168) || (byte e =? 169) || (byte e =? 175)))
   || ((byte c =? 226) && (byte d =? 129) && (byte e =? 159))
   || ((byte c =? 227) && (byte d =? 128) && (byte e =? 128)))%N.

(** [strings.TrimLeftFunc(s, unicode.IsSpace)] *)
Fixpoint TrimLeft (s : string) : string :=
  match s with
  | EmptyString => EmptyString
  | String c r =>
      if asciiSpace c then TrimLeft r
      else match r with
           | EmptyString => s
           | String d r2 =>
               if space2 c d then TrimLeft r2
               else match r2 with
                    | EmptyString => s
                    | String e r3 => if space3 c d e then TrimLeft r3 else s
                    end
           end
  end.

(** The same scan over the reversed string: the bytes of a rune arrive last
    byte first. *)
Fixpoint TrimLeftRev (s : string) : string :=
  match s with
  | EmptyString => EmptyString
  | String c r =>
      if asciiSpace c then TrimLeftRev r
      else match r with
           | EmptyString => s
           | String d r2 =>
               if space2 d c then TrimLeftRev r2
               else match r2 with
                    | EmptyString => s
                    | String e r3 => if space3 e d c then TrimLeftRev r3 else s
                    end
           end
  end.

(** [strings.TrimRightFunc(s, unicode.IsSpace)] *)
Definition TrimRight (s : string) : string := reverse (TrimLeftRev (reverse s)).

(** [strings.TrimSpace(s)] *)
Definition TrimSpace (s : string) : string := TrimRight (TrimLeft s).

(** The byte sequences of the white-space runes, for statements about
    padded input. *)
Definition str1 (a : nat) : string := String (ascii_of_nat a) EmptyString.
Definition str2 (a b : nat) : string := String (ascii_of_nat a) (str1 b).
Definition str3 (a b c : nat) : string := String (ascii_of_nat a) (str2 b c).

Definition space_encodings : list string :=
  [ str1 9; str1 10; str1 11; str1 12; str1 13; str1 32;
    str2 194 133; str2 194 160;
    str3 225 154 128;
    str3 226 128 128; str3 226 128 129; str3 226 128 130; str3 226 128 131;
    str3 226 128 132; str3 226 128 133; str3 226 128 134; str3 226 128 135;
    str3 226 128 136; str3 226 128 137; str3 226 128 138;
    str3 226 128 168; str3 226 128 169; str3 226 128 175;
    str3 226 129 159;
    str3 227 128 128 ].

(** A string made of white-space runes only. *)
Definition whitespace_only (s : string) : Prop :=
  exists ws, Forall (fun w => In w space_encodings) ws /\ s = String.concat "" ws.

(** ** Data model *)

Record Message := { Role : string; Content : string }.

Record Error := { Code : string; Message_ : string }.

Record StreamChoice := {
  Delta : Message;
  FinishReason : string;
  Index : Z
}.

Record StreamResponse := {
  ID : string;
  Object : string;
  Created : Z;
  Choices : list StreamChoice;
  Error_ : option Error
}.

Record Config := {
  APIKey : string;
  EndpointID : string;
  Region : string;
  Timeout : Z
}.

(** [Temperature] is the decimal constant of the source, kept as the
    fraction 7/10. *)
Record DoubaoRequest := {
  Model : string;
  Messages : list Message;
  MaxTokens : Z;
  Temperature : Z * Z;
  Stream : bool
}.

(** A Go [error]: the message [fmt.Errorf] formatted. *)
Definition error := string.

(** [%d] *)
Definition fmt_d (n : Z) : string := NilZero.string_of_int (Z.to_int n).

(** ** One HTTP exchange, as the environment decides it *)

Inductive Exchange :=
| MarshalFailed (err : string)
    (* json.Marshal returned err *)
| NewRequestFailed (err : string)
    (* http.NewRequest returned err *)
| DoFailed (err : string) (isTimeout : bool)
    (* client.Do returned err; isTimeout is os.IsTimeout(err) *)
| Responded (StatusCode : Z) (body : list string) (scanErr : option string).
    (* a response: its status, the tokens scanner.Scan yields with
       bufio.ScanLines, and what scanner.Err() returns at line 174, after the
       loop, whether the tokens were exhausted or the loop was left at the
       terminator *)

Definition StatusOK : Z := 200.

(** ** Goroutines, channels and instructions *)

Inductive chan := stopChan | doneChan.

Definition chan_eqb (a b : chan) : bool :=
  match a, b with
  | stopChan, stopChan | doneChan, doneChan => true
  | _, _ => false
  end.

Inductive goroutine := G_main | G_anim.

(** What the main goroutine does, one instruction per effect of the source. *)
#[warnings="-register-all"]
Inductive instr :=
| IPrint (s : string)                  (* fmt.Print, fmt.Println, fmt.Printf *)
| IAppend (m : Message)                (* conversationHistory = append(conversationHistory, m) *)
| IClear                               (* conversationHistory = []Message{} *)
| IDropLast                            (* conversationHistory = conversationHistory[:len-1] *)
| IWgAdd                               (* wg.Add(1) *)
| IGo                                  (* go loadingAnimation(stopChan, doneChan, &wg) *)
| IRequest (url auth : string) (body : DoubaoRequest)
                                       (* client.Do(req) *)
| ICall (f : list Message -> list instr)
                                       (* a call that takes conversationHistory as argument *)
| ISend (c : chan)                     (* c <- true *)
| IRecv (c : chan)                     (* <-c *)
| ISelectSend (c d : chan)             (* select { case c <- true: <-d; default: } *)
| IWait                                (* wg.Wait() *)
| IClose (c : chan)                    (* close(c) *)
| IExit (code : Z)                     (* os.Exit(code) *)
| IPanic.                              (* run-time panic *)

(** ** [sendStreamRequest] *)

(** How the scanning loop of lines 142-172 ends. *)
Inductive LoopEnd :=
| Exhausted (fullContent : string)     (* scanner.Scan() returned false *)
| Broke (fullContent : string)         (* break at the terminator *)
| Panicked.                            (* index out of range *)

Inductive Result :=
| Ok (fullContent : string)
| Err (e : error)
| Panic.

Section Consumer.

(** [json.Unmarshal([]byte(line), &streamResp)] on a fresh [streamResp]:
    [None] when it returns an error. *)
Variable json_Unmarshal : string -> option StreamResponse.

Variable config : Config.

Fixpoint scanLoop (lines : list string) (fullContent : string) (firstContent : bool)
  : list instr * LoopEnd :=
  match lines with
  | [] => ([], Exhausted fullContent)
  | line :: rest =>
      if (line =? "") || HasPrefix line ": " then
        scanLoop rest fullContent firstContent
      else if HasPrefix line "data: " then
        let line := TrimPrefix line "data: " in
        if line =? "[DONE]" then ([], Broke fullContent)
        else
          match json_Unmarshal line with
          | None => scanLoop rest fullContent firstContent
          | Some streamResp =>
              match Choices streamResp with
              | [] => ([], Panicked)
              | choice0 :: _ =>
                  let content := Content (Delta choice0) in
                  if negb (content =? "") then
                    let sync :=
                      if firstContent then [ISend stopChan; IRecv doneChan] else [] in
                    let '(tr, e) := scanLoop rest (fullContent ++ content)%string false in
                    (sync ++ IPrint content :: tr, e)
                  else scanLoop rest fullContent firstContent
              end
          end
      else scanLoop rest fullContent firstContent
  end.

Definition baseURL : string :=
  ("https://ark." ++ Region config ++ ".volces.com/api/v3/chat/completions")%string.

Definition requestBody (messages : list Message) : DoubaoRequest :=
  {| Model := EndpointID config;
     Messages := messages;
     MaxTokens := 2000;
     Temperature := (7, 10)%Z;
     Stream := true |}.

Definition timeout_hint : string :=
  (LF ++ "提示：API响应过慢，建议：1.延长超时时间（--timeout 180） 2.检查网络 3.稍后重试")%string.

(** The effects of the call, in order, and what it returns. *)
Definition sendStreamRequest (messages : list Message) (x : Exchange)
  : list instr * Result :=
  let post :=
    IRequest baseURL ("Bearer " ++ APIKey config)%string (requestBody messages) in
  match x with
  | MarshalFailed err => ([], Err ("构造请求体失败：" ++ err)%string)
  | NewRequestFailed err => ([], Err ("创建请求失败：" ++ err)%string)
  | DoFailed err isTimeout =>
      let errMsg := ("发送请求失败：" ++ err)%string in
      let errMsg := if isTimeout then (errMsg ++ timeout_hint)%string else errMsg in
      ([post], Err errMsg)
  | Responded StatusCode body scanErr =>
      if negb (StatusCode =? StatusOK)%Z then
        ([post], Err ("请求失败，状态码：" ++ fmt_d StatusCode)%string)
      else
        let '(tr, e) := scanLoop body "" true in
        match e with
        | Panicked => (post :: tr, Panic)
        | Exhausted fullContent | Broke fullContent =>
            (* lines 174-182, after the loop however it was left *)
            match scanErr with
            | Some err => (post :: tr, Err ("读取流式响应失败：" ++ err)%string)
            | None =>
                if fullContent =? "" then (post :: tr, Err "未获取到有效回答")
                else (post :: tr, Ok fullContent)
            end
        end
  end.

End Consumer.

(** ** The shared state and the two goroutines *)

Inductive event :=
| EvPrint (g : goroutine) (s : string)     (* text written to standard output *)
| EvRequest (url auth : string) (body : DoubaoRequest)
| EvSync (c : chan)                        (* a value passed over c *)
| EvClose (c : chan).

(** Where [loadingAnimation] stands. *)
Inductive anim_pc :=
| ANone                 (* not spawned *)
| AStart                (* line 68 *)
| ASelect (idx : Z)     (* line 73, at the select, with the current idx *)
| AStopping             (* line 76, the stop has been received *)
| ASendDone             (* line 77, parked in done <- true *)
| AReturn               (* line 78, the deferred wg.Done() is due *)
| AExited.

Inductive proc_status :=
| Running
| Exited (code : Z)
| Crashed.

Record State := {
  conversationHistory : list Message;
  pending : list instr;        (* what the main goroutine has still to run *)
  anim : anim_pc;
  wg : nat;                    (* the WaitGroup counter *)
  log : list event;            (* oldest first *)
  status : proc_status
}.

Definition start (h : list Message) (prog : list instr) : State :=
  {| conversationHistory := h; pending := prog; anim := ANone; wg := 0;
     log := []; status := Running |}.

(** [executor] has returned. *)
Definition returned (s : State) : Prop := pending s = [] /\ status s = Running.

Definition set_pending (k : list instr) (s : State) : State :=
  {| conversationHistory := conversationHistory s; pending := k; anim := anim s;
     wg := wg s; log := log s; status := status s |}.

Definition set_history (h : list Message) (s : State) : State :=
  {| conversationHistory := h; pending := pending s; anim := anim s;
     wg := wg s; log := log s; status := status s |}.

Definition set_anim (a : anim_pc) (s : State) : State :=
  {| conversationHistory := conversationHistory s; pending := pending s; anim := a;
     wg := wg s; log := log s; status := status s |}.

Definition set_wg (n : nat) (s : State) : State :=
  {| conversationHistory := conversationHistory s; pending := pending s; anim := anim s;
     wg := n; log := log s; status := status s |}.

Definition set_status (p : proc_status) (s : State) : State :=
  {| conversationHistory := conversationHistory s; pending := pending s; anim := anim s;
     wg := wg s; log := log s; status := p |}.

Definition emit (e : event) (s : State) : State :=
  {| conversationHistory := conversationHistory s; pending := pending s; anim := anim s;
     wg := wg s; log := log s ++ [e]; status := status s |}.

(** The main goroutine is parked in [c <- true]. *)
Definition main_sending (s : State) (c : chan) : bool :=
  match pending s with
  | ISend c' :: _ => chan_eqb c c'
  | _ => false
  end.

(** The main goroutine is parked in [<-c]. *)
Definition main_receiving (s : State) (c : chan) : bool :=
  match pending s with
  | IRecv c' :: _ => chan_eqb c c'
  | _ => false
  end.

(** [loadingAnimation] is parked in [c <- true]: only at line 77. *)
Definition anim_sending (s : State) (c : chan) : bool :=
  match anim s with
  | ASendDone => chan_eqb c doneChan
  | _ => false
  end.

(** [loadingAnimation] is parked in [<-c]: never, its only receive is a case
    of a select that has a default. *)
Definition anim_receiving (s : State) (c : chan) : bool := false.

(** Go's [int] is 64 bits wide on the platforms the program is built for. *)
Definition int_wrap (z : Z) : Z := ((z + 2 ^ 63) mod 2 ^ 64 - 2 ^ 63)%Z.

Definition chars : list string := ["."; ".."; "..."; "...."].

(** [l[i]]: [None] is the index-out-of-range panic. *)
Definition index {A : Type} (l : list A) (i : Z) : option A :=
  if (i <? 0)%Z then None else nth_error l (Z.to_nat i).

(** [loadingAnimation], one step. *)
Definition step_anim (s : State) : State :=
  match anim s with
  | ANone | AExited => s
  | AStart =>
      set_anim (ASelect 0) (emit (EvPrint G_anim (LF ++ "豆包：正在思考")%string) s)
  | ASelect idx =>
      if main_sending s stopChan then
        (* case <-stop *)
        set_anim AStopping (emit (EvSync stopChan) (set_pending (tl (pending s)) s))
      else
        (* default *)
        match index chars (Z.rem idx 4) with
        | Some frame =>
            set_anim (ASelect (int_wrap (idx + 1)))
              (emit (EvPrint G_anim (CR ++ "豆包：正在思考" ++ frame)%string) s)
        | None => set_status Crashed s
        end
  | AStopping =>
      set_anim ASendDone (emit (EvPrint G_anim (CR ++ "豆包：")%string) s)
  | ASendDone =>
      if main_receiving s doneChan then
        set_anim AReturn (emit (EvSync doneChan) (set_pending (tl (pending s)) s))
      else s
  | AReturn => set_anim AExited (set_wg (Nat.pred (wg s)) s)
  end.

(** The main goroutine, one step. *)
Definition step_main (s : State) : State :=
  match pending s with
  | [] => s
  | i :: k =>
      match i with
      | IPrint t => set_pending k (emit (EvPrint G_main t) s)
      | IAppend m => set_pending k (set_history (conversationHistory s ++ [m]) s)
      | IClear => set_pending k (set_history [] s)
      | IDropLast =>
          match conversationHistory s with
          | [] => set_status Crashed s
          | _ :: _ => set_pending k (set_history (removelast (conversationHistory s)) s)
          end
      | IWgAdd => set_pending k (set_wg (S (wg s)) s)
      | IGo => set_pending k (set_anim AStart s)
      | IRequest url auth body => set_pending k (emit (EvRequest url auth body) s)
      | ICall f => set_pending (f (conversationHistory s) ++ k) s
      | ISend c =>
          if anim_receiving s c then set_pending k (emit (EvSync c) s) else s
      | IRecv c =>
          if anim_sending s c then
            set_anim AReturn (set_pending k (emit (EvSync c) s))
          else s
      | ISelectSend c d =>
          if anim_receiving s c then set_pending (IRecv d :: k) (emit (EvSync c) s)
          else set_pending k s
      | IWait => if Nat.eqb (wg s) 0 then set_pending k s else s
      | IClose c => set_pending k (emit (EvClose c) s)
      | IExit code => set_status (Exited code) s
      | IPanic => set_status Crashed s
      end
  end.

Definition step (g : goroutine) (s : State) : State :=
  match status s with
  | Running =>
      match g with
      | G_main => step_main s
      | G_anim => step_anim s
      end
  | _ => s
  end.

(** A schedule names the goroutine that moves next; a goroutine that cannot
    move leaves the state as it is. *)
Fixpoint run (sched : list goroutine) (s : State) : State :=
  match sched with
  | [] => s
  | g :: rest => run rest (step g s)
  end.

(** ** [executor] *)

Section Executor.

Variable json_Unmarshal : string -> option StreamResponse.
Variable config : Config.

Definition user (content : string) : Message :=
  {| Role := "user"; Content := content |}.

Definition assistant (content : string) : Message :=
  {| Role := "assistant"; Content := content |}.

(** Lines 223-232. *)
Definition ensure_stopped : list instr :=
  [ISelectSend stopChan doneChan; IWait; IClose stopChan; IClose doneChan].

(** Lines 234-243. *)
Definition reconcile (r : Result) : list instr :=
  match r with
  | Err err => [IPrint ("[错误] " ++ err ++ LF ++ LF)%string; IDropLast]
  | Ok fullContent => [IAppend (assistant fullContent); IPrint (LF ++ LF)%string]
  | Panic => []
  end.

(** Lines 221-243: the call and what follows it.  A panic inside
    [sendStreamRequest] is not recovered, nothing after it runs. *)
Definition request_and_reconcile (x : Exchange) (messages : list Message) : list instr :=
  let '(tr, r) := sendStreamRequest json_Unmarshal config messages x in
  match r with
  | Panic => tr ++ [IPanic]
  | _ => tr ++ ensure_stopped ++ reconcile r
  end.

Definition executor (input : string) (x : Exchange) : list instr :=
  let input := TrimSpace input in
  if (input =? "q")%string || (input =? "quit")%string then
    [IPrint (LF ++ "豆包：感谢使用，再见！" ++ LF)%string; IExit 0]
  else if (input =? "clear")%string then
    [IClear; IPrint ("豆包：已清空所有对话上下文！" ++ LF)%string]
  else if (input =? "")%string then
    [IPrint ("豆包：问题不能为空，请重新输入！" ++ LF)%string]
  else
    [IAppend (user input); IWgAdd; IGo; ICall (request_and_reconcile x)].

End Executor.

(** ** Sample payloads

    A decoder given by its graph on finitely many payloads, and the payloads
    the examples use. *)

Fixpoint table_Unmarshal (table : list (string * StreamResponse)) (line : string)
  : option StreamResponse :=
  match table with
  | [] => None
  | (payload, r) :: rest =>
      if (payload =? line)%string then Some r else table_Unmarshal rest line
  end.

Definition choice_of (content : string) : StreamChoice :=
  {| Delta := {| Role := "assistant"; Content := content |};
     FinishReason := ""; Index := 0 |}.

Definition chunk_of (content : string) : StreamResponse :=
  {| ID := "c1"; Object := "chat.completion.chunk"; Created := 0;
     Choices := [choice_of content]; Error_ := None |}.

(** [{"choices":[{"delta":{"content":"<content>"}}]}] *)
Definition json_chunk (content : string) : string :=
  ("{" ++ DQ ++ "choices" ++ DQ ++ ":[{" ++ DQ ++ "delta" ++ DQ ++ ":{"
     ++ DQ ++ "content" ++ DQ ++ ":" ++ DQ ++ content ++ DQ ++ "}}]}")%string.

(** [{"choices":[]}] *)
Definition json_no_choice : string :=
  ("{" ++ DQ ++ "choices" ++ DQ ++ ":[]}")%string.

Definition no_choice : StreamResponse :=
  {| ID := ""; Object := ""; Created := 0; Choices := []; Error_ := None |}.

(** [{"choices":[{"delta":{"content":""}}],"error":{"code":"E","message":"boom"}}] *)
Definition json_error_chunk : string :=
  ("{" ++ DQ ++ "choices" ++ DQ ++ ":[{" ++ DQ ++ "delta" ++ DQ ++ ":{"
     ++ DQ ++ "content" ++ DQ ++ ":" ++ DQ ++ DQ ++ "}}]," ++ DQ ++ "error" ++ DQ
     ++ ":{" ++ DQ ++ "code" ++ DQ ++ ":" ++ DQ ++ "E" ++ DQ ++ ","
     ++ DQ ++ "message" ++ DQ ++ ":" ++ DQ ++ "boom" ++ DQ ++ "}}")%string.

Definition error_chunk : StreamResponse :=
  {| ID := ""; Object := ""; Created := 0; Choices := [choice_of ""];
     Error_ := Some {| Code := "E"; Message_ := "boom" |} |}.

Definition sample_Unmarshal : string -> option StreamResponse :=
  table_Unmarshal
    [ (json_chunk "Hi", chunk_of "Hi");
      (json_chunk "A", chunk_of "A");
      (json_chunk "", chunk_of "");
      (json_chunk "B", chunk_of "B");
      (json_no_choice, no_choice);
      (json_error_chunk, error_chunk) ].

Definition sample_config : Config :=
  {| APIKey := "sk-xxxxxx"; EndpointID := "ep-xxxxxx"; Region := "cn-beijing";
     Timeout := 120 |}.

Definition data (payload : string) : string := ("data: " ++ payload)%string.

(** ** The reply text, as the specification words it *)

(** A data frame whose payload is the terminator token. *)
Definition is_terminator (line : string) : bool :=
  HasPrefix line "data: " && (TrimPrefix line "data: " =? "[DONE]")%string.

Fixpoint before_terminator (lines : list string) : list string :=
  match lines with
  | [] => []
  | line :: rest =>
      if is_terminator line then [] else line :: before_terminator rest
  end.

(** The payloads of the data frames. *)
Definition data_payloads (lines : list string) : list string :=
  map (fun line => TrimPrefix line "data: ")
      (filter (fun line => HasPrefix line "data: ") lines).

(** The chunks of the payloads that parse. *)
Definition parseable (json_Unmarshal : string -> option StreamResponse)
    (payloads : list string) : list StreamResponse :=
  flat_map (fun p => match json_Unmarshal p with Some r => [r] | None => [] end)
           payloads.

(** The first choice's delta; no choice, no delta. *)
Definition delta_of (r : StreamResponse) : string :=
  match Choices r with
  | choice0 :: _ => Content (Delta choice0)
  | [] => ""
  end.

Definition non_empty (s : string) : bool := negb (s =? "")%string.

Definition reply_text (json_Unmarshal : string -> option StreamResponse)
    (lines : list string) : string :=
  String.concat ""
    (filter non_empty
       (map delta_of (parseable json_Unmarshal (data_payloads (before_terminator lines))))).

(** ** What the consumer shows, as the specification words it *)

(** A data frame whose payload parses to a chunk that has no choice. *)
Definition lacks_choice (json_Unmarshal : string -> option StreamResponse)
    (line : string) : bool :=
  HasPrefix line "data: " &&
  match json_Unmarshal (TrimPrefix line "data: ") with
  | Some r =>
      match Choices r with
      | [] => true
      | _ :: _ => false
      end
  | None => false
  end.

(** A chunk without a choice comes before any terminator. *)
Definition panics (json_Unmarshal : string -> option StreamResponse)
    (lines : list string) : bool :=
  existsb (lacks_choice json_Unmarshal) (before_terminator lines).

(** The frames the consumer gets through: those before the terminator and
    before the first chunk without a choice. *)
Fixpoint before_stop (json_Unmarshal : string -> option StreamResponse)
    (lines : list string) : list string :=
  match lines with
  | [] => []
  | line :: rest =>
      if is_terminator line || lacks_choice json_Unmarshal line then []
      else line :: before_stop json_Unmarshal rest
  end.

(** The non-empty deltas of the data frames that parse, among the frames the
    consumer gets through, in order. *)
Definition deltas (json_Unmarshal : string -> option StreamResponse)
    (lines : list string) : list string :=
  filter non_empty
    (map delta_of
       (parseable json_Unmarshal (data_payloads (before_stop json_Unmarshal lines)))).

(** The deltas of an exchange: none unless the response has status 200. *)
Definition shown (json_Unmarshal : string -> option StreamResponse) (x : Exchange)
  : list string :=
  match x with
  | Responded StatusCode body _ =>
      if (StatusCode =? 200)%Z then deltas json_Unmarshal body else []
  | _ => []
  end.

(** ** Shapes of programs and states *)

(** What the loop emits: the deltas it prints, behind one rendezvous when
    the first of them arrives. *)
Definition sync_prefix (firstContent : bool) (ds : list string) : list instr :=
  match ds with
  | [] => []
  | _ :: _ => if firstContent then [ISend stopChan; IRecv doneChan] else []
  end.

(** A byte of the ASCII range that is not white space. *)
Definition visible (c : ascii) : bool := (byte c <? 128)%N && negb (asciiSpace c).
Definition polling (a : anim_pc) : bool :=
  match a with
  | AStart | ASelect _ => true
  | _ => false
  end.

(** The process has not called [os.Exit]. *)
Definition alive (p : proc_status) : bool :=
  match p with
  | Exited _ => false
  | _ => true
  end.

(** Instructions that only write to the log. *)
Definition is_local (i : instr) : bool :=
  match i with
  | IPrint _ | IRequest _ _ _ | IClose _ => true
  | _ => false
  end.

(** Instructions that neither block nor change the transcript, and the
    non-blocking select. *)
Definition is_calm (i : instr) : bool :=
  match i with
  | IPrint _ | IRequest _ _ _ | IClose _ | ISelectSend _ _ => true
  | _ => false
  end.

Definition is_main (g : goroutine) : bool :=
  match g with
  | G_main => true
  | G_anim => false
  end.

(** How many times the schedule lets the main goroutine move. *)
Definition main_steps (sched : list goroutine) : nat := length (filter is_main sched).

(** Lines 209-221: from the entry of [executor] up to the call, for the
    transcript [h] at entry, the user message [u] and the call [F]. *)
Inductive before_call (h : list Message) (u : Message)
    (F : list Message -> list instr) : State -> Prop :=
| BC_append lg :
    before_call h u F
      {| conversationHistory := h;
         pending := [IAppend u; IWgAdd; IGo; ICall F];
         anim := ANone; wg := 0; log := lg; status := Running |}
| BC_add lg :
    before_call h u F
      {| conversationHistory := h ++ [u];
         pending := [IWgAdd; IGo; ICall F];
         anim := ANone; wg := 0; log := lg; status := Running |}
| BC_go lg :
    before_call h u F
      {| conversationHistory := h ++ [u];
         pending := [IGo; ICall F];
         anim := ANone; wg := 1; log := lg; status := Running |}
| BC_call a lg st :
    polling a = true -> alive st = true ->
    before_call h u F
      {| conversationHistory := h ++ [u];
         pending := [ICall F];
         anim := a; wg := 1; log := lg; status := st |}.

(** The state in which [sendStreamRequest] is entered. *)
Definition at_call (h : list Message) (u : Message)
    (F : list Message -> list instr) (s : State) : Prop :=
  conversationHistory s = h ++ [u] /\ pending s = F (h ++ [u]) /\
  polling (anim s) = true /\ wg s = 1 /\ status s = Running.

(** Nobody has asked the animation to stop, and the main goroutine is still
    short of passing [wg.Wait()]; [k] is what follows the wait. *)
Definition waiting (h : list Message) (u : Message) (k : list instr) (s : State) : Prop :=
  conversationHistory s = h ++ [u] /\
  polling (anim s) = true /\ wg s = 1 /\ alive (status s) = true /\
  exists q, forallb is_calm q = true /\ pending s = q ++ IWait :: k.

(** The program of the main goroutine ends with a panic. *)
Definition doomed (s : State) : Prop := exists k, pending s = k ++ [IPanic].

(** ** The transcript a program leads to *)

Definition effect (i : instr) (hist : list Message) : list Message :=
  match i with
  | IAppend m => hist ++ [m]
  | IClear => []
  | IDropLast => removelast hist
  | _ => hist
  end.

Fixpoint hist_after (prog : list instr) (hist : list Message) : list Message :=
  match prog with
  | [] => hist
  | i :: k => hist_after k (effect i hist)
  end.

Definition not_call (i : instr) : bool :=
  match i with
  | ICall _ => false
  | _ => true
  end.

(** Whatever is still to run leads the transcript to [final]. *)
Definition settles (final : list Message) (s : State) : Prop :=
  forallb not_call (pending s) = true /\
  hist_after (pending s) (conversationHistory s) = final.

(** Instructions that leave the transcript alone. *)
Definition keeps_history (i : instr) : bool :=
  match i with
  | IAppend _ | IClear | IDropLast | ICall _ => false
  | _ => true
  end.

(** Instructions that involve neither a channel nor a goroutine. *)
Definition is_quiet (i : instr) : bool :=
  match i with
  | IPrint _ | IRequest _ _ _ | IClose _ | IAppend _ | IClear | IDropLast | IWait => true
  | _ => false
  end.

(** [loadingAnimation] is past [done <- true]; the counter follows its
    [wg.Done()]. *)
Definition gone (a : anim_pc) (n : nat) : Prop :=
  (a = AReturn /\ n = 1) \/ (a = AExited /\ n = 0).

(** A turn in which the consumer asks the animation to stop: [p] is what
    follows the rendezvous inside [sendStreamRequest], [fin] what follows
    lines 223-232 in [executor]. *)
Inductive synced (h : list Message) (u : Message) (p fin : list instr)
  : State -> Prop :=
| SY_before q a lg st :
    forallb is_local q = true -> polling a = true -> alive st = true ->
    synced h u p fin {| conversationHistory := h ++ [u];
              pending := q ++ ISend stopChan :: IRecv doneChan :: p
                           ++ ensure_stopped ++ fin;
              anim := a; wg := 1; log := lg; status := st |}
| SY_stopping a lg :
    a = AStopping \/ a = ASendDone ->
    synced h u p fin {| conversationHistory := h ++ [u];
              pending := IRecv doneChan :: p ++ ensure_stopped ++ fin;
              anim := a; wg := 1; log := lg; status := Running |}
| SY_after q a n lg :
    forallb is_local q = true -> gone a n ->
    synced h u p fin {| conversationHistory := h ++ [u];
              pending := q ++ ensure_stopped ++ fin;
              anim := a; wg := n; log := lg; status := Running |}
| SY_rest hist prog a n lg st :
    forallb is_quiet prog = true -> gone a n ->
    synced h u p fin {| conversationHistory := hist; pending := prog;
              anim := a; wg := n; log := lg; status := st |}.

(** The transcript a completed turn leaves. *)
Definition final_history (h : list Message) (u : Message) (r : Result) : list Message :=
  match r with
  | Ok fullContent => h ++ [u; assistant fullContent]
  | Err _ => h
  | Panic => h ++ [u]
  end.

(** The input is neither a command nor empty once trimmed. *)
Definition is_turn (input : string) : bool :=
  let t := TrimSpace input in
  negb ((t =? "q")%string || (t =? "quit")%string
        || (t =? "clear")%string || (t =? "")%string).

Definition has_stop (tr : list instr) : bool :=
  existsb (fun i => match i with ISend stopChan => true | _ => false end) tr.

(** How many times a program sends the stop. *)
Definition stops_sent (tr : list instr) : nat :=
  length (filter (fun i => match i with ISend stopChan => true | _ => false end) tr).

(** ** Sessions *)

Definition ends_paired (h : list Message) : Prop :=
  exists pre a b, h = pre ++ [a; b] /\ Role a = "user" /\ Role b = "assistant".

Definition paired_or_empty (h : list Message) : Prop := h = [] \/ ends_paired h.

(** What [sendStreamRequest] returns for an exchange. *)
Definition outcome (json_Unmarshal : string -> option StreamResponse) (config : Config)
    (x : Exchange) : Result :=
  snd (sendStreamRequest json_Unmarshal config [] x).

(** [executor] can return from a call on [input] that starts with the
    transcript [h], and leaves the transcript [h']. *)
Definition turn_returns (json_Unmarshal : string -> option StreamResponse)
    (config : Config) (input : string) (x : Exchange) (h h' : list Message) : Prop :=
  exists sched,
    returned (run sched (start h (executor json_Unmarshal config input x))) /\
    conversationHistory (run sched (start h (executor json_Unmarshal config input x))) = h'.

(** Calls of [executor] one after the other, each on the transcript the one
    before left. *)
Inductive session (json_Unmarshal : string -> option StreamResponse) (config : Config)
  : list (string * Exchange) -> list Message -> list Message -> Prop :=
| session_nil h : session json_Unmarshal config [] h h
| session_cons input x rest h h1 h2 :
    turn_returns json_Unmarshal config input x h h1 ->
    session json_Unmarshal config rest h1 h2 ->
    session json_Unmarshal config ((input, x) :: rest) h h2.

(** A conversational turn the consumer answers with a reply. *)
Definition successful (json_Unmarshal : string -> option StreamResponse)
    (config : Config) (t : string * Exchange) : Prop :=
  is_turn (fst t) = true /\ exists c, outcome json_Unmarshal config (snd t) = Ok c.

(** The messages a successful turn adds. *)
Definition turn_pair (json_Unmarshal : string -> option StreamResponse)
    (config : Config) (t : string * Exchange) : list Message :=
  match outcome json_Unmarshal config (snd t) with
  | Ok c => [user (TrimSpace (fst t)); assistant c]
  | _ => []
  end.

(** ** Commands: programs that spawn nothing *)

Definition no_spawn (i : instr) : bool :=
  match i with
  | IGo | ICall _ => false
  | _ => true
  end.

Definition is_request (e : event) : bool :=
  match e with
  | EvRequest _ _ _ => true
  | _ => false
  end.

(** ** Sample exchanges and schedules *)

Definition x_hi : Exchange :=
  Responded 200 [data (json_chunk "Hi"); data "[DONE]"] None.

Definition x_a_b : Exchange :=
  Responded 200
    [data (json_chunk "A"); data (json_chunk ""); data (json_chunk "B"); data "[DONE]"]
    None.

Definition x_500 : Exchange := Responded 500 [] None.

Definition x_no_choice : Exchange := Responded 200 [data json_no_choice] None.

Definition x_comments : Exchange :=
  Responded 200 [""; ": keep-alive"; ""; data "[DONE]"] None.

Fixpoint round_robin (n : nat) : list goroutine :=
  match n with
  | O => []
  | S n' => G_main :: G_anim :: round_robin n'
  end.

(** A chunk with its error field cleared. *)
Definition forget_error (r : StreamResponse) : StreamResponse :=
  {| ID := ID r; Object := Object r; Created := Created r; Choices := Choices r;
     Error_ := None |}.

(** ** More of [main.go]: what a turn shows, and [main] *)

(** The request [sendStreamRequest] sends, when it gets as far as sending. *)
Definition request_part (config : Config) (messages : list Message) (x : Exchange)
  : list instr :=
  match x with
  | MarshalFailed _ | NewRequestFailed _ => []
  | _ => [IRequest (baseURL config) ("Bearer " ++ APIKey config)%string
            (requestBody config messages)]
  end.

(** The texts a program prints, in order. *)
Definition printed (prog : list instr) : list string :=
  flat_map (fun i => match i with IPrint t => [t] | _ => [] end) prog.

Definition x_cut_off : Exchange :=
  Responded 200 [data (json_chunk "A")] (Some "unexpected EOF").

(** Instructions of a turn once [sendStreamRequest] is entered: nothing
    spawns, nothing is added to the WaitGroup, nothing is called. *)
Definition is_plain (i : instr) : bool :=
  match i with
  | IGo | IWgAdd | ICall _ => false
  | _ => true
  end.

(** The WaitGroup counter that goes with a state of the animation. *)
Definition wg_of (a : anim_pc) : nat :=
  match a with
  | ANone | AExited => 0
  | _ => 1
  end.

(** The animation is running or has run, and the counter says so. *)
Definition accounted (s : State) : Prop :=
  forallb is_plain (pending s) = true /\ anim s <> ANone /\ wg s = wg_of (anim s).

Definition is_wait (i : instr) : bool :=
  match i with
  | IWait => true
  | _ => false
  end.

(** [wg.Wait()] is still ahead, or the counter is zero. *)
Definition wait_ahead (s : State) : Prop :=
  accounted s /\ (existsb is_wait (pending s) = true \/ wg s = 0).

(** ** The output of a turn *)

Definition main_print (e : event) : bool :=
  match e with
  | EvPrint G_main _ => true
  | _ => false
  end.

Definition anim_print (e : event) : bool :=
  match e with
  | EvPrint G_anim _ => true
  | _ => false
  end.

(** Nothing of the animation is written after the main goroutine has
    written something. *)
Fixpoint anim_then_main (lg : list event) : bool :=
  match lg with
  | [] => true
  | e :: rest =>
      if main_print e then negb (existsb anim_print rest) else anim_then_main rest
  end.

(** [loadingAnimation] has nothing left to print. *)
Definition silent (a : anim_pc) : bool :=
  match a with
  | ASendDone | AReturn | AExited => true
  | _ => false
  end.

(** The program prints nothing before it has received the acknowledgement
    of the animation or has waited for its end. *)
Fixpoint guarded (prog : list instr) : bool :=
  match prog with
  | [] => true
  | IPrint _ :: _ => false
  | IRecv doneChan :: _ => true
  | IWait :: _ => true
  | _ :: k => guarded k
  end.

Definition ordered (s : State) : Prop :=
  accounted s /\ anim_then_main (log s) = true /\
  (silent (anim s) = true \/
   (existsb main_print (log s) = false /\ guarded (pending s) = true)).

(** The requests a program has still to send. *)
Definition requests_pending (prog : list instr) : list event :=
  flat_map (fun i => match i with
                     | IRequest url auth body => [EvRequest url auth body]
                     | _ => []
                     end) prog.

(** The requests logged and those still to send are the requests [L]. *)
Definition requests_are (L : list event) (s : State) : Prop :=
  forallb is_plain (pending s) = true /\
  filter is_request (log s) ++ requests_pending (pending s) = L.

(** No animation has run: nothing spawned, nothing of it in the log. *)
Definition never_animated (s : State) : Prop :=
  anim s = ANone /\ forallb no_spawn (pending s) = true /\
  existsb anim_print (log s) = false /\ filter is_request (log s) = [] /\
  requests_pending (pending s) = [].

(** ** [loadingAnimation] on its own *)

(** The text of the [k]-th frame. *)
Definition frame_text (k : nat) : string :=
  (CR ++ "豆包：正在思考" ++ nth (k mod 4) chars "")%string.

(** The label the animation writes when it has received the stop (line 76). *)
Definition label : string := (CR ++ "豆包：")%string.

(** The last text the animation wrote. *)
Definition last_anim_print (lg : list event) : option string :=
  match filter anim_print lg with
  | [] => None
  | e :: rest =>
      match last rest e with
      | EvPrint _ t => Some t
      | _ => None
      end
  end.

(** Once the animation is silent, the last thing it wrote is the label. *)
Definition labelled (s : State) : Prop :=
  accounted s /\ (silent (anim s) = true -> last_anim_print (log s) = Some label).

(** ** [main] *)

(** The values of the flags given on the command line. *)
Record Flags := {
  flag_apikey : option string;
  flag_endpoint : option string;
  flag_region : option string;
  flag_timeout : option Z
}.

(** What [flag.Parse()] makes of the command line (the flag set is the
    default one, which exits on error). *)
Inductive CommandLine :=
| HelpAsked
    (* -h or -help: the usage goes to standard error, exit status 0 *)
| Malformed
    (* a flag that is not defined, or a value that does not parse: the
       message and the usage go to standard error, exit status 2 *)
| Flagged (flags : Flags).
    (* the command line is accepted *)

(** [flag.String(name, def, _)] and [flag.Int(name, def, _)] after
    [flag.Parse()]: the value given, else the default. *)
Definition flag_value {A : Type} (given : option A) (def : A) : A :=
  match given with
  | Some v => v
  | None => def
  end.

(** The zero value of [Config], which [config] holds until line 258. *)
Definition no_config : Config :=
  {| APIKey := ""; EndpointID := ""; Region := ""; Timeout := 0 |}.

(** Lines 250-275 of [main]: the configuration it stores and what it does
    before it hands over to the prompt loop.  Standard error is not part of
    the log. *)
Definition main (args : CommandLine) : Config * list instr :=
  match args with
  | HelpAsked => (no_config, [IExit 0])
  | Malformed => (no_config, [IExit 2])
  | Flagged flags =>
      let config :=
        {| APIKey := flag_value (flag_apikey flags) "";
           EndpointID := flag_value (flag_endpoint flags) "";
           Region := flag_value (flag_region flags) "cn-beijing";
           Timeout := flag_value (flag_timeout flags) 120%Z |} in
      if (APIKey config =? "")%string || (EndpointID config =? "")%string then
        (config,
         [IPrint ("错误：必须指定 --apikey 和 --endpoint 参数！" ++ LF)%string;
          IPrint ("使用示例：go run main.go --apikey sk-xxxxxx --endpoint ep-xxxxxx --timeout 180"
                    ++ LF)%string;
          IExit 1])
      else
        (config,
         [IPrint ("==================== 豆包多轮对话CLI ====================" ++ LF)%string;
          IPrint ("说明：1.输入 q/quit 退出对话；输入 clear 清空上下文" ++ LF)%string;
          IPrint ("=========================================================" ++ LF)%string])
  end.

(** [main] run under a schedule, up to the prompt loop. *)
Definition main_run (args : CommandLine) (sched : list goroutine) : State :=
  run sched (start [] (snd (main args))).

(** ** Transcripts of whole sessions *)

(** A transcript made of questions, each followed by its non-empty answer. *)
Inductive dialogue : list Message -> Prop :=
| dialogue_nil : dialogue []
| dialogue_turn h q a :
    dialogue h -> a <> "" -> dialogue (h ++ [user q; assistant a]).

(** ** Turns that cannot get stuck *)

(** The transcript, [len] messages long, is long enough for every
    [IDropLast] the program has still to run. *)
Fixpoint drops_ok (prog : list instr) (len : nat) : bool :=
  match prog with
  | [] => true
  | IAppend _ :: k => drops_ok k (S len)
  | IClear :: k => drops_ok k 0
  | IDropLast :: k =>
      match len with
      | O => false
      | S l => drops_ok k l
      end
  | ICall _ :: _ => false
  | _ :: k => drops_ok k len
  end.

(** How far [loadingAnimation] is from its end. *)
Definition rank (a : anim_pc) : nat :=
  match a with
  | ANone => 6
  | AStart => 5
  | ASelect _ => 4
  | AStopping => 3
  | ASendDone => 2
  | AReturn => 1
  | AExited => 0
  end.

(** What is left to do in a turn. *)
Definition distance (s : State) : nat := length (pending s) + rank (anim s).

(** A running turn in which the consumer asks for the stop. *)
Definition on_track (h : list Message) (u : Message) (p fin : list instr) (s : State)
  : Prop :=
  synced h u p fin s /\
  drops_ok (pending s) (length (conversationHistory s)) = true /\
  status s = Running.

(** * Lemmas *)

(** ** Strings *)

Arguments HasPrefix : simpl never.
Arguments TrimPrefix : simpl never.
Arguments data : simpl never.

Lemma append_nil_r (s : string) : (s ++ "")%string = s.
Proof. induction s; simpl; congruence. Qed.

Lemma append_assoc (a b c : string) : ((a ++ b) ++ c)%string = (a ++ (b ++ c))%string.
Proof. induction a; simpl; congruence. Qed.

Lemma concat_cons (d : string) (l : list string) :
  String.concat "" (d :: l) = (d ++ String.concat "" l)%string.
Proof.
  destruct l; simpl.
  - now rewrite append_nil_r.
  - reflexivity.
Qed.

Lemma HasPrefix_data (p : string) : HasPrefix (data p) "data: " = true.
Proof. reflexivity. Qed.

Lemma TrimPrefix_data (p : string) : TrimPrefix (data p) "data: " = p.
Proof. reflexivity. Qed.

Lemma data_not_blank (p : string) : (data p =? "")%string = false.
Proof. reflexivity. Qed.

Lemma data_not_comment (p : string) : HasPrefix (data p) ": " = false.
Proof. reflexivity. Qed.

Lemma comment_not_data (line : string) :
  HasPrefix line ": " = true -> HasPrefix line "data: " = false.
Proof.
  destruct line as [|c r]; intros H; [discriminate H|].
  change (Ascii.eqb ":" c && HasPrefix r " " = true) in H.
  destruct (Ascii.eqb ":" c) eqn:E; [|discriminate H].
  apply Ascii.eqb_eq in E. subst c. reflexivity.
Qed.

Lemma blank_not_data (line : string) :
  (line =? "")%string = true -> HasPrefix line "data: " = false.
Proof. intros H. apply String.eqb_eq in H. subst. reflexivity. Qed.

Section ConsumerFacts.

Variable json_Unmarshal : string -> option StreamResponse.
Variable config : Config.

#[local] Abbreviation scanLoop := (scanLoop json_Unmarshal).
#[local] Abbreviation reply_text := (reply_text json_Unmarshal).

Lemma reply_text_terminator line rest :
  is_terminator line = true -> reply_text (line :: rest) = "".
Proof. intros H. unfold reply_text. simpl. now rewrite H. Qed.

Lemma reply_text_other line rest :
  HasPrefix line "data: " = false -> reply_text (line :: rest) = reply_text rest.
Proof.
  intros H. unfold reply_text, is_terminator, data_payloads. simpl.
  unfold is_terminator. rewrite H. simpl. now rewrite H.
Qed.

Lemma reply_text_unparsable line rest :
  HasPrefix line "data: " = true ->
  (TrimPrefix line "data: " =? "[DONE]")%string = false ->
  json_Unmarshal (TrimPrefix line "data: ") = None ->
  reply_text (line :: rest) = reply_text rest.
Proof.
  intros H1 H2 H3. unfold reply_text, data_payloads. simpl.
  unfold is_terminator. rewrite H1, H2. simpl. rewrite H1. simpl. now rewrite H3.
Qed.

Lemma reply_text_chunk line rest r :
  HasPrefix line "data: " = true ->
  (TrimPrefix line "data: " =? "[DONE]")%string = false ->
  json_Unmarshal (TrimPrefix line "data: ") = Some r ->
  reply_text (line :: rest) =
    ((if non_empty (delta_of r) then delta_of r else "") ++ reply_text rest)%string.
Proof.
  intros H1 H2 H3. unfold reply_text, data_payloads. simpl.
  unfold is_terminator. rewrite H1, H2. simpl. rewrite H1. simpl. rewrite H3. simpl.
  destruct (non_empty (delta_of r)); [apply concat_cons | reflexivity].
Qed.

(** The loop accumulates the reply text of the specification. *)
Lemma scanLoop_reply lines : forall fullContent firstContent tr e,
  scanLoop lines fullContent firstContent = (tr, e) ->
  match e with
  | Exhausted f | Broke f => f = (fullContent ++ reply_text lines)%string
  | Panicked => True
  end.
Proof.
  induction lines as [|line rest IH]; intros full first tr e H; simpl in H.
  - inversion H; subst. unfold reply_text. simpl. now rewrite append_nil_r.
  - destruct ((line =? "")%string || HasPrefix line ": ") eqn:Eskip.
    + apply IH in H. rewrite reply_text_other; [exact H|].
      apply orb_true_iff in Eskip as [E|E];
        [now apply blank_not_data | now apply comment_not_data].
    + destruct (HasPrefix line "data: ") eqn:Edata.
      * destruct (TrimPrefix line "data: " =? "[DONE]")%string eqn:Edone.
        -- inversion H; subst. rewrite reply_text_terminator.
           ++ now rewrite append_nil_r.
           ++ unfold is_terminator. now rewrite Edata, Edone.
        -- destruct (json_Unmarshal (TrimPrefix line "data: ")) as [r|] eqn:Ejson.
           ++ rewrite (reply_text_chunk line rest r) by assumption.
              unfold delta_of, non_empty.
              destruct (Choices r) as [|choice0 others] eqn:Ech.
              ** inversion H; subst. exact I.
              ** destruct (Content (Delta choice0) =? "")%string eqn:Eempty; simpl in H.
                 --- apply IH in H. exact H.
                 --- destruct (scanLoop rest (full ++ Content (Delta choice0))%string false)
                       as [tr' e'] eqn:Erec.
                     inversion H; subst. apply IH in Erec. simpl.
                     destruct e; try exact I; now rewrite <- append_assoc.
           ++ apply IH in H. now rewrite reply_text_unparsable by assumption.
      * apply IH in H. now rewrite reply_text_other by assumption.
Qed.

Lemma scanLoop_trace lines : forall fullContent firstContent tr e,
  scanLoop lines fullContent firstContent = (tr, e) ->
  exists ds,
    Forall (fun d => d <> "") ds /\
    tr = sync_prefix firstContent ds ++ map IPrint ds /\
    match e with
    | Exhausted f | Broke f => f = (fullContent ++ String.concat "" ds)%string
    | Panicked => True
    end.
Proof.
  induction lines as [|line rest IH]; intros full first tr e H; simpl in H.
  - inversion H; subst. exists []. simpl. rewrite append_nil_r. auto.
  - destruct ((line =? "")%string || HasPrefix line ": "); [now apply IH|].
    destruct (HasPrefix line "data: "); [|now apply IH].
    destruct (TrimPrefix line "data: " =? "[DONE]")%string.
    { inversion H; subst. exists []. simpl. rewrite append_nil_r. auto. }
    destruct (json_Unmarshal (TrimPrefix line "data: ")) as [r|]; [|now apply IH].
    destruct (Choices r) as [|choice0 others].
    { inversion H; subst. exists []. simpl. auto. }
    destruct (Content (Delta choice0) =? "")%string eqn:Eempty; simpl in H;
      [now apply IH|].
    destruct (scanLoop rest (full ++ Content (Delta choice0))%string false)
      as [tr' e'] eqn:Erec.
    inversion H; subst. apply IH in Erec as (ds & Hne & Htr & He).
    exists (Content (Delta choice0) :: ds). repeat split.
    + constructor; [|exact Hne]. intros E. rewrite E in Eempty. discriminate.
    + subst tr'. simpl. destruct ds; destruct first; reflexivity.
    + rewrite concat_cons. destruct e; try exact I; now rewrite <- append_assoc.
Qed.

Lemma concat_non_empty (ds : list string) :
  Forall (fun d => d <> "") ds -> String.concat "" ds = "" -> ds = [].
Proof.
  intros H E. destruct ds as [|d ds]; [reflexivity|].
  rewrite concat_cons in E. inversion H; subst.
  destruct d; [congruence | discriminate].
Qed.

(** A frame that parses to a chunk without choices stops the loop with the
    index-out-of-range panic, whatever precedes it short of the terminator. *)
Lemma scanLoop_empty_choices pre : forall p r post fullContent firstContent,
  Forall (fun l => is_terminator l = false) pre ->
  p <> "[DONE]" ->
  json_Unmarshal p = Some r ->
  Choices r = [] ->
  snd (scanLoop (pre ++ data p :: post) fullContent firstContent) = Panicked.
Proof.
  induction pre as [|line pre IH]; intros p r post full first Hpre Hp Hj Hc.
  - simpl. rewrite TrimPrefix_data. apply String.eqb_neq in Hp. rewrite Hp, Hj, Hc. reflexivity.
  - inversion Hpre as [|? ? Hl Hrest]; subst. simpl.
    destruct ((line =? "")%string || HasPrefix line ": "); [eapply IH; eassumption|].
    destruct (HasPrefix line "data: ") eqn:Ed; [|eapply IH; eassumption].
    unfold is_terminator in Hl. rewrite Ed in Hl. simpl in Hl. rewrite Hl.
    destruct (json_Unmarshal (TrimPrefix line "data: ")) as [r'|]; [|eapply IH; eassumption].
    destruct (Choices r') as [|choice0 others]; [reflexivity|].
    destruct (Content (Delta choice0) =? "")%string; simpl; [eapply IH; eassumption|].
    specialize (IH p r post (full ++ Content (Delta choice0))%string false Hrest Hp Hj Hc).
    destruct (scanLoop (pre ++ data p :: post) (full ++ Content (Delta choice0))%string false).
    simpl in *. exact IH.
Qed.

(** Chunks that all have a choice never make the loop panic. *)
Lemma scanLoop_no_panic lines : forall fullContent firstContent,
  Forall (fun r => Choices r <> [])
    (parseable json_Unmarshal (data_payloads (before_terminator lines))) ->
  snd (scanLoop lines fullContent firstContent) <> Panicked.
Proof.
  induction lines as [|line rest IH]; intros full first Hall; simpl; [discriminate|].
  unfold data_payloads in Hall. simpl in Hall. unfold is_terminator in Hall.
  destruct ((line =? "")%string || HasPrefix line ": ") eqn:Eskip.
  { apply IH. apply orb_true_iff in Eskip.
    assert (Ed : HasPrefix line "data: " = false)
      by (destruct Eskip; [now apply blank_not_data | now apply comment_not_data]).
    rewrite Ed in Hall. simpl in Hall. rewrite Ed in Hall. exact Hall. }
  destruct (HasPrefix line "data: ") eqn:Ed.
  - destruct (TrimPrefix line "data: " =? "[DONE]")%string eqn:Edone; simpl in Hall;
      [discriminate|].
    rewrite Ed in Hall. simpl in Hall.
    destruct (json_Unmarshal (TrimPrefix line "data: ")) as [r|];
      [|apply IH; exact Hall].
    simpl in Hall. inversion Hall as [|? ? Hr Hrest]; subst.
    destruct (Choices r) as [|choice0 others]; [congruence|].
    destruct (Content (Delta choice0) =? "")%string; simpl; [now apply IH|].
    specialize (IH (full ++ Content (Delta choice0))%string false Hrest).
    destruct (scanLoop rest (full ++ Content (Delta choice0))%string false).
    exact IH.
  - simpl in Hall. rewrite Ed in Hall. now apply IH.
Qed.

End ConsumerFacts.

(** ** Facts about [TrimSpace] *)

Lemma rev_string_app (s acc : string) :
  rev_string s acc = (reverse s ++ acc)%string.
Proof.
  unfold reverse. revert acc.
  induction s as [|c r IH]; intros acc; simpl; [reflexivity|].
  rewrite (IH (String c acc)), (IH (String c EmptyString)), append_assoc.
  reflexivity.
Qed.

Lemma reverse_cons (c : ascii) (s : string) :
  reverse (String c s) = (reverse s ++ String c EmptyString)%string.
Proof. unfold reverse at 1. simpl. apply rev_string_app. Qed.

Lemma reverse_app (a b : string) :
  reverse (a ++ b) = (reverse b ++ reverse a)%string.
Proof.
  induction a as [|c a IH]; simpl.
  - now rewrite append_nil_r.
  - now rewrite !reverse_cons, IH, append_assoc.
Qed.

Lemma reverse_involutive (s : string) : reverse (reverse s) = s.
Proof.
  induction s as [|c s IH]; [reflexivity|].
  rewrite reverse_cons, reverse_app, IH. reflexivity.
Qed.

Lemma TrimLeft_token (w s : string) :
  In w space_encodings -> TrimLeft (w ++ s) = TrimLeft s.
Proof.
  unfold space_encodings. simpl.
  intros H. repeat (destruct H as [<-|H]; [reflexivity|]). contradiction.
Qed.

Lemma TrimLeftRev_token (w s : string) :
  In w space_encodings -> TrimLeftRev (reverse w ++ s) = TrimLeftRev s.
Proof.
  unfold space_encodings. simpl.
  intros H. repeat (destruct H as [<-|H]; [reflexivity|]). contradiction.
Qed.

Lemma TrimLeft_spaces (ws : list string) (s : string) :
  Forall (fun w => In w space_encodings) ws ->
  TrimLeft (String.concat "" ws ++ s) = TrimLeft s.
Proof.
  induction 1 as [|w ws Hw _ IH]; [reflexivity|].
  rewrite concat_cons, append_assoc, TrimLeft_token by assumption. exact IH.
Qed.

Lemma TrimLeftRev_spaces (ws : list string) :
  Forall (fun w => In w space_encodings) ws ->
  forall s, TrimLeftRev (reverse (String.concat "" ws) ++ s) = TrimLeftRev s.
Proof.
  induction 1 as [|w ws Hw _ IH]; intros s; [reflexivity|].
  rewrite concat_cons, reverse_app, append_assoc, IH.
  now apply TrimLeftRev_token.
Qed.

Lemma TrimLeft_visible (c : ascii) (r : string) :
  visible c = true -> TrimLeft (String c r) = String c r.
Proof.
  unfold visible. intros H. apply andb_true_iff in H as [Hlt Hns].
  apply negb_true_iff in Hns. apply N.ltb_lt in Hlt.
  simpl. rewrite Hns.
  assert (E2 : forall d, space2 c d = false).
  { intros d. unfold space2. destruct (byte c =? 194)%N eqn:E; [|reflexivity].
    apply N.eqb_eq in E. lia. }
  assert (E3 : forall d e, space3 c d e = false).
  { intros d e. unfold space3.
    destruct (byte c =? 225)%N eqn:Ea; [apply N.eqb_eq in Ea; lia|].
    destruct (byte c =? 226)%N eqn:Eb; [apply N.eqb_eq in Eb; lia|].
    destruct (byte c =? 227)%N eqn:Ec; [apply N.eqb_eq in Ec; lia|].
    reflexivity. }
  destruct r as [|d [|e r3]]; rewrite ?E2, ?E3; reflexivity.
Qed.

Lemma TrimLeftRev_visible (c : ascii) (r : string) :
  visible c = true -> TrimLeftRev (String c r) = String c r.
Proof.
  unfold visible. intros H. apply andb_true_iff in H as [Hlt Hns].
  apply negb_true_iff in Hns. apply N.ltb_lt in Hlt.
  simpl. rewrite Hns.
  assert (E2 : forall d, space2 d c = false).
  { intros d. unfold space2.
    destruct (byte c =? 133)%N eqn:Ea; [apply N.eqb_eq in Ea; lia|].
    destruct (byte c =? 160)%N eqn:Eb; [apply N.eqb_eq in Eb; lia|].
    simpl. apply andb_false_r. }
  assert (E3 : forall d e, space3 e d c = false).
  { intros d e. unfold space3.
    destruct (byte c =? 128)%N eqn:Ea; [apply N.eqb_eq in Ea; lia|].
    destruct (byte c =? 159)%N eqn:Eb; [apply N.eqb_eq in Eb; lia|].
    destruct (byte c =? 168)%N eqn:Ec; [apply N.eqb_eq in Ec; lia|].
    destruct (byte c =? 169)%N eqn:Ed; [apply N.eqb_eq in Ed; lia|].
    destruct (byte c =? 175)%N eqn:Ee; [apply N.eqb_eq in Ee; lia|].
    destruct (128 <=? byte c)%N eqn:Ef; [apply N.leb_le in Ef; lia|].
    simpl. rewrite !andb_false_r. reflexivity. }
  destruct r as [|d [|e r3]]; rewrite ?E2, ?E3; reflexivity.
Qed.

Lemma TrimSpace_whitespace (s : string) : whitespace_only s -> TrimSpace s = "".
Proof.
  intros (ws & Hws & ->). unfold TrimSpace.
  rewrite <- (append_nil_r (String.concat "" ws)).
  rewrite TrimLeft_spaces by assumption. reflexivity.
Qed.

(** Padding with white space on both sides is trimmed away from a text whose
    first and last bytes are visible. *)
Lemma TrimSpace_padded (a b core : string) (c c' : ascii) (r r' : string) :
  whitespace_only a -> whitespace_only b ->
  core = String c r -> reverse core = String c' r' ->
  visible c = true -> visible c' = true ->
  TrimSpace (a ++ core ++ b) = core.
Proof.
  intros (wa & Hwa & ->) (wb & Hwb & ->) Hc Hr Hv Hv'. unfold TrimSpace.
  rewrite TrimLeft_spaces by assumption.
  rewrite Hc. change (String c r ++ String.concat "" wb)%string
    with (String c (r ++ String.concat "" wb)).
  rewrite TrimLeft_visible by assumption.
  change (String c (r ++ String.concat "" wb))
    with (String c r ++ String.concat "" wb)%string.
  rewrite <- Hc. unfold TrimRight.
  rewrite reverse_app, TrimLeftRev_spaces by assumption.
  rewrite Hr, TrimLeftRev_visible by assumption.
  rewrite <- Hr. apply reverse_involutive.
Qed.

Lemma In_by_eqb (w : string) (l : list string) :
  existsb (String.eqb w) l = true -> In w l.
Proof.
  intros H. apply existsb_exists in H as (v & Hin & Heq).
  apply String.eqb_eq in Heq. now subst.
Qed.

(** ** Runs *)

Lemma run_app (a b : list goroutine) (s : State) :
  run (a ++ b) s = run b (run a s).
Proof. revert s. induction a as [|g a IH]; intros s; simpl; [reflexivity | apply IH]. Qed.

Lemma run_invariant (I : State -> Prop) :
  (forall g s, I s -> I (step g s)) ->
  forall sched s, I s -> I (run sched s).
Proof.
  intros Hstep sched. induction sched as [|g sched IH]; intros s Hs; simpl; auto.
Qed.

Ltac break_state s :=
  let h := fresh "hist" in let p := fresh "prog" in let a := fresh "a" in
  let n := fresh "n" in let lg := fresh "lg" in let st := fresh "st" in
  destruct s as [h p a n lg st]; simpl in *.

Section Turn.

Variable h : list Message.
Variable u : Message.
Variable F : list Message -> list instr.

#[local] Abbreviation before_call := (before_call h u F).
#[local] Abbreviation at_call := (at_call h u F).

Lemma polling_step_anim hist prog a n lg :
  polling a = true ->
  main_sending {| conversationHistory := hist; pending := prog; anim := a;
                  wg := n; log := lg; status := Running |} stopChan = false ->
  exists a' lg' st',
    step_anim {| conversationHistory := hist; pending := prog; anim := a;
                 wg := n; log := lg; status := Running |}
    = {| conversationHistory := hist; pending := prog; anim := a';
         wg := n; log := lg'; status := st' |}
    /\ polling a' = true /\ alive st' = true.
Proof.
  intros Hp Hs. destruct a; try discriminate; unfold step_anim; simpl.
  - do 3 eexists. split; [reflexivity|]. split; reflexivity.
  - rewrite Hs. destruct (index chars (Z.rem idx 4)); simpl;
      (do 3 eexists; split; [reflexivity|]; split; reflexivity).
Qed.

Lemma turn_invariant (post : State -> Prop) :
  (forall s, at_call s -> post s) ->
  (forall g s, post s -> post (step g s)) ->
  forall sched s, before_call s \/ post s -> before_call (run sched s) \/ post (run sched s).
Proof.
  intros Hcall Hpost. apply run_invariant. intros g s [Hb|Hp]; [|right; auto].
  destruct Hb; unfold step; simpl.
  - destruct g; simpl; left; constructor.
  - destruct g; simpl; left; constructor.
  - destruct g; simpl; left; constructor; reflexivity.
  - destruct st; try discriminate; [|left; now constructor].
    destruct g.
    + right. apply Hcall. unfold step_main, at_call. simpl.
      rewrite app_nil_r. auto.
    + destruct (polling_step_anim (h ++ [u]) [ICall F] a 1 lg H eq_refl)
        as (a' & lg' & st' & E & Ha & Hs).
      rewrite E. left. now constructor.
Qed.

Lemma before_call_keeps_message g s :
  before_call s -> conversationHistory s = h ++ [u] ->
  conversationHistory (step g s) = h ++ [u].
Proof.
  intros Hb Hh. destruct Hb; unfold step; simpl in *; destruct g; simpl; auto.
  - destruct st; auto.
  - destruct st; auto.
    destruct (polling_step_anim (h ++ [u]) [ICall F] a 1 lg H eq_refl)
      as (a' & lg' & st' & E & _ & _).
    now rewrite E.
Qed.

Lemma turn_invariant_message (post : State -> Prop) :
  (forall s, at_call s -> post s) ->
  (forall g s, post s -> post (step g s)) ->
  (forall s, post s -> conversationHistory s = h ++ [u]) ->
  forall sched s,
    before_call s \/ post s -> conversationHistory s = h ++ [u] ->
    conversationHistory (run sched s) = h ++ [u].
Proof.
  intros Hcall Hpost Hmsg sched.
  induction sched as [|g sched IH]; intros s Hs Hh; [exact Hh|].
  simpl. apply IH.
  - apply (turn_invariant post Hcall Hpost [g] s Hs).
  - destruct Hs as [Hb|Hp]; [now apply before_call_keeps_message|].
    apply Hmsg. now apply Hpost.
Qed.

End Turn.

Arguments index : simpl never.

Lemma calm_not_sending hist q k a n lg st c :
  forallb is_calm q = true ->
  main_sending {| conversationHistory := hist; pending := q ++ IWait :: k; anim := a;
                  wg := n; log := lg; status := st |} c = false.
Proof.
  intros Hq. unfold main_sending. simpl.
  destruct q as [|i q]; [reflexivity|]. simpl in *.
  destruct i; try discriminate; reflexivity.
Qed.

Section AfterCall.

Variable h : list Message.
Variable u : Message.

#[local] Abbreviation waiting := (waiting h u).

Lemma waiting_step k g s : waiting k s -> waiting k (step g s).
Proof.
  intros (Hh & Ha & Hw & Hs & q & Hq & Hp). break_state s. subst.
  unfold step. simpl. destruct st; try discriminate.
  2:{ unfold waiting. simpl. eauto 10. }
  destruct g.
  - unfold step_main. simpl. destruct q as [|i q]; simpl.
    + unfold waiting. simpl. repeat split; auto. exists []. auto.
    + simpl in Hq. apply andb_true_iff in Hq as [Hi Hq].
      destruct i; try discriminate; unfold waiting; simpl; eauto 10.
  - destruct (polling_step_anim (h ++ [u]) (q ++ IWait :: k) a 1 lg Ha
                (calm_not_sending _ q k a 1 lg Running stopChan Hq))
      as (a' & lg' & st' & E & Ha' & Hs').
    rewrite E. unfold waiting. simpl. eauto 10.
Qed.

Lemma doomed_step g s : doomed s -> doomed (step g s).
Proof.
  intros (k & Hk). break_state s. subst. unfold step, doomed. simpl.
  destruct st; simpl; eauto.
  destruct g;
    [unfold step_main, anim_sending
    |unfold step_anim, main_sending, main_receiving; destruct a];
    simpl; eauto;
    (destruct k as [|i k]; simpl; [|destruct i; simpl]);
    repeat (match goal with
            | |- context [match ?x with _ => _ end] => destruct x
            end; simpl);
    first [ now eexists
          | rewrite app_comm_cons; now eexists
          | rewrite app_assoc; now eexists
          | now exists [] ].
Qed.

Lemma doomed_not_returned s : doomed s -> ~ returned s.
Proof.
  intros (k & Hk) [Hp _]. rewrite Hk in Hp. destruct k; discriminate.
Qed.

End AfterCall.

Arguments removelast : simpl never.

Lemma settles_step final g s : settles final s -> settles final (step g s).
Proof.
  intros [Hc Hf]. break_state s. unfold step. simpl.
  destruct st; [|split; assumption|split; assumption].
  assert (Hsame : settles final
            {| conversationHistory := hist; pending := prog; anim := a; wg := n;
               log := lg; status := Running |}) by (split; assumption).
  destruct g.
  - unfold step_main. simpl.
    destruct prog as [|i k]; [exact Hsame|].
    simpl in Hc, Hf. apply andb_true_iff in Hc as [Hi Hc].
    destruct i; simpl in Hf; try discriminate Hi;
      try (split; simpl; assumption).
    + destruct hist; [split; simpl; [now rewrite Hc | exact Hf]|].
      split; simpl; assumption.
    + unfold anim_sending. simpl. destruct a; try exact Hsame.
      destruct (chan_eqb c doneChan); [split; simpl; assumption | exact Hsame].
    + destruct (Nat.eqb n 0); [split; simpl; assumption | exact Hsame].
  - unfold step_anim. simpl. destruct a; try exact Hsame;
      try (split; simpl; assumption).
    + unfold main_sending. simpl.
      destruct prog as [|i k].
      * destruct (index chars (Z.rem idx 4)); split; simpl; assumption.
      * simpl in Hc, Hf. apply andb_true_iff in Hc as [Hi Hc].
        destruct i; try (destruct (index chars (Z.rem idx 4)); split; simpl; auto;
                         rewrite ?Hc; auto; fail).
        destruct c; simpl.
        -- split; simpl; assumption.
        -- destruct (index chars (Z.rem idx 4)); split; simpl; auto.
    + unfold main_receiving. simpl.
      destruct prog as [|i k]; [exact Hsame|].
      simpl in Hc, Hf. apply andb_true_iff in Hc as [Hi Hc].
      destruct i; try exact Hsame.
      destruct c; simpl; [exact Hsame|]. split; simpl; assumption.
Qed.

Lemma settles_returned final s : settles final s -> returned s -> conversationHistory s = final.
Proof. intros [_ Hf] [Hp _]. rewrite Hp in Hf. exact Hf. Qed.

Lemma hist_after_app (a b : list instr) (hist : list Message) :
  hist_after (a ++ b) hist = hist_after b (hist_after a hist).
Proof. revert hist. induction a as [|i a IH]; intros hist; simpl; auto. Qed.

Lemma hist_after_keeps (prog : list instr) (hist : list Message) :
  forallb keeps_history prog = true -> hist_after prog hist = hist.
Proof.
  revert hist. induction prog as [|i k IH]; intros hist H; simpl in *; [reflexivity|].
  apply andb_true_iff in H as [Hi Hk]. destruct i; try discriminate; simpl; auto.
Qed.

(** ** A turn in which the consumer asks the animation to stop *)

Lemma local_not_sending hist q i k a n lg st c :
  forallb is_local q = true -> is_local i = false -> q <> [] ->
  main_sending {| conversationHistory := hist; pending := q ++ i :: k; anim := a;
                  wg := n; log := lg; status := st |} c = false.
Proof.
  intros Hq _ Hne. unfold main_sending. simpl.
  destruct q as [|j q]; [congruence|]. simpl in *.
  destruct j; try discriminate; reflexivity.
Qed.

Section Synced.

Variable h : list Message.
Variable u : Message.
(** What follows the rendezvous inside [sendStreamRequest], and what
    follows lines 223-232 in [executor]. *)
Variable p fin : list instr.
Hypothesis p_local : forallb is_local p = true.
Hypothesis fin_quiet : forallb is_quiet fin = true.

#[local] Abbreviation synced := (synced h u p fin).
#[local] Abbreviation SY_before := (SY_before h u p fin).
#[local] Abbreviation SY_stopping := (SY_stopping h u p fin).
#[local] Abbreviation SY_after := (SY_after h u p fin).
#[local] Abbreviation SY_rest := (SY_rest h u p fin).

Lemma gone_step_anim hist prog a n lg :
  gone a n ->
  exists a' n',
    step_anim {| conversationHistory := hist; pending := prog; anim := a;
                 wg := n; log := lg; status := Running |}
    = {| conversationHistory := hist; pending := prog; anim := a';
         wg := n'; log := lg; status := Running |}
    /\ gone a' n'.
Proof.
  intros [[-> ->]|[-> ->]]; unfold step_anim; simpl.
  - exists AExited, 0. split; [reflexivity | right; auto].
  - exists AExited, 0. split; [reflexivity | right; auto].
Qed.

Lemma synced_step g s : synced s -> synced (step g s).
Proof.
  intros H. destruct H as [q a lg st Hq Ha Hst | a lg Ha | q a n lg Hq Hg
                          | hist prog a n lg st Hq Hg]; unfold step; cbn [status].
  - (* before the stop *)
    destruct st; try discriminate; [|now apply SY_before].
    destruct g.
    + unfold step_main. simpl. destruct q as [|i q]; simpl.
      * now apply (SY_before []).
      * simpl in Hq. apply andb_true_iff in Hq as [Hi Hq].
        destruct i; try discriminate; simpl; now apply SY_before.
    + destruct q as [|i q].
      * unfold step_anim. simpl. destruct a; try discriminate; simpl.
        -- now apply (SY_before []).
        -- apply SY_stopping. now left.
      * edestruct (polling_step_anim (h ++ [u])) as (a' & lg' & st' & E & Ha' & Hs');
          [exact Ha | | rewrite E; now apply SY_before].
        apply local_not_sending; [exact Hq | reflexivity | discriminate].
  - (* between the stop and its acknowledgement *)
    destruct g.
    + unfold step_main, anim_sending. simpl.
      destruct Ha as [-> | ->]; simpl.
      * apply SY_stopping. now left.
      * apply SY_after; [exact p_local | left; auto].
    + unfold step_anim, main_receiving. simpl.
      destruct Ha as [-> | ->]; simpl.
      * apply SY_stopping. now right.
      * apply SY_after; [exact p_local | left; auto].
  - (* after the acknowledgement *)
    destruct g.
    + unfold step_main. simpl. destruct q as [|i q]; simpl.
      * apply SY_rest; [|exact Hg]. simpl. exact fin_quiet.
      * simpl in Hq. apply andb_true_iff in Hq as [Hi Hq].
        destruct i; try discriminate; simpl; now apply SY_after.
    + destruct (gone_step_anim (h ++ [u]) (q ++ ensure_stopped ++ fin) a n lg Hg)
        as (a' & n' & E & Hg').
      rewrite E. now apply SY_after.
  - (* the rest of executor *)
    destruct st; [|now apply SY_rest|now apply SY_rest].
    destruct g.
    + unfold step_main. simpl. destruct prog as [|i k]; [now apply SY_rest|].
      simpl in Hq. apply andb_true_iff in Hq as [Hi Hq].
      destruct i; try discriminate; simpl; try (now apply SY_rest).
      * destruct hist; apply SY_rest; simpl; auto.
      * destruct (Nat.eqb n 0); apply SY_rest; simpl; auto.
    + destruct (gone_step_anim hist prog a n lg Hg) as (a' & n' & E & Hg').
      rewrite E. now apply SY_rest.
Qed.

(** When the main goroutine stands at the select of line 224, the
    animation has acknowledged the stop already. *)
Lemma synced_at_select s :
  synced s -> pending s = ensure_stopped ++ fin ->
  gone (anim s) (wg s) /\ conversationHistory s = h ++ [u] /\ status s = Running.
Proof.
  intros H E. destruct H as [q a lg st Hq Ha Hst | a lg Ha | q a n lg Hq Hg
                            | hist prog a n lg st Hq Hg]; simpl in *.
  - destruct q as [|i q]; simpl in *; [discriminate|].
    inversion E; subst. discriminate.
  - discriminate.
  - auto.
  - rewrite E in Hq. discriminate.
Qed.

End Synced.

Lemma run_main_local (q : list instr) : forall hist k a n lg,
  forallb is_local q = true ->
  exists lg',
    run (repeat G_main (length q))
        {| conversationHistory := hist; pending := q ++ k; anim := a; wg := n;
           log := lg; status := Running |}
    = {| conversationHistory := hist; pending := k; anim := a; wg := n;
         log := lg'; status := Running |}.
Proof.
  induction q as [|i q IH]; intros hist k a n lg Hq; simpl.
  - now exists lg.
  - simpl in Hq. apply andb_true_iff in Hq as [Hi Hq].
    destruct i; try discriminate; unfold step, step_main; simpl; now apply IH.
Qed.

Lemma gone_exits hist prog a n lg :
  gone a n ->
  step G_anim {| conversationHistory := hist; pending := prog; anim := a;
                 wg := n; log := lg; status := Running |}
  = {| conversationHistory := hist; pending := prog; anim := AExited;
       wg := 0; log := lg; status := Running |}.
Proof. intros [[-> ->]|[-> ->]]; reflexivity. Qed.

Section Finish.

Variable h : list Message.
Variable u : Message.

#[local] Abbreviation final_history := (final_history h u).

(** From the select of line 224, with the animation past its
    acknowledgement, [executor] runs to its end. *)
Lemma finish_from_select r a n lg :
  gone a n ->
  let s := run [G_anim; G_main; G_main; G_main; G_main; G_main; G_main]
             {| conversationHistory := h ++ [u];
                pending := ensure_stopped ++ reconcile r;
                anim := a; wg := n; log := lg; status := Running |} in
  returned s /\ conversationHistory s = final_history r.
Proof.
  intros Hg. cbn [run]. rewrite (gone_exits _ _ _ _ _ Hg).
  destruct r as [c|e|].
  - change (ensure_stopped ++ reconcile (Ok c))
      with [ISelectSend stopChan doneChan; IWait; IClose stopChan; IClose doneChan;
            IAppend (assistant c); IPrint (LF ++ LF)%string].
    cbv [step step_main status pending set_pending
         anim_receiving wg Nat.eqb emit set_history conversationHistory log anim
         returned final_history].
    split; [split; reflexivity|]. now rewrite <- app_assoc.
  - change (ensure_stopped ++ reconcile (Err e))
      with [ISelectSend stopChan doneChan; IWait; IClose stopChan; IClose doneChan;
            IPrint ("[错误] " ++ e ++ LF ++ LF)%string; IDropLast].
    cbv [step step_main status pending set_pending
         anim_receiving wg Nat.eqb emit log anim].
    cbn [status pending conversationHistory].
    destruct (h ++ [u]) as [|m l] eqn:E; [now destruct h|].
    cbv [step step_main status pending set_pending set_history conversationHistory
         log anim wg returned final_history].
    rewrite <- E, removelast_last. repeat split.
  - change (ensure_stopped ++ reconcile Panic)
      with [ISelectSend stopChan doneChan; IWait; IClose stopChan; IClose doneChan].
    cbv [step step_main status pending set_pending
         anim_receiving wg Nat.eqb emit set_history conversationHistory log anim
         returned final_history].
    repeat split.
Qed.

End Finish.

(** Lines 209-221: four moves of the main goroutine reach the call. *)
Lemma run_to_call h u F :
  run (repeat G_main 4) (start h [IAppend u; IWgAdd; IGo; ICall F])
  = {| conversationHistory := h ++ [u]; pending := F (h ++ [u]) ++ [];
       anim := AStart; wg := 1; log := []; status := Running |}.
Proof. reflexivity. Qed.

(** The rendezvous of lines 164-165 with a freshly spawned animation. *)
Lemma run_handshake hist k lg :
  exists lg',
    run [G_anim; G_anim; G_anim; G_main; G_anim]
        {| conversationHistory := hist;
           pending := ISend stopChan :: IRecv doneChan :: k;
           anim := AStart; wg := 1; log := lg; status := Running |}
    = {| conversationHistory := hist; pending := k; anim := AExited; wg := 0;
         log := lg'; status := Running |}.
Proof. eexists. vm_compute. reflexivity. Qed.

(** ** Turns *)

(** ** Turns *)

Lemma run_stuck (sched : list goroutine) (s : State) :
  status s <> Running -> run sched s = s.
Proof.
  intros H. induction sched as [|g sched IH]; simpl; [reflexivity|].
  unfold step. destruct (status s); [congruence | exact IH | exact IH].
Qed.

Section TurnFacts.

Variable json_Unmarshal : string -> option StreamResponse.
Variable config : Config.

#[local] Abbreviation send := (sendStreamRequest json_Unmarshal config).
#[local] Abbreviation exec := (executor json_Unmarshal config).

Lemma executor_turn input x :
  is_turn input = true ->
  exec input x =
    [IAppend (user (TrimSpace input)); IWgAdd; IGo;
     ICall (request_and_reconcile json_Unmarshal config x)].
Proof.
  unfold is_turn, executor. intros H. apply negb_true_iff in H.
  apply orb_false_iff in H as [H Hd]. apply orb_false_iff in H as [H Hc].
  apply orb_false_iff in H as [Ha Hb]. cbv zeta.
  now rewrite Ha, Hb, Hc, Hd.
Qed.

(** What [sendStreamRequest] does before it returns: the request, then,
    if a non-empty delta arrives, one rendezvous followed by the deltas. *)
Lemma send_shape messages x tr r :
  send messages x = (tr, r) ->
  exists rq ds,
    forallb is_local rq = true /\
    Forall (fun d => d <> "") ds /\
    tr = rq ++ sync_prefix true ds ++ map IPrint ds /\
    match r with
    | Ok c => ds <> [] /\ c = String.concat "" ds
    | _ => True
    end.
Proof.
  destruct x as [err|err|err isTimeout|st body scanErr]; simpl; intros H.
  - inversion H; subst. exists [], []. repeat split; constructor.
  - inversion H; subst. exists [], []. repeat split; constructor.
  - inversion H; subst. eexists [_], []. repeat split; constructor.
  - destruct (negb (st =? StatusOK)%Z).
    { inversion H; subst. eexists [_], []. repeat split; constructor. }
    destruct (scanLoop json_Unmarshal body "" true) as [tr' e] eqn:Eloop.
    apply scanLoop_trace in Eloop as (ds & Hne & Htr & He).
    assert (Hok : forall f, f = ("" ++ String.concat "" ds)%string ->
                   (f =? "")%string = false -> ds <> [] /\ f = String.concat "" ds).
    { intros f -> Hf. simpl in *. split; [|reflexivity].
      intros ->. simpl in Hf. discriminate. }
    destruct e as [f|f|].
    + destruct scanErr.
      * inversion H; subst. eexists [_], ds. repeat split; auto.
      * destruct (f =? "")%string eqn:Ef; inversion H; subst;
          try (pose proof (Hok _ eq_refl Ef) as [? ?]);
          eexists [_], ds; repeat split; auto.
    + destruct scanErr.
      * inversion H; subst. eexists [_], ds. repeat split; auto.
      * destruct (f =? "")%string eqn:Ef; inversion H; subst;
          try (pose proof (Hok _ eq_refl Ef) as [? ?]);
          eexists [_], ds; repeat split; auto.
    + inversion H; subst. eexists [_], ds. repeat split; auto.
Qed.

(** The answer of the environment does not depend on the messages sent. *)
Lemma send_result_messages m1 m2 x : snd (send m1 x) = snd (send m2 x).
Proof.
  destruct x as [err|err|err isTimeout|st body scanErr]; simpl; try reflexivity.
  destruct (negb (st =? StatusOK)%Z); [reflexivity|].
  destruct (scanLoop json_Unmarshal body "" true) as [tr e].
  destruct e as [f|f|]; [destruct scanErr|destruct scanErr|]; try reflexivity;
    destruct (f =? "")%string; reflexivity.
Qed.

Lemma has_stop_local rq : forallb is_local rq = true -> has_stop rq = false.
Proof.
  induction rq as [|i rq IH]; simpl; [reflexivity|]. intros H.
  apply andb_true_iff in H as [Hi H]. rewrite (IH H).
  destruct i; try discriminate; reflexivity.
Qed.

Lemma has_stop_prints ds : has_stop (map IPrint ds) = false.
Proof. induction ds; simpl; auto. Qed.

Lemma has_stop_app a b : has_stop (a ++ b) = has_stop a || has_stop b.
Proof. unfold has_stop. apply existsb_app. Qed.

Lemma local_prints ds : forallb is_local (map IPrint ds) = true.
Proof. induction ds; simpl; auto. Qed.

(** A trace without a stop is the request alone. *)
Lemma shape_without_stop rq ds :
  forallb is_local rq = true ->
  has_stop (rq ++ sync_prefix true ds ++ map IPrint ds) = false -> ds = [].
Proof.
  intros Hrq H. rewrite has_stop_app, (has_stop_local rq Hrq) in H.
  destruct ds; [reflexivity | discriminate].
Qed.

End TurnFacts.

Lemma local_is_calm q : forallb is_local q = true -> forallb is_calm q = true.
Proof.
  induction q as [|i q IH]; simpl; [reflexivity|]. intros H.
  apply andb_true_iff in H as [Hi H]. rewrite (IH H).
  destruct i; try discriminate; reflexivity.
Qed.

Lemma local_not_call q : forallb is_local q = true -> forallb not_call q = true.
Proof.
  induction q as [|i q IH]; simpl; [reflexivity|]. intros H.
  apply andb_true_iff in H as [Hi H]. rewrite (IH H).
  destruct i; try discriminate; reflexivity.
Qed.

Lemma local_keeps_history q : forallb is_local q = true -> forallb keeps_history q = true.
Proof.
  induction q as [|i q IH]; simpl; [reflexivity|]. intros H.
  apply andb_true_iff in H as [Hi H]. rewrite (IH H).
  destruct i; try discriminate; reflexivity.
Qed.

Section TurnRuns.

Variable json_Unmarshal : string -> option StreamResponse.
Variable config : Config.
Variable h : list Message.
Variable input : string.
Variable x : Exchange.

#[local] Abbreviation u := (user (TrimSpace input)).
#[local] Abbreviation F := (request_and_reconcile json_Unmarshal config x).
#[local] Abbreviation s0 := (start h (executor json_Unmarshal config input x)).

Hypothesis turn : is_turn input = true.

Lemma start_before_call : before_call h u F s0.
Proof. unfold start. rewrite executor_turn by exact turn. constructor. Qed.

Lemma before_call_not_returned s : before_call h u F s -> ~ returned s.
Proof. intros H [Hp _]. destruct H; discriminate. Qed.

(** No stop inside [sendStreamRequest] and an error: the main goroutine
    never gets past [wg.Wait()]. *)
Lemma failed_turn_waits tr e sched :
  sendStreamRequest json_Unmarshal config (h ++ [u]) x = (tr, Err e) ->
  has_stop tr = false ->
  before_call h u F (run sched s0) \/
  waiting h u (IClose stopChan :: IClose doneChan :: reconcile (Err e)) (run sched s0).
Proof.
  intros Hsend Hstop. apply turn_invariant.
  - intros s (Hh & Hp & Ha & Hw & Hs). unfold waiting. rewrite Hs. repeat split; auto.
    unfold request_and_reconcile in Hp. rewrite Hsend in Hp.
    destruct (send_shape _ _ _ _ _ _ Hsend) as (rq & ds & Hrq & _ & Htr & _).
    subst tr. rewrite (shape_without_stop rq ds Hrq Hstop) in *. simpl in Hp.
    rewrite app_nil_r in Hp.
    exists (rq ++ [ISelectSend stopChan doneChan]). split.
    + rewrite forallb_app, (local_is_calm rq Hrq). reflexivity.
    + rewrite Hp, <- app_assoc. reflexivity.
  - intros g s. apply waiting_step.
  - left. exact start_before_call.
Qed.

Lemma failed_turn_keeps_message tr e sched :
  sendStreamRequest json_Unmarshal config (h ++ [u]) x = (tr, Err e) ->
  has_stop tr = false ->
  conversationHistory (run (G_main :: sched) s0) = h ++ [u].
Proof.
  intros Hsend Hstop. simpl. unfold start. rewrite executor_turn by exact turn.
  apply (turn_invariant_message h u F
           (waiting h u (IClose stopChan :: IClose doneChan :: reconcile (Err e)))).
  - intros s (Hh & Hp & Ha & Hw & Hs). unfold waiting. rewrite Hs. repeat split; auto.
    unfold request_and_reconcile in Hp. rewrite Hsend in Hp.
    destruct (send_shape _ _ _ _ _ _ Hsend) as (rq & ds & Hrq & _ & Htr & _).
    subst tr. rewrite (shape_without_stop rq ds Hrq Hstop) in *. simpl in Hp.
    rewrite app_nil_r in Hp.
    exists (rq ++ [ISelectSend stopChan doneChan]). split.
    + rewrite forallb_app, (local_is_calm rq Hrq). reflexivity.
    + rewrite Hp, <- app_assoc. reflexivity.
  - intros g s. apply waiting_step.
  - intros s Hw. apply Hw.
  - left. constructor.
  - reflexivity.
Qed.

(** A panic inside [sendStreamRequest]: [executor] never returns. *)
Lemma panicking_turn_doomed tr sched :
  sendStreamRequest json_Unmarshal config (h ++ [u]) x = (tr, Panic) ->
  before_call h u F (run sched s0) \/ doomed (run sched s0).
Proof.
  intros Hsend. apply turn_invariant.
  - intros s (Hh & Hp & Ha & Hw & Hs). exists tr.
    unfold request_and_reconcile in Hp. now rewrite Hsend in Hp.
  - intros g s. apply doomed_step.
  - left. exact start_before_call.
Qed.

(** Whenever [executor] returns, the transcript is the one [reconcile]
    leaves. *)
Lemma turn_settles tr r sched :
  sendStreamRequest json_Unmarshal config (h ++ [u]) x = (tr, r) ->
  r <> Panic ->
  before_call h u F (run sched s0) \/ settles (final_history h u r) (run sched s0).
Proof.
  intros Hsend Hr. apply turn_invariant.
  - intros s (Hh & Hp & Ha & Hw & Hs).
    unfold request_and_reconcile in Hp. rewrite Hsend in Hp.
    destruct (send_shape _ _ _ _ _ _ Hsend) as (rq & ds & Hrq & _ & Htr & _).
    assert (Htrk : forallb keeps_history tr = true /\ forallb not_call tr = true).
    { subst tr. rewrite !forallb_app, (local_keeps_history rq Hrq), (local_not_call rq Hrq),
        (local_keeps_history _ (local_prints ds)), (local_not_call _ (local_prints ds)).
      destruct ds; simpl; auto. }
    destruct Htrk as [Hk Hc].
    assert (Hp' : pending s = tr ++ ensure_stopped ++ reconcile r)
      by (destruct r; [exact Hp | exact Hp | congruence]).
    unfold settles. rewrite Hp', Hh. split.
    + rewrite forallb_app, Hc. destruct r; reflexivity.
    + rewrite hist_after_app, (hist_after_keeps tr _ Hk).
      destruct r; simpl; [now rewrite <- app_assoc | apply removelast_last | congruence].
  - intros g s. apply settles_step.
  - left. exact start_before_call.
Qed.

Lemma turn_returns_final tr r sched :
  sendStreamRequest json_Unmarshal config (h ++ [u]) x = (tr, r) ->
  r <> Panic ->
  returned (run sched s0) ->
  conversationHistory (run sched s0) = final_history h u r.
Proof.
  intros Hsend Hr Hret.
  destruct (turn_settles tr r sched Hsend Hr) as [Hb|Hs].
  - now apply before_call_not_returned in Hb.
  - now apply settles_returned.
Qed.

Lemma reconcile_quiet r : forallb is_quiet (reconcile r) = true.
Proof. destruct r; reflexivity. Qed.

Lemma shape_with_stop tr r :
  sendStreamRequest json_Unmarshal config (h ++ [u]) x = (tr, r) ->
  has_stop tr = true ->
  exists rq ds,
    forallb is_local rq = true /\
    tr = rq ++ ISend stopChan :: IRecv doneChan :: map IPrint ds.
Proof.
  intros Hsend Hstop.
  destruct (send_shape _ _ _ _ _ _ Hsend) as (rq & ds & Hrq & _ & Htr & _).
  exists rq, ds. split; [exact Hrq|]. subst tr.
  destruct ds; [|reflexivity].
  simpl in Hstop. rewrite app_nil_r, (has_stop_local rq Hrq) in Hstop. discriminate.
Qed.

(** The consumer asked for the stop: the run follows the handshake. *)
Lemma stopped_turn_synced tr r rq ds sched :
  sendStreamRequest json_Unmarshal config (h ++ [u]) x = (tr, r) ->
  r <> Panic ->
  forallb is_local rq = true ->
  tr = rq ++ ISend stopChan :: IRecv doneChan :: map IPrint ds ->
  before_call h u F (run sched s0) \/
  synced h u (map IPrint ds) (reconcile r) (run sched s0).
Proof.
  intros Hsend Hr Hrq Htr. apply turn_invariant.
  - intros s (Hh & Hp & Ha & Hw & Hs). break_state s. subst.
    unfold request_and_reconcile. rewrite Hsend.
    replace (match r with
             | Panic => _
             | _ => _
             end)
      with ((rq ++ ISend stopChan :: IRecv doneChan :: map IPrint ds)
              ++ ensure_stopped ++ reconcile r)
      by (destruct r; congruence).
    rewrite <- app_assoc. simpl. now apply SY_before.
  - intros g s. apply synced_step; [apply local_prints | apply reconcile_quiet].
  - left. exact start_before_call.
Qed.

(** A schedule that takes such a turn to its end. *)
Lemma stopped_turn_can_return tr r :
  sendStreamRequest json_Unmarshal config (h ++ [u]) x = (tr, r) ->
  r <> Panic ->
  has_stop tr = true ->
  exists sched,
    returned (run sched s0) /\
    conversationHistory (run sched s0) = final_history h u r.
Proof.
  intros Hsend Hr Hstop.
  destruct (shape_with_stop tr r Hsend Hstop) as (rq & ds & Hrq & Htr).
  exists (repeat G_main 4 ++ repeat G_main (length rq)
          ++ [G_anim; G_anim; G_anim; G_main; G_anim]
          ++ repeat G_main (length (map IPrint ds))
          ++ [G_anim; G_main; G_main; G_main; G_main; G_main; G_main]).
  unfold start. rewrite executor_turn by exact turn. fold (start h
    [IAppend u; IWgAdd; IGo; ICall F]).
  rewrite !run_app, run_to_call, app_nil_r.
  unfold request_and_reconcile. rewrite Hsend.
  replace (match r with
           | Panic => _
           | _ => _
           end)
    with (rq ++ (ISend stopChan :: IRecv doneChan :: map IPrint ds
                 ++ ensure_stopped ++ reconcile r))
    by (destruct r; try congruence; subst tr; rewrite <- app_assoc; reflexivity).
  destruct (run_main_local rq (h ++ [u])
              (ISend stopChan :: IRecv doneChan :: map IPrint ds
                 ++ ensure_stopped ++ reconcile r) AStart 1 [] Hrq) as (lg1 & ->).
  destruct (run_handshake (h ++ [u]) (map IPrint ds ++ ensure_stopped ++ reconcile r) lg1)
    as (lg2 & ->).
  destruct (run_main_local (map IPrint ds) (h ++ [u])
              (ensure_stopped ++ reconcile r) AExited 0 lg2 (local_prints ds))
    as (lg3 & ->).
  apply (finish_from_select h u r AExited 0 lg3). right. auto.
Qed.

End TurnRuns.

Section Session.

Variable json_Unmarshal : string -> option StreamResponse.
Variable config : Config.

#[local] Abbreviation outcome := (outcome json_Unmarshal config).
#[local] Abbreviation turn_returns := (turn_returns json_Unmarshal config).

Lemma successful_turn input x c h :
  is_turn input = true -> outcome x = Ok c ->
  (exists h', turn_returns input x h h') /\
  (forall h', turn_returns input x h h' ->
              h' = h ++ [user (TrimSpace input); assistant c]).
Proof.
  intros Hturn Hok.
  destruct (sendStreamRequest json_Unmarshal config (h ++ [user (TrimSpace input)]) x)
    as [tr r] eqn:Hsend.
  assert (Hr : r = Ok c).
  { unfold outcome in Hok.
    rewrite (send_result_messages json_Unmarshal config []
               (h ++ [user (TrimSpace input)]) x), Hsend in Hok. exact Hok. }
  subst r.
  assert (Hstop : has_stop tr = true).
  { destruct (send_shape _ _ _ _ _ _ Hsend) as (rq & ds & Hrq & _ & Htr & Hne & _).
    subst tr. rewrite !has_stop_app. destruct ds; [congruence|].
    simpl. now rewrite orb_true_r. }
  split.
  - destruct (stopped_turn_can_return json_Unmarshal config h input x Hturn tr (Ok c)
                Hsend ltac:(discriminate) Hstop) as (sched & Hret & Hh).
    eexists. exists sched. split; [exact Hret | exact Hh].
  - intros h' (sched & Hret & Hh). subst h'.
    apply (turn_returns_final json_Unmarshal config h input x Hturn tr (Ok c) sched
             Hsend ltac:(discriminate) Hret).
Qed.

End Session.

Lemma idle_anim_step s : anim s = ANone -> step G_anim s = s.
Proof.
  intros H. break_state s. subst. unfold step. simpl. destruct st; reflexivity.
Qed.

Lemma main_step_no_spawn s :
  anim s = ANone -> forallb no_spawn (pending s) = true ->
  anim (step G_main s) = ANone /\ forallb no_spawn (pending (step G_main s)) = true.
Proof.
  intros Ha Hp. break_state s. subst. unfold step. simpl.
  destruct st; simpl; auto.
  unfold step_main. simpl. destruct prog as [|i k]; simpl; auto.
  simpl in Hp. apply andb_true_iff in Hp as [Hi Hk].
  destruct i; try discriminate; simpl; auto;
    try (destruct hist; simpl; rewrite ?Hk; auto; fail);
    try (destruct (Nat.eqb n 0); simpl; rewrite ?Hk; auto; fail);
    rewrite ?Hk; auto.
Qed.

Lemma run_main_only sched : forall s,
  anim s = ANone -> forallb no_spawn (pending s) = true ->
  run sched s = run (repeat G_main (main_steps sched)) s.
Proof.
  induction sched as [|g sched IH]; intros s Ha Hp; [reflexivity|].
  destruct g; simpl.
  - destruct (main_step_no_spawn s Ha Hp) as [Ha' Hp']. now apply IH.
  - rewrite (idle_anim_step s Ha). now apply IH.
Qed.

Lemma repeat_split (n k : nat) :
  k <= n -> repeat G_main n = repeat G_main k ++ repeat G_main (n - k).
Proof.
  intros H. replace n with (k + (n - k)) at 1 by lia. apply repeat_app.
Qed.

Lemma run_finished sched s :
  pending s = [] -> anim s = ANone -> run sched s = s.
Proof.
  intros Hp Ha. induction sched as [|g sched IH]; [reflexivity|]. simpl.
  replace (step g s) with s; [exact IH|].
  destruct g; [|now rewrite idle_anim_step].
  break_state s. subst. unfold step. simpl. destruct st; reflexivity.
Qed.

(** * The claims *)

Section ConsumerClaims.

Variable json_Unmarshal : string -> option StreamResponse.
Variable config : Config.

Lemma scanLoop_data_chunk p r c cs rest fullContent firstContent :
  p <> "[DONE]" -> json_Unmarshal p = Some r -> Choices r = c :: cs ->
  scanLoop json_Unmarshal (data p :: rest) fullContent firstContent =
    if negb (Content (Delta c) =? "")%string then
      let '(tr, e) :=
        scanLoop json_Unmarshal rest (fullContent ++ Content (Delta c))%string false in
      ((if firstContent then [ISend stopChan; IRecv doneChan] else [])
         ++ IPrint (Content (Delta c)) :: tr, e)
    else scanLoop json_Unmarshal rest fullContent firstContent.
Proof.
  intros Hp Hj Hc. simpl. rewrite TrimPrefix_data.
  apply String.eqb_neq in Hp. now rewrite Hp, Hj, Hc.
Qed.

Lemma scanLoop_data_unparsable p rest fullContent firstContent :
  p <> "[DONE]" -> json_Unmarshal p = None ->
  scanLoop json_Unmarshal (data p :: rest) fullContent firstContent =
  scanLoop json_Unmarshal rest fullContent firstContent.
Proof.
  intros Hp Hj. simpl. rewrite TrimPrefix_data.
  apply String.eqb_neq in Hp. now rewrite Hp, Hj.
Qed.

Lemma scanLoop_skips pre : forall rest fullContent firstContent,
  Forall (fun l => l = "" \/ HasPrefix l ": " = true) pre ->
  scanLoop json_Unmarshal (pre ++ rest) fullContent firstContent =
  scanLoop json_Unmarshal rest fullContent firstContent.
Proof.
  induction pre as [|l pre IH]; intros rest full first H; [reflexivity|].
  inversion H as [|? ? Hl Hpre]; subst. simpl.
  replace ((l =? "")%string || HasPrefix l ": ") with true; [now apply IH|].
  destruct Hl as [-> | ->]; [reflexivity | now rewrite orb_true_r].
Qed.

Lemma not_data_inert line :
  HasPrefix line "data: " = false ->
  is_terminator line = false /\ lacks_choice json_Unmarshal line = false.
Proof. intros H. unfold is_terminator, lacks_choice. now rewrite H. Qed.

(** How the deltas of the specification unfold along the frames. *)
Lemma deltas_step line rest :
  deltas json_Unmarshal (line :: rest) =
    if is_terminator line || lacks_choice json_Unmarshal line then []
    else
      (if HasPrefix line "data: " then
         match json_Unmarshal (TrimPrefix line "data: ") with
         | Some r => if non_empty (delta_of r) then [delta_of r] else []
         | None => []
         end
       else [])
      ++ deltas json_Unmarshal rest.
Proof.
  unfold deltas. cbn [before_stop].
  destruct (is_terminator line || lacks_choice json_Unmarshal line); [reflexivity|].
  unfold data_payloads. cbn [filter].
  destruct (HasPrefix line "data: "); [|reflexivity].
  cbn [map parseable flat_map].
  destruct (json_Unmarshal (TrimPrefix line "data: ")) as [r|]; [|reflexivity].
  cbn [app map filter]. destruct (non_empty (delta_of r)); reflexivity.
Qed.

Lemma panics_step line rest :
  panics json_Unmarshal (line :: rest) =
    if is_terminator line then false
    else lacks_choice json_Unmarshal line || panics json_Unmarshal rest.
Proof.
  unfold panics. cbn [before_terminator].
  destruct (is_terminator line); reflexivity.
Qed.

(** The loop of lines 142-172 against the specification: what it emits is
    the rendezvous, if there is a delta, and then the deltas; it panics when
    a chunk without a choice comes first, and else ends with the deltas
    appended to what it had. *)
Lemma scanLoop_effects lines : forall fullContent firstContent,
  fst (scanLoop json_Unmarshal lines fullContent firstContent)
  = sync_prefix firstContent (deltas json_Unmarshal lines)
      ++ map IPrint (deltas json_Unmarshal lines) /\
  match snd (scanLoop json_Unmarshal lines fullContent firstContent) with
  | Panicked => panics json_Unmarshal lines = true
  | Exhausted f | Broke f =>
      panics json_Unmarshal lines = false /\
      f = (fullContent ++ String.concat "" (deltas json_Unmarshal lines))%string
  end.
Proof.
  induction lines as [|line rest IH]; intros full first.
  - simpl. rewrite append_nil_r. auto.
  - rewrite deltas_step, panics_step. cbn [scanLoop].
    destruct ((line =? "")%string || HasPrefix line ": ") eqn:Eskip.
    { assert (Ed : HasPrefix line "data: " = false).
      { apply orb_true_iff in Eskip.
        destruct Eskip; [now apply blank_not_data | now apply comment_not_data]. }
      destruct (not_data_inert line Ed) as [-> ->]. rewrite Ed. apply IH. }
    destruct (HasPrefix line "data: ") eqn:Ed.
    2:{ destruct (not_data_inert line Ed) as [-> ->]. apply IH. }
    unfold is_terminator, lacks_choice. rewrite Ed. cbn [andb].
    destruct (TrimPrefix line "data: " =? "[DONE]")%string eqn:Edone.
    { simpl. rewrite append_nil_r. auto. }
    destruct (json_Unmarshal (TrimPrefix line "data: ")) as [r|] eqn:Ejson;
      [|cbn [orb app]; apply IH].
    unfold delta_of, non_empty.
    destruct (Choices r) as [|choice0 others] eqn:Ech.
    { simpl. auto. }
    cbn [orb].
    destruct (negb (Content (Delta choice0) =? "")%string) eqn:Ene.
    + destruct (IH (full ++ Content (Delta choice0))%string false) as [Htr He].
      destruct (scanLoop json_Unmarshal rest (full ++ Content (Delta choice0))%string false)
        as [tr e].
      cbn [fst snd] in *. split.
      * rewrite Htr. cbn [app sync_prefix map].
        replace (sync_prefix false (deltas json_Unmarshal rest)) with (@nil instr)
          by (destruct (deltas json_Unmarshal rest); reflexivity).
        destruct first; reflexivity.
      * cbn [app]. rewrite concat_cons, <- append_assoc.
        destruct e as [f|f|]; exact He.
    + cbn [app]. apply IH.
Qed.

(** [sendStreamRequest] on a response with status 200, against the
    specification. *)
Lemma send_responded messages body scanErr :
  sendStreamRequest json_Unmarshal config messages (Responded StatusOK body scanErr)
  = (IRequest (baseURL config) ("Bearer " ++ APIKey config)%string
       (requestBody config messages)
       :: sync_prefix true (deltas json_Unmarshal body)
       ++ map IPrint (deltas json_Unmarshal body),
     if panics json_Unmarshal body then Panic
     else match scanErr with
          | Some err => Err ("读取流式响应失败：" ++ err)%string
          | None =>
              if (String.concat "" (deltas json_Unmarshal body) =? "")%string
              then Err "未获取到有效回答"
              else Ok (String.concat "" (deltas json_Unmarshal body))
          end).
Proof.
  cbn [sendStreamRequest]. change (negb (StatusOK =? StatusOK)%Z) with false. cbv iota.
  destruct (scanLoop_effects body "" true) as [Htr He].
  destruct (scanLoop json_Unmarshal body "" true) as [tr e]. cbn [fst snd] in *.
  subst tr. destruct e as [f|f|].
  - destruct He as [-> ->]. cbn [append]. destruct scanErr; [reflexivity|].
    destruct (String.concat "" (deltas json_Unmarshal body) =? "")%string; reflexivity.
  - destruct He as [-> ->]. cbn [append]. destruct scanErr; [reflexivity|].
    destruct (String.concat "" (deltas json_Unmarshal body) =? "")%string; reflexivity.
  - rewrite He. reflexivity.
Qed.

(** Without a chunk that lacks a choice the consumer gets through every
    frame before the terminator. *)
Lemma before_stop_no_panic lines :
  panics json_Unmarshal lines = false ->
  before_stop json_Unmarshal lines = before_terminator lines.
Proof.
  induction lines as [|line rest IH]; [reflexivity|].
  rewrite panics_step. cbn [before_stop before_terminator].
  destruct (is_terminator line); [reflexivity|].
  destruct (lacks_choice json_Unmarshal line); [discriminate|].
  cbn [orb]. intros H. now rewrite IH.
Qed.

Lemma reply_text_deltas lines :
  panics json_Unmarshal lines = false ->
  reply_text json_Unmarshal lines = String.concat "" (deltas json_Unmarshal lines).
Proof.
  intros H. unfold reply_text, deltas. now rewrite before_stop_no_panic.
Qed.

(** Chunks that all have a choice: no panic. *)
Lemma all_choices_no_panic lines :
  Forall (fun r => Choices r <> [])
    (parseable json_Unmarshal (data_payloads (before_terminator lines))) ->
  panics json_Unmarshal lines = false.
Proof.
  unfold panics. induction (before_terminator lines) as [|line rest IH]; [reflexivity|].
  unfold data_payloads. cbn [filter existsb]. unfold lacks_choice at 1.
  destruct (HasPrefix line "data: "); [|exact IH].
  cbn [map parseable flat_map andb].
  destruct (json_Unmarshal (TrimPrefix line "data: ")) as [r|]; [|exact IH].
  cbn [app]. intros H. inversion H as [|? ? Hr Hrest]; subst.
  destruct (Choices r); [congruence|]. now apply IH.
Qed.

(** A frame the loop passes over changes nothing, wherever it stands. *)
Lemma scanLoop_passes_over line pre post :
  (forall rest fullContent firstContent,
      scanLoop json_Unmarshal (line :: rest) fullContent firstContent
      = scanLoop json_Unmarshal rest fullContent firstContent) ->
  forall fullContent firstContent,
    scanLoop json_Unmarshal (pre ++ line :: post) fullContent firstContent
    = scanLoop json_Unmarshal (pre ++ post) fullContent firstContent.
Proof.
  intros Hline. induction pre as [|l pre IH]; intros full first; [apply Hline|].
  cbn [app scanLoop].
  destruct ((l =? "")%string || HasPrefix l ": "); [apply IH|].
  destruct (HasPrefix l "data: "); [|apply IH].
  destruct (TrimPrefix l "data: " =? "[DONE]")%string; [reflexivity|].
  destruct (json_Unmarshal (TrimPrefix l "data: ")) as [r|]; [|apply IH].
  destruct (Choices r) as [|choice0 others]; [reflexivity|].
  destruct (negb (Content (Delta choice0) =? "")%string); [|apply IH].
  now rewrite IH.
Qed.

Lemma send_passes_over line pre post messages scanErr :
  (forall rest fullContent firstContent,
      scanLoop json_Unmarshal (line :: rest) fullContent firstContent
      = scanLoop json_Unmarshal rest fullContent firstContent) ->
  sendStreamRequest json_Unmarshal config messages
    (Responded StatusOK (pre ++ line :: post) scanErr)
  = sendStreamRequest json_Unmarshal config messages
      (Responded StatusOK (pre ++ post) scanErr).
Proof.
  intros Hline. cbn [sendStreamRequest].
  now rewrite (scanLoop_passes_over line pre post Hline).
Qed.

End ConsumerClaims.

(** C1 (the code breaks it): a data frame whose payload parses to a chunk
    with an empty choice list is not treated as "no delta".  The read of
    [streamResp.Choices[0]] at line 160 panics: [sendStreamRequest] does not
    return, and [executor] never returns from that turn, whatever the
    schedule. *)
Theorem C1_empty_choice_list_panics
    (json_Unmarshal : string -> option StreamResponse) (config : Config)
    (messages h : list Message) (input : string)
    (pre post : list string) (p : string) (r : StreamResponse)
    (scanErr : option string) (sched : list goroutine) :
  Forall (fun l => is_terminator l = false) pre ->
  p <> "[DONE]" ->
  json_Unmarshal p = Some r ->
  Choices r = [] ->
  is_turn input = true ->
  snd (sendStreamRequest json_Unmarshal config messages
         (Responded StatusOK (pre ++ data p :: post) scanErr)) = Panic /\
  ~ returned (run sched (start h (executor json_Unmarshal config input
                 (Responded StatusOK (pre ++ data p :: post) scanErr)))).
Proof.
  intros Hpre Hp Hj Hc Hturn.
  assert (Hpanic : forall m,
            snd (sendStreamRequest json_Unmarshal config m
                   (Responded StatusOK (pre ++ data p :: post) scanErr)) = Panic).
  { intros m. simpl.
    pose proof (scanLoop_empty_choices json_Unmarshal pre p r post "" true Hpre Hp Hj Hc)
      as Hloop.
    destruct (scanLoop json_Unmarshal (pre ++ data p :: post) "" true) as [tr e].
    simpl in Hloop. subst e. reflexivity. }
  split; [apply Hpanic|].
  specialize (Hpanic (h ++ [user (TrimSpace input)])).
  destruct (sendStreamRequest json_Unmarshal config (h ++ [user (TrimSpace input)])
              (Responded StatusOK (pre ++ data p :: post) scanErr)) as [tr res] eqn:Hsend.
  simpl in Hpanic. subst res.
  destruct (panicking_turn_doomed json_Unmarshal config h input _ Hturn tr sched Hsend)
    as [Hb|Hd].
  - eapply before_call_not_returned; eassumption.
  - now apply doomed_not_returned.
Qed.

Lemma C1_empty_choice_list_panics_witness :
  Forall (fun l => is_terminator l = false) [data (json_chunk "A")] /\
  json_no_choice <> "[DONE]" /\
  sample_Unmarshal json_no_choice = Some no_choice /\
  Choices no_choice = [] /\
  is_turn "hello" = true /\
  snd (sendStreamRequest sample_Unmarshal sample_config []
         (Responded StatusOK ([data (json_chunk "A")] ++ data json_no_choice :: []) None))
    = Panic /\
  ~ returned (run (round_robin 12)
                (start [] (executor sample_Unmarshal sample_config "hello"
                   (Responded StatusOK
                      ([data (json_chunk "A")] ++ data json_no_choice :: []) None)))).
Proof.
  assert (H1 : Forall (fun l => is_terminator l = false) [data (json_chunk "A")])
    by (repeat constructor).
  assert (H2 : json_no_choice <> "[DONE]") by discriminate.
  repeat split; try assumption; try reflexivity;
    apply (C1_empty_choice_list_panics sample_Unmarshal sample_config [] [] "hello"
             [data (json_chunk "A")] [] json_no_choice no_choice None (round_robin 12)
             H1 H2 eq_refl eq_refl eq_refl).
Defined.

(** The run of the sample turn of C1: the process crashes with the user
    message still in the transcript. *)
Example empty_choice_list_crashes :
  let s := run (round_robin 12)
             (start [] (executor sample_Unmarshal sample_config "hello" x_no_choice)) in
  status s = Crashed /\ conversationHistory s = [user "hello"].
Proof. vm_compute. split; reflexivity. Qed.

(** C4: when the frames of a response that is read without error yield no
    reply text (every parsed chunk has a choice, the case without is C1's),
    [sendStreamRequest] returns the "empty answer" error, whether the loop
    ends at the terminator or with the body.  Whatever the scanner reports,
    such a response never gives success; an error of the scanner is reported
    first, as the read error (lines 174-176 come before lines 178-180).  In
    particular blank lines and comment frames followed by the terminator give
    the "empty answer" error, whatever comes after the terminator. *)
Theorem C4_empty_answer
    (json_Unmarshal : string -> option StreamResponse) (config : Config)
    (messages : list Message) (body : list string) :
  Forall (fun r => Choices r <> [])
    (parseable json_Unmarshal (data_payloads (before_terminator body))) ->
  reply_text json_Unmarshal body = "" ->
  snd (sendStreamRequest json_Unmarshal config messages (Responded StatusOK body None))
    = Err "未获取到有效回答" /\
  (forall scanErr c,
      snd (sendStreamRequest json_Unmarshal config messages
             (Responded StatusOK body scanErr)) <> Ok c) /\
  (forall err,
      snd (sendStreamRequest json_Unmarshal config messages
             (Responded StatusOK body (Some err)))
      = Err ("读取流式响应失败：" ++ err)%string) /\
  forall pre post,
    Forall (fun l => l = "" \/ HasPrefix l ": " = true) pre ->
    sendStreamRequest json_Unmarshal config messages
      (Responded StatusOK (pre ++ data "[DONE]" :: post) None)
    = ([IRequest (baseURL config) ("Bearer " ++ APIKey config)%string
          (requestBody config messages)],
       Err "未获取到有效回答").
Proof.
  intros Hall Hreply.
  pose proof (all_choices_no_panic json_Unmarshal body Hall) as Hnp.
  rewrite (reply_text_deltas json_Unmarshal body Hnp) in Hreply.
  assert (Hsend : forall scanErr,
            snd (sendStreamRequest json_Unmarshal config messages
                   (Responded StatusOK body scanErr))
            = match scanErr with
              | Some err => Err ("读取流式响应失败：" ++ err)%string
              | None => Err "未获取到有效回答"
              end).
  { intros scanErr. rewrite send_responded, Hnp, Hreply. destruct scanErr; reflexivity. }
  split; [exact (Hsend None)|]. split; [|split].
  - intros scanErr c. rewrite Hsend. destruct scanErr; discriminate.
  - intros err. exact (Hsend (Some err)).
  - intros pre post Hpre. cbn [sendStreamRequest].
    rewrite (scanLoop_skips json_Unmarshal pre _ "" true Hpre). reflexivity.
Qed.

Lemma C4_empty_answer_witness :
  Forall (fun r => Choices r <> [])
    (parseable sample_Unmarshal
       (data_payloads (before_terminator [""; ": keep-alive"; data (json_chunk "")]))) /\
  reply_text sample_Unmarshal [""; ": keep-alive"; data (json_chunk "")] = "" /\
  snd (sendStreamRequest sample_Unmarshal sample_config []
         (Responded StatusOK [""; ": keep-alive"; data (json_chunk "")] None))
    = Err "未获取到有效回答" /\
  snd (sendStreamRequest sample_Unmarshal sample_config []
         (Responded StatusOK [""; ": keep-alive"; data (json_chunk "")]
            (Some "unexpected EOF")))
    = Err "读取流式响应失败：unexpected EOF" /\
  snd (sendStreamRequest sample_Unmarshal sample_config [] x_comments)
    = Err "未获取到有效回答".
Proof.
  assert (H1 : Forall (fun r => Choices r <> [])
                 (parseable sample_Unmarshal
                    (data_payloads
                       (before_terminator [""; ": keep-alive"; data (json_chunk "")]))))
    by (repeat constructor; discriminate).
  assert (H3 : Forall (fun l => l = "" \/ HasPrefix l ": " = true)
                 [""; ": keep-alive"; ""])
    by (repeat constructor; auto).
  pose proof (C4_empty_answer sample_Unmarshal sample_config []
                [""; ": keep-alive"; data (json_chunk "")] H1 eq_refl)
    as (Ha & _ & Hb & Hc).
  split; [exact H1|]. split; [reflexivity|]. split; [exact Ha|].
  split; [exact (Hb "unexpected EOF")|].
  exact (f_equal snd (Hc [""; ": keep-alive"; ""] [] H3)).
Defined.

(** C5: the reply text returned on success is the concatenation, in order,
    of the non-empty deltas of the data frames that parse, up to the
    terminator; and a response with status 200 that is read without error,
    in which every parsed chunk has a choice (the case without is C1's) and
    some delta is not empty, does succeed with that text.  A data frame that
    does not parse and a chunk with an empty delta change nothing, wherever
    they stand in the stream: effects and result are those of the stream
    without them.  One frame with delta "Hi" and the terminator give "Hi";
    deltas "A", "", "B" give "AB". *)
Theorem C5_reply_is_concatenation
    (json_Unmarshal : string -> option StreamResponse) (config : Config)
    (messages : list Message) :
  (forall st body scanErr tr content,
      sendStreamRequest json_Unmarshal config messages (Responded st body scanErr)
        = (tr, Ok content) ->
      content = reply_text json_Unmarshal body) /\
  (forall body,
      Forall (fun r => Choices r <> [])
        (parseable json_Unmarshal (data_payloads (before_terminator body))) ->
      reply_text json_Unmarshal body <> "" ->
      snd (sendStreamRequest json_Unmarshal config messages (Responded StatusOK body None))
        = Ok (reply_text json_Unmarshal body)) /\
  (forall pre p post scanErr,
      p <> "[DONE]" -> json_Unmarshal p = None ->
      sendStreamRequest json_Unmarshal config messages
        (Responded StatusOK (pre ++ data p :: post) scanErr)
      = sendStreamRequest json_Unmarshal config messages
          (Responded StatusOK (pre ++ post) scanErr)) /\
  (forall pre p r c cs post scanErr,
      p <> "[DONE]" -> json_Unmarshal p = Some r -> Choices r = c :: cs ->
      Content (Delta c) = "" ->
      sendStreamRequest json_Unmarshal config messages
        (Responded StatusOK (pre ++ data p :: post) scanErr)
      = sendStreamRequest json_Unmarshal config messages
          (Responded StatusOK (pre ++ post) scanErr)) /\
  (forall p r c cs post,
      p <> "[DONE]" -> json_Unmarshal p = Some r -> Choices r = c :: cs ->
      Content (Delta c) = "Hi" ->
      snd (sendStreamRequest json_Unmarshal config messages
             (Responded StatusOK (data p :: data "[DONE]" :: post) None))
        = Ok "Hi") /\
  (forall pa pe pb ra re rb ca ce cb csa cse csb post,
      pa <> "[DONE]" -> pe <> "[DONE]" -> pb <> "[DONE]" ->
      json_Unmarshal pa = Some ra -> Choices ra = ca :: csa -> Content (Delta ca) = "A" ->
      json_Unmarshal pe = Some re -> Choices re = ce :: cse -> Content (Delta ce) = "" ->
      json_Unmarshal pb = Some rb -> Choices rb = cb :: csb -> Content (Delta cb) = "B" ->
      snd (sendStreamRequest json_Unmarshal config messages
             (Responded StatusOK
                (data pa :: data pe :: data pb :: data "[DONE]" :: post) None))
        = Ok "AB").
Proof.
  split; [|split; [|split; [|split; [|split]]]].
  - intros st body scanErr tr content H. simpl in H.
    destruct (negb (st =? StatusOK)%Z); [discriminate|].
    destruct (scanLoop json_Unmarshal body "" true) as [tr' e] eqn:Eloop.
    pose proof (scanLoop_reply json_Unmarshal body "" true tr' e Eloop) as Hf.
    destruct e as [f|f|]; [destruct scanErr|destruct scanErr|]; try discriminate;
      destruct (f =? "")%string; inversion H; subst; reflexivity.
  - intros body Hall Hne.
    pose proof (all_choices_no_panic json_Unmarshal body Hall) as Hnp.
    rewrite (reply_text_deltas json_Unmarshal body Hnp) in *.
    rewrite send_responded, Hnp. cbn [snd].
    destruct (String.concat "" (deltas json_Unmarshal body) =? "")%string eqn:E;
      [|reflexivity].
    apply String.eqb_eq in E. contradiction.
  - intros pre p post scanErr Hp Hj. apply send_passes_over.
    intros rest full first. now apply scanLoop_data_unparsable.
  - intros pre p r c cs post scanErr Hp Hj Hc Hd. apply send_passes_over.
    intros rest full first.
    rewrite (scanLoop_data_chunk json_Unmarshal p r c cs rest full first Hp Hj Hc), Hd.
    reflexivity.
  - intros p r c cs post Hp Hj Hc Hd. cbn [sendStreamRequest].
    rewrite (scanLoop_data_chunk json_Unmarshal p r c cs _ "" true Hp Hj Hc), Hd.
    reflexivity.
  - intros pa pe pb ra re rb ca ce cb csa cse csb post
      Hpa Hpe Hpb Hja Hca Hda Hje Hce Hde Hjb Hcb Hdb.
    cbn [sendStreamRequest].
    rewrite (scanLoop_data_chunk json_Unmarshal pa ra ca csa _ "" true Hpa Hja Hca), Hda.
    cbn [negb String.eqb Ascii.eqb Bool.eqb andb].
    rewrite (scanLoop_data_chunk json_Unmarshal pe re ce cse _ _ false Hpe Hje Hce), Hde.
    cbn [negb String.eqb].
    rewrite (scanLoop_data_chunk json_Unmarshal pb rb cb csb _ _ false Hpb Hjb Hcb), Hdb.
    reflexivity.
Qed.

Lemma C5_reply_is_concatenation_witness :
  snd (sendStreamRequest sample_Unmarshal sample_config [] x_hi) = Ok "Hi" /\
  snd (sendStreamRequest sample_Unmarshal sample_config [] x_a_b) = Ok "AB" /\
  "garbage" <> "[DONE]" /\ sample_Unmarshal "garbage" = None /\
  sendStreamRequest sample_Unmarshal sample_config []
    (Responded StatusOK
       ([data (json_chunk "A")] ++ data "garbage" :: [data (json_chunk "B"); data "[DONE]"])
       None)
  = sendStreamRequest sample_Unmarshal sample_config []
      (Responded StatusOK
         ([data (json_chunk "A")] ++ [data (json_chunk "B"); data "[DONE]"]) None) /\
  Forall (fun r => Choices r <> [])
    (parseable sample_Unmarshal
       (data_payloads
          (before_terminator
             [data (json_chunk "A"); data "garbage"; data (json_chunk "B");
              data "[DONE]"]))) /\
  snd (sendStreamRequest sample_Unmarshal sample_config []
         (Responded StatusOK
            [data (json_chunk "A"); data "garbage"; data (json_chunk "B"); data "[DONE]"]
            None))
  = Ok "AB" /\
  reply_text sample_Unmarshal
    [data (json_chunk "A"); data (json_chunk ""); data (json_chunk "B"); data "[DONE]"]
    = "AB".
Proof.
  pose proof (C5_reply_is_concatenation sample_Unmarshal sample_config [])
    as (Hgen & Hok & Hskip & _ & Hhi & Hab).
  assert (Hg : "garbage" <> "[DONE]") by discriminate.
  assert (Hh : json_chunk "Hi" <> "[DONE]") by discriminate.
  assert (Ha : json_chunk "A" <> "[DONE]") by discriminate.
  assert (He : json_chunk "" <> "[DONE]") by discriminate.
  assert (Hb : json_chunk "B" <> "[DONE]") by discriminate.
  assert (Hall : Forall (fun r => Choices r <> [])
                   (parseable sample_Unmarshal
                      (data_payloads
                         (before_terminator
                            [data (json_chunk "A"); data "garbage"; data (json_chunk "B");
                             data "[DONE]"]))))
    by (repeat constructor; discriminate).
  split; [exact (Hhi (json_chunk "Hi") (chunk_of "Hi") (choice_of "Hi") [] []
                   Hh eq_refl eq_refl eq_refl)|].
  split; [exact (Hab (json_chunk "A") (json_chunk "") (json_chunk "B")
                   (chunk_of "A") (chunk_of "") (chunk_of "B")
                   (choice_of "A") (choice_of "") (choice_of "B") [] [] [] []
                   Ha He Hb eq_refl eq_refl eq_refl eq_refl eq_refl eq_refl
                   eq_refl eq_refl eq_refl)|].
  split; [exact Hg|]. split; [reflexivity|].
  split; [exact (Hskip [data (json_chunk "A")] "garbage"
                   [data (json_chunk "B"); data "[DONE]"] None Hg eq_refl)|].
  split; [exact Hall|].
  split; [exact (Hok _ Hall ltac:(discriminate))|].
  symmetry.
  exact (Hgen 200%Z
           [data (json_chunk "A"); data (json_chunk ""); data (json_chunk "B"); data "[DONE]"]
           None _ "AB" eq_refl).
Defined.

(** C7: on a status other than 200 [sendStreamRequest] returns at once the
    error that carries the status code; it has sent the one request and done
    nothing else, whatever the body holds; and in the turn no assistant
    entry is ever appended: the transcript is the one before the turn, with
    or without the user message of the turn. *)
Theorem C7_non_success_status
    (json_Unmarshal : string -> option StreamResponse) (config : Config)
    (messages h : list Message) (input : string)
    (StatusCode : Z) (body : list string) (scanErr : option string)
    (sched : list goroutine) :
  StatusCode <> StatusOK ->
  is_turn input = true ->
  sendStreamRequest json_Unmarshal config messages (Responded StatusCode body scanErr)
    = ([IRequest (baseURL config) ("Bearer " ++ APIKey config)%string
          (requestBody config messages)],
       Err ("请求失败，状态码：" ++ fmt_d StatusCode)%string) /\
  (conversationHistory
     (run sched (start h (executor json_Unmarshal config input
                            (Responded StatusCode body scanErr)))) = h \/
   conversationHistory
     (run sched (start h (executor json_Unmarshal config input
                            (Responded StatusCode body scanErr))))
     = h ++ [user (TrimSpace input)]).
Proof.
  intros Hst Hturn.
  assert (Hsend : forall m,
            sendStreamRequest json_Unmarshal config m (Responded StatusCode body scanErr)
            = ([IRequest (baseURL config) ("Bearer " ++ APIKey config)%string
                  (requestBody config m)],
               Err ("请求失败，状态码：" ++ fmt_d StatusCode)%string)).
  { intros m. cbn [sendStreamRequest]. apply Z.eqb_neq in Hst. now rewrite Hst. }
  split; [apply Hsend|].
  destruct (failed_turn_waits json_Unmarshal config h input _ Hturn _ _ sched
              (Hsend _) eq_refl) as [Hb|Hw].
  - destruct Hb; simpl; auto.
  - right. apply Hw.
Qed.

Lemma C7_non_success_status_witness :
  500%Z <> StatusOK /\ is_turn "hello" = true /\
  sendStreamRequest sample_Unmarshal sample_config [user "hello"]
    (Responded 500 [data (json_chunk "Hi")] None)
  = ([IRequest "https://ark.cn-beijing.volces.com/api/v3/chat/completions"
        "Bearer sk-xxxxxx" (requestBody sample_config [user "hello"])],
     Err "请求失败，状态码：500") /\
  (conversationHistory
     (run (round_robin 12)
        (start [] (executor sample_Unmarshal sample_config "hello"
                     (Responded 500 [data (json_chunk "Hi")] None)))) = [] \/
   conversationHistory
     (run (round_robin 12)
        (start [] (executor sample_Unmarshal sample_config "hello"
                     (Responded 500 [data (json_chunk "Hi")] None)))) = [user "hello"]).
Proof.
  assert (H1 : 500%Z <> StatusOK) by discriminate.
  split; [exact H1|]. split; [reflexivity|].
  exact (C7_non_success_status sample_Unmarshal sample_config [user "hello"] [] "hello"
           500 [data (json_chunk "Hi")] None (round_robin 12) H1 eq_refl).
Defined.

(** C10: the error field of a chunk is never read.  Two decoders that agree
    on everything but that field give the same effects and the same result
    for every exchange, and a chunk with an error object and an empty first
    delta leaves the loop where it was. *)
Theorem C10_in_stream_error_ignored
    (json1 json2 : string -> option StreamResponse) (config : Config) :
  (forall p, option_map forget_error (json1 p) = option_map forget_error (json2 p)) ->
  (forall messages x,
      sendStreamRequest json1 config messages x
      = sendStreamRequest json2 config messages x) /\
  (forall p r err c cs rest fullContent firstContent,
      p <> "[DONE]" -> json1 p = Some r -> Error_ r = Some err ->
      Choices r = c :: cs -> Content (Delta c) = "" ->
      scanLoop json1 (data p :: rest) fullContent firstContent
      = scanLoop json1 rest fullContent firstContent).
Proof.
  intros Hagree.
  assert (Hloop : forall lines fullContent firstContent,
            scanLoop json1 lines fullContent firstContent
            = scanLoop json2 lines fullContent firstContent).
  { induction lines as [|line rest IH]; intros full first; simpl; [reflexivity|].
    destruct ((line =? "")%string || HasPrefix line ": "); [apply IH|].
    destruct (HasPrefix line "data: "); [|apply IH].
    destruct (TrimPrefix line "data: " =? "[DONE]")%string; [reflexivity|].
    specialize (Hagree (TrimPrefix line "data: ")).
    destruct (json1 (TrimPrefix line "data: ")) as [r1|],
             (json2 (TrimPrefix line "data: ")) as [r2|];
      simpl in Hagree; try discriminate; [|apply IH].
    assert (Hch : Choices r1 = Choices r2)
      by (change (Choices (forget_error r1) = Choices (forget_error r2)); congruence).
    rewrite Hch. destruct (Choices r2) as [|choice0 others]; [reflexivity|].
    rewrite !IH. reflexivity. }
  split.
  - intros messages x. destruct x; cbn [sendStreamRequest]; try reflexivity.
    now rewrite Hloop.
  - intros p r err c cs rest full first Hp Hj _ Hc Hd.
    rewrite (scanLoop_data_chunk json1 p r c cs rest full first Hp Hj Hc), Hd.
    reflexivity.
Qed.

Lemma C10_in_stream_error_ignored_witness :
  (forall p, option_map forget_error (sample_Unmarshal p)
             = option_map forget_error (option_map forget_error (sample_Unmarshal p))) /\
  sendStreamRequest sample_Unmarshal sample_config []
    (Responded 200 [data json_error_chunk; data (json_chunk "Hi")] None)
  = sendStreamRequest (fun p => option_map forget_error (sample_Unmarshal p))
      sample_config [] (Responded 200 [data json_error_chunk; data (json_chunk "Hi")] None) /\
  scanLoop sample_Unmarshal [data json_error_chunk; data (json_chunk "Hi")] "" true
  = scanLoop sample_Unmarshal [data (json_chunk "Hi")] "" true.
Proof.
  assert (H1 : forall p, option_map forget_error (sample_Unmarshal p)
                 = option_map forget_error (option_map forget_error (sample_Unmarshal p)))
    by (intros p; destruct (sample_Unmarshal p); reflexivity).
  assert (H2 : json_error_chunk <> "[DONE]") by discriminate.
  destruct (C10_in_stream_error_ignored sample_Unmarshal
              (fun p => option_map forget_error (sample_Unmarshal p)) sample_config H1)
    as [Hsame Hskip].
  split; [exact H1|]. split; [apply Hsame|].
  exact (Hskip json_error_chunk error_chunk {| Code := "E"; Message_ := "boom" |}
           (choice_of "") [] [data (json_chunk "Hi")] "" true
           H2 eq_refl eq_refl eq_refl eq_refl).
Defined.

(** C2 (the code breaks it): when [sendStreamRequest] fails before any
    non-empty delta arrived (every transport, timeout, status and
    empty-answer failure is of that kind), nobody has stopped the animation;
    the non-blocking send of line 225 cannot reach a goroutine that only
    polls, and [wg.Wait()] at line 230 never returns.  [executor] never
    returns, line 237 is never run, and from its first move on the
    transcript holds the user message of the turn. *)
Theorem C2_failed_turn_never_rolls_back
    (json_Unmarshal : string -> option StreamResponse) (config : Config)
    (h : list Message) (input : string) (x : Exchange)
    (tr : list instr) (e : error) (sched : list goroutine) :
  is_turn input = true ->
  sendStreamRequest json_Unmarshal config (h ++ [user (TrimSpace input)]) x = (tr, Err e) ->
  has_stop tr = false ->
  ~ returned (run sched (start h (executor json_Unmarshal config input x))) /\
  conversationHistory
    (run (G_main :: sched) (start h (executor json_Unmarshal config input x)))
    = h ++ [user (TrimSpace input)].
Proof.
  intros Hturn Hsend Hstop. split.
  - destruct (failed_turn_waits json_Unmarshal config h input x Hturn tr e sched
                Hsend Hstop) as [Hb|Hw].
    + eapply before_call_not_returned; eassumption.
    + intros [Hp _]. destruct Hw as (_ & _ & _ & _ & q & _ & Hq).
      rewrite Hq in Hp. destruct q; discriminate.
  - eapply failed_turn_keeps_message; eassumption.
Qed.

Lemma C2_failed_turn_never_rolls_back_witness :
  is_turn "hello" = true /\
  sendStreamRequest sample_Unmarshal sample_config ([] ++ [user (TrimSpace "hello")]) x_500
    = ([IRequest "https://ark.cn-beijing.volces.com/api/v3/chat/completions"
          "Bearer sk-xxxxxx" (requestBody sample_config [user "hello"])],
       Err "请求失败，状态码：500") /\
  has_stop [IRequest "https://ark.cn-beijing.volces.com/api/v3/chat/completions"
              "Bearer sk-xxxxxx" (requestBody sample_config [user "hello"])] = false /\
  ~ returned (run (round_robin 40)
                (start [] (executor sample_Unmarshal sample_config "hello" x_500))) /\
  conversationHistory
    (run (G_main :: round_robin 40)
       (start [] (executor sample_Unmarshal sample_config "hello" x_500)))
    = [] ++ [user (TrimSpace "hello")].
Proof.
  split; [reflexivity|]. split; [reflexivity|]. split; [reflexivity|].
  exact (C2_failed_turn_never_rolls_back sample_Unmarshal sample_config [] "hello" x_500
           _ _ (round_robin 40) eq_refl eq_refl eq_refl).
Defined.

(** The failures the claim names all leave the animation unstopped. *)
Lemma named_failures_send_no_stop
    (json_Unmarshal : string -> option StreamResponse) (config : Config)
    (messages : list Message) (x : Exchange) (tr : list instr) (e : error) :
  sendStreamRequest json_Unmarshal config messages x = (tr, Err e) ->
  match x with
  | Responded StatusCode _ _ =>
      StatusCode <> StatusOK \/ e = "未获取到有效回答"
  | _ => True
  end ->
  has_stop tr = false.
Proof.
  intros Hsend Hkind.
  destruct x as [err|err|err isTimeout|st body scanErr]; cbn [sendStreamRequest] in Hsend;
    try (inversion Hsend; reflexivity).
  destruct (negb (st =? StatusOK)%Z) eqn:Est; [inversion Hsend; reflexivity|].
  destruct Hkind as [Hst|He].
  { apply negb_false_iff, Z.eqb_eq in Est. contradiction. }
  destruct (scanLoop json_Unmarshal body "" true) as [tr' res] eqn:Eloop.
  apply scanLoop_trace in Eloop as (ds & Hne & Htr & Hf).
  assert (Hempty : forall f, f = ("" ++ String.concat "" ds)%string ->
                     (f =? "")%string = true -> tr' = []).
  { intros f -> Hz. apply String.eqb_eq in Hz. simpl in Hz.
    rewrite (concat_non_empty ds Hne Hz) in Htr. exact Htr. }
  destruct res as [f|f|]; [| |discriminate];
    (destruct scanErr as [err|];
     [ inversion Hsend; subst; discriminate
     | destruct (f =? "")%string eqn:Ez; inversion Hsend; subst;
       now rewrite (Hempty _ eq_refl Ez) ]).
Qed.

(** C3: in a session of successful turns that starts from a transcript that
    is empty or ends with a (user, assistant) pair, every turn can be taken
    to its end, and whenever the turns have returned the transcript is the
    initial one followed by one (user, assistant) pair per turn: its length
    has grown by two per turn and it is empty or ends with such a pair. *)
Theorem C3_successful_turns
    (json_Unmarshal : string -> option StreamResponse) (config : Config)
    (turns : list (string * Exchange)) (h0 : list Message) :
  Forall (successful json_Unmarshal config) turns ->
  paired_or_empty h0 ->
  (exists h', session json_Unmarshal config turns h0 h') /\
  (forall h', session json_Unmarshal config turns h0 h' ->
     h' = h0 ++ flat_map (turn_pair json_Unmarshal config) turns /\
     length h' = length h0 + 2 * length turns /\
     paired_or_empty h').
Proof.
  intros Hall. revert h0.
  induction Hall as [|[input x] turns [Hturn [c Hok]] _ IH]; intros h0 Hp0.
  - split; [exists h0; constructor|].
    intros h' Hs. inversion Hs; subst. simpl.
    rewrite app_nil_r, Nat.add_0_r. auto.
  - simpl in Hturn, Hok.
    destruct (successful_turn json_Unmarshal config input x c h0 Hturn Hok)
      as [[h1 Hex] Huniq].
    assert (Hp1 : forall h1', turn_returns json_Unmarshal config input x h0 h1' ->
                    paired_or_empty h1').
    { intros h1' Hr. right. rewrite (Huniq h1' Hr).
      exists h0, (user (TrimSpace input)), (assistant c). auto. }
    split.
    + destruct (IH h1 (Hp1 h1 Hex)) as [[h2 Hs] _].
      exists h2. econstructor; eassumption.
    + intros h' Hs. inversion Hs as [|? ? ? ? h1' ? Hr Hrest]; subst.
      destruct (IH h1' (Hp1 h1' Hr)) as [_ Hafter].
      destruct (Hafter h' Hrest) as (Heq & Hlen & Hp).
      rewrite (Huniq h1' Hr) in Heq, Hlen.
      split; [|split; [|exact Hp]].
      * rewrite Heq. simpl. unfold turn_pair at 2. simpl. rewrite Hok.
        now rewrite <- app_assoc.
      * rewrite Hlen, length_app. simpl. lia.
Qed.

Lemma C3_successful_turns_witness :
  Forall (successful sample_Unmarshal sample_config) [("hello", x_hi); (" again ", x_a_b)] /\
  paired_or_empty [] /\
  (exists h', session sample_Unmarshal sample_config
                [("hello", x_hi); (" again ", x_a_b)] [] h') /\
  (forall h', session sample_Unmarshal sample_config
                [("hello", x_hi); (" again ", x_a_b)] [] h' ->
     h' = [user "hello"; assistant "Hi"; user "again"; assistant "AB"] /\
     length h' = 4 /\
     paired_or_empty h').
Proof.
  assert (H1 : Forall (successful sample_Unmarshal sample_config)
                 [("hello", x_hi); (" again ", x_a_b)]).
  { repeat constructor; simpl; eexists; reflexivity. }
  assert (H2 : paired_or_empty []) by (left; reflexivity).
  split; [exact H1|]. split; [exact H2|].
  exact (C3_successful_turns sample_Unmarshal sample_config
           [("hello", x_hi); (" again ", x_a_b)] [] H1 H2).
Defined.

(** What [sendStreamRequest] does, for every exchange: the request, if it
    gets that far, then the rendezvous if the stream shows a delta, then the
    deltas. *)
Lemma send_trace
    (json_Unmarshal : string -> option StreamResponse) (config : Config)
    (messages : list Message) (x : Exchange) :
  fst (sendStreamRequest json_Unmarshal config messages x)
  = request_part config messages x
      ++ sync_prefix true (shown json_Unmarshal x)
      ++ map IPrint (shown json_Unmarshal x).
Proof.
  destruct x as [err|err|err isTimeout|st body scanErr]; try reflexivity.
  unfold shown. destruct (st =? 200)%Z eqn:Est.
  - apply Z.eqb_eq in Est. subst st.
    change 200%Z with StatusOK. now rewrite send_responded.
  - cbn [sendStreamRequest]. change StatusOK with 200%Z. rewrite Est. reflexivity.
Qed.

Lemma shown_non_empty
    (json_Unmarshal : string -> option StreamResponse) (x : Exchange) :
  Forall (fun d => d <> "") (shown json_Unmarshal x).
Proof.
  destruct x as [err|err|err isTimeout|st body scanErr]; try constructor.
  unfold shown. destruct (st =? 200)%Z; [|constructor].
  apply Forall_forall. intros d Hd. unfold deltas in Hd.
  apply filter_In in Hd as [_ Hd]. unfold non_empty in Hd.
  intros ->. discriminate.
Qed.

Lemma stops_sent_app (a b : list instr) : stops_sent (a ++ b) = stops_sent a + stops_sent b.
Proof. unfold stops_sent. now rewrite filter_app, length_app. Qed.

Lemma stops_sent_prints (ds : list string) : stops_sent (map IPrint ds) = 0.
Proof. induction ds as [|d ds IH]; [reflexivity | exact IH]. Qed.

(** C6: inside [sendStreamRequest] the stop is sent at most once, at the
    first non-empty delta and before any reply text.  For every exchange the
    effects of the call are exactly: the request; then, if and only if the
    stream shows a non-empty delta, the rendezvous (the stop sent, the
    acknowledgement received), once; then the non-empty deltas of the stream
    printed in order, and nothing else.  When the stop has been sent and the
    main goroutine reaches the select of line 224, the animation is past its
    acknowledgement, the select takes its default branch and changes
    nothing, and the turn runs to its end within seven more moves. *)
Theorem C6_stop_sent_once
    (json_Unmarshal : string -> option StreamResponse) (config : Config)
    (h : list Message) (input : string) (x : Exchange)
    (tr : list instr) (r : Result) (sched : list goroutine) :
  is_turn input = true ->
  sendStreamRequest json_Unmarshal config (h ++ [user (TrimSpace input)]) x = (tr, r) ->
  (tr = request_part config (h ++ [user (TrimSpace input)]) x
          ++ sync_prefix true (shown json_Unmarshal x)
          ++ map IPrint (shown json_Unmarshal x) /\
   Forall (fun d => d <> "") (shown json_Unmarshal x) /\
   stops_sent tr = match shown json_Unmarshal x with
                   | [] => 0
                   | _ :: _ => 1
                   end) /\
  (has_stop tr = true -> r <> Panic ->
   pending (run sched (start h (executor json_Unmarshal config input x)))
     = ensure_stopped ++ reconcile r ->
   gone (anim (run sched (start h (executor json_Unmarshal config input x))))
        (wg (run sched (start h (executor json_Unmarshal config input x)))) /\
   step G_main (run sched (start h (executor json_Unmarshal config input x)))
     = set_pending ([IWait; IClose stopChan; IClose doneChan] ++ reconcile r)
         (run sched (start h (executor json_Unmarshal config input x))) /\
   returned
     (run [G_anim; G_main; G_main; G_main; G_main; G_main; G_main]
        (run sched (start h (executor json_Unmarshal config input x))))).
Proof.
  intros Hturn Hsend. split.
  - assert (Htr : tr = request_part config (h ++ [user (TrimSpace input)]) x
                         ++ sync_prefix true (shown json_Unmarshal x)
                         ++ map IPrint (shown json_Unmarshal x)).
    { rewrite <- send_trace, Hsend. reflexivity. }
    split; [exact Htr|]. split; [apply shown_non_empty|].
    rewrite Htr, !stops_sent_app, stops_sent_prints.
    replace (stops_sent (request_part config (h ++ [user (TrimSpace input)]) x)) with 0
      by (destruct x; reflexivity).
    destruct (shown json_Unmarshal x); reflexivity.
  - intros Hstop Hr Hpend.
    destruct (shape_with_stop json_Unmarshal config h input x tr r Hsend Hstop)
      as (rq & ds & Hrq & Htr).
    destruct (stopped_turn_synced json_Unmarshal config h input x Hturn tr r rq ds sched
                Hsend Hr Hrq Htr) as [Hb|Hs].
    { destruct Hb; discriminate. }
    destruct (synced_at_select h (user (TrimSpace input)) (map IPrint ds) (reconcile r)
                _ Hs Hpend) as (Hg & Hh & Hst).
    set (s := run sched (start h (executor json_Unmarshal config input x))) in *.
    destruct s as [hist prog a n lg st]. simpl in *. subst.
    split; [exact Hg|]. split; [reflexivity|].
    apply (finish_from_select h (user (TrimSpace input)) r a n lg Hg).
Qed.

Lemma C6_stop_sent_once_witness :
  is_turn "hello" = true /\
  has_stop (fst (sendStreamRequest sample_Unmarshal sample_config
                   ([] ++ [user (TrimSpace "hello")]) x_a_b)) = true /\
  pending (run (round_robin 9)
             (start [] (executor sample_Unmarshal sample_config "hello" x_a_b)))
    = ensure_stopped ++ reconcile (Ok "AB") /\
  shown sample_Unmarshal x_a_b = ["A"; "B"] /\
  fst (sendStreamRequest sample_Unmarshal sample_config [user "hello"] x_a_b)
    = [IRequest "https://ark.cn-beijing.volces.com/api/v3/chat/completions"
         "Bearer sk-xxxxxx" (requestBody sample_config [user "hello"]);
       ISend stopChan; IRecv doneChan; IPrint "A"; IPrint "B"] /\
  stops_sent (fst (sendStreamRequest sample_Unmarshal sample_config [user "hello"] x_a_b))
    = 1 /\
  returned
    (run [G_anim; G_main; G_main; G_main; G_main; G_main; G_main]
       (run (round_robin 9)
          (start [] (executor sample_Unmarshal sample_config "hello" x_a_b)))).
Proof.
  assert (Hr : Ok "AB" <> Panic) by discriminate.
  destruct (C6_stop_sent_once sample_Unmarshal sample_config [] "hello" x_a_b
              _ (Ok "AB") (round_robin 9) eq_refl eq_refl) as [(Htr & _ & Hone) Hsel].
  destruct (Hsel eq_refl Hr eq_refl) as (_ & _ & Hret).
  split; [reflexivity|]. split; [reflexivity|]. split; [reflexivity|].
  split; [reflexivity|]. split; [exact Htr|]. split; [exact Hone|]. exact Hret.
Defined.

Section Commands.

Variable json_Unmarshal : string -> option StreamResponse.
Variable config : Config.

#[local] Abbreviation exec := (executor json_Unmarshal config).

Lemma executor_trimmed i1 i2 x : TrimSpace i1 = TrimSpace i2 -> exec i1 x = exec i2 x.
Proof. intros H. unfold executor. now rewrite H. Qed.

Lemma exit_run input x h sched :
  TrimSpace input = "q" \/ TrimSpace input = "quit" ->
  2 <= main_steps sched ->
  status (run sched (start h (exec input x))) = Exited 0.
Proof.
  intros Ht Hn.
  assert (E : exec input x = [IPrint (LF ++ "豆包：感谢使用，再见！" ++ LF)%string; IExit 0])
    by (unfold executor; destruct Ht as [-> | ->]; reflexivity).
  rewrite E, run_main_only by reflexivity.
  rewrite (repeat_split _ 2 Hn), run_app. now rewrite run_stuck.
Qed.

Lemma clear_run input x h sched :
  TrimSpace input = "clear" ->
  1 <= main_steps sched ->
  conversationHistory (run sched (start h (exec input x))) = [] /\
  status (run sched (start h (exec input x))) = Running /\
  anim (run sched (start h (exec input x))) = ANone.
Proof.
  intros Ht Hn.
  assert (E : exec input x = [IClear; IPrint ("豆包：已清空所有对话上下文！" ++ LF)%string])
    by (unfold executor; rewrite Ht; reflexivity).
  rewrite E, run_main_only by reflexivity.
  rewrite (repeat_split _ 1 Hn), run_app.
  destruct (main_steps sched - 1) as [|m]; [repeat split|].
  change (repeat G_main (S m)) with ([G_main] ++ repeat G_main m).
  rewrite run_app, run_finished by reflexivity. repeat split.
Qed.

Lemma empty_run input x h sched :
  TrimSpace input = "" ->
  conversationHistory (run sched (start h (exec input x))) = h /\
  status (run sched (start h (exec input x))) = Running /\
  anim (run sched (start h (exec input x))) = ANone /\
  existsb is_request (log (run sched (start h (exec input x)))) = false.
Proof.
  intros Ht.
  assert (E : exec input x = [IPrint ("豆包：问题不能为空，请重新输入！" ++ LF)%string])
    by (unfold executor; rewrite Ht; reflexivity).
  rewrite E, run_main_only by reflexivity.
  destruct (main_steps sched) as [|m]; [repeat split|].
  change (repeat G_main (S m)) with ([G_main] ++ repeat G_main m).
  rewrite run_app, run_finished by reflexivity. repeat split.
Qed.

Lemma turn_starts input x h :
  is_turn input = true ->
  conversationHistory (run [G_main; G_main; G_main] (start h (exec input x)))
    = h ++ [user (TrimSpace input)] /\
  anim (run [G_main; G_main; G_main] (start h (exec input x))) = AStart /\
  pending (run [G_main; G_main; G_main] (start h (exec input x)))
    = [ICall (request_and_reconcile json_Unmarshal config x)].
Proof.
  intros Hturn. rewrite (executor_turn _ _ _ _ Hturn). repeat split.
Qed.

Lemma is_turn_iff input :
  is_turn input = true <->
  TrimSpace input <> "q" /\ TrimSpace input <> "quit" /\
  TrimSpace input <> "clear" /\ TrimSpace input <> "".
Proof.
  unfold is_turn. rewrite negb_true_iff, !orb_false_iff, !String.eqb_neq. tauto.
Qed.

End Commands.

(** C8, as the code has it: the dispatch is on the trimmed input.  Trimmed
    to "q" or "quit" the process exits with code 0; trimmed to "clear" the
    transcript becomes empty, whatever it held, and the process goes on;
    trimmed to nothing the transcript is unchanged, no animation starts and
    no request is sent; any other input starts a turn: the user message with
    the trimmed text is appended and the animation is spawned before the
    request is made. *)
Theorem C8_dispatch_on_trimmed_input
    (json_Unmarshal : string -> option StreamResponse) (config : Config)
    (input : string) (x : Exchange) (h : list Message) (sched : list goroutine) :
  (TrimSpace input = "q" \/ TrimSpace input = "quit" ->
   2 <= main_steps sched ->
   status (run sched (start h (executor json_Unmarshal config input x))) = Exited 0) /\
  (TrimSpace input = "clear" ->
   1 <= main_steps sched ->
   conversationHistory (run sched (start h (executor json_Unmarshal config input x))) = [] /\
   status (run sched (start h (executor json_Unmarshal config input x))) = Running /\
   anim (run sched (start h (executor json_Unmarshal config input x))) = ANone) /\
  (TrimSpace input = "" ->
   conversationHistory (run sched (start h (executor json_Unmarshal config input x))) = h /\
   status (run sched (start h (executor json_Unmarshal config input x))) = Running /\
   anim (run sched (start h (executor json_Unmarshal config input x))) = ANone /\
   existsb is_request
     (log (run sched (start h (executor json_Unmarshal config input x)))) = false) /\
  (TrimSpace input <> "q" -> TrimSpace input <> "quit" ->
   TrimSpace input <> "clear" -> TrimSpace input <> "" ->
   executor json_Unmarshal config input x
     = [IAppend (user (TrimSpace input)); IWgAdd; IGo;
        ICall (request_and_reconcile json_Unmarshal config x)] /\
   conversationHistory
     (run [G_main; G_main; G_main] (start h (executor json_Unmarshal config input x)))
     = h ++ [user (TrimSpace input)] /\
   anim (run [G_main; G_main; G_main]
           (start h (executor json_Unmarshal config input x))) = AStart).
Proof.
  split; [apply exit_run|]. split; [apply clear_run|]. split; [apply empty_run|].
  intros H1 H2 H3 H4.
  assert (Hturn : is_turn input = true) by (apply is_turn_iff; auto).
  split; [now apply executor_turn|].
  destruct (turn_starts json_Unmarshal config input x h Hturn) as (Ha & Hb & _). auto.
Qed.

Lemma C8_dispatch_on_trimmed_input_witness :
  (TrimSpace "quit" = "quit" /\ 2 <= main_steps (round_robin 3) /\
   status (run (round_robin 3)
             (start [user "a"; assistant "b"]
                (executor sample_Unmarshal sample_config "quit" x_hi))) = Exited 0) /\
  (TrimSpace "clear" = "clear" /\ 1 <= main_steps (round_robin 3) /\
   conversationHistory
     (run (round_robin 3)
        (start [user "a"; assistant "b"]
           (executor sample_Unmarshal sample_config "clear" x_hi))) = []) /\
  (TrimSpace "" = "" /\
   conversationHistory
     (run (round_robin 3)
        (start [user "a"; assistant "b"]
           (executor sample_Unmarshal sample_config "" x_hi)))
   = [user "a"; assistant "b"]) /\
  (TrimSpace "hello" <> "q" /\ TrimSpace "hello" <> "quit" /\
   TrimSpace "hello" <> "clear" /\ TrimSpace "hello" <> "" /\
   conversationHistory
     (run [G_main; G_main; G_main]
        (start [] (executor sample_Unmarshal sample_config "hello" x_hi)))
   = [] ++ [user (TrimSpace "hello")]).
Proof.
  assert (N1 : TrimSpace "hello" <> "q") by discriminate.
  assert (N2 : TrimSpace "hello" <> "quit") by discriminate.
  assert (N3 : TrimSpace "hello" <> "clear") by discriminate.
  assert (N4 : TrimSpace "hello" <> "") by discriminate.
  assert (L2 : 2 <= main_steps (round_robin 3)) by (vm_compute; lia).
  assert (L1 : 1 <= main_steps (round_robin 3)) by (vm_compute; lia).
  split; [|split; [|split]].
  - split; [reflexivity|]. split; [exact L2|].
    exact (proj1 (C8_dispatch_on_trimmed_input sample_Unmarshal sample_config "quit" x_hi
                    [user "a"; assistant "b"] (round_robin 3))
             (or_intror eq_refl) L2).
  - split; [reflexivity|]. split; [exact L1|].
    exact (proj1 (proj1 (proj2 (C8_dispatch_on_trimmed_input sample_Unmarshal sample_config
                                  "clear" x_hi [user "a"; assistant "b"] (round_robin 3)))
                    eq_refl L1)).
  - split; [reflexivity|].
    exact (proj1 (proj1 (proj2 (proj2 (C8_dispatch_on_trimmed_input sample_Unmarshal
                                         sample_config "" x_hi
                                         [user "a"; assistant "b"] (round_robin 3))))
                    eq_refl)).
  - repeat (split; [assumption|]).
    exact (proj1 (proj2 (proj2 (proj2 (proj2 (C8_dispatch_on_trimmed_input sample_Unmarshal
                                         sample_config "hello" x_hi [] []))) N1 N2 N3 N4))).
Defined.

(** C8 as it is worded fails: a single space is a non-empty input that is
    none of the reserved tokens, and no turn starts. *)
Lemma C8_blank_input_starts_no_turn :
  " " <> "" /\ " " <> "q" /\ " " <> "quit" /\ " " <> "clear" /\
  executor sample_Unmarshal sample_config " " x_hi
    = [IPrint ("豆包：问题不能为空，请重新输入！" ++ LF)%string] /\
  conversationHistory
    (run (round_robin 12) (start [] (executor sample_Unmarshal sample_config " " x_hi)))
    = [] /\
  anim (run (round_robin 12) (start [] (executor sample_Unmarshal sample_config " " x_hi)))
    = ANone.
Proof. repeat split; try discriminate. Qed.

(** C9: white space around the input is stripped before anything else.  An
    input of white space only is handled as the empty input (transcript
    unchanged, no animation, no request); a command padded with white space
    is that command; so is any text whose first and last bytes are visible;
    and the message a turn appends carries the trimmed text. *)
Theorem C9_input_is_trimmed
    (json_Unmarshal : string -> option StreamResponse) (config : Config)
    (x : Exchange) :
  (forall input h sched,
      whitespace_only input ->
      executor json_Unmarshal config input x = executor json_Unmarshal config "" x /\
      conversationHistory (run sched (start h (executor json_Unmarshal config input x))) = h /\
      anim (run sched (start h (executor json_Unmarshal config input x))) = ANone /\
      existsb is_request
        (log (run sched (start h (executor json_Unmarshal config input x)))) = false) /\
  (forall a b cmd,
      whitespace_only a -> whitespace_only b -> In cmd ["q"; "quit"; "clear"] ->
      executor json_Unmarshal config (a ++ cmd ++ b) x
      = executor json_Unmarshal config cmd x) /\
  (forall a b core c r c' r',
      whitespace_only a -> whitespace_only b ->
      core = String c r -> reverse core = String c' r' ->
      visible c = true -> visible c' = true ->
      TrimSpace (a ++ core ++ b) = core /\
      executor json_Unmarshal config (a ++ core ++ b) x
      = executor json_Unmarshal config core x) /\
  (forall input,
      is_turn input = true ->
      hd_error (executor json_Unmarshal config input x)
      = Some (IAppend (user (TrimSpace input)))).
Proof.
  assert (Hnil : whitespace_only "") by (exists []; split; [constructor | reflexivity]).
  assert (Hpad : forall a b core c r c' r',
             whitespace_only a -> whitespace_only b ->
             core = String c r -> reverse core = String c' r' ->
             visible c = true -> visible c' = true ->
             TrimSpace (a ++ core ++ b) = core /\
             executor json_Unmarshal config (a ++ core ++ b) x
             = executor json_Unmarshal config core x).
  { intros a b core c r c' r' Ha Hb Hc Hr Hv Hv'.
    pose proof (TrimSpace_padded a b core c c' r r' Ha Hb Hc Hr Hv Hv') as E1.
    pose proof (TrimSpace_padded "" "" core c c' r r' Hnil Hnil Hc Hr Hv Hv') as E2.
    simpl in E2. rewrite append_nil_r in E2.
    split; [exact E1|]. apply executor_trimmed. congruence. }
  split; [|split; [|split]].
  - intros input h sched Hws.
    pose proof (TrimSpace_whitespace input Hws) as Ht.
    split; [now apply executor_trimmed|].
    destruct (empty_run json_Unmarshal config input x h sched Ht) as (H1 & _ & H3 & H4).
    auto.
  - intros a b cmd Ha Hb Hin. simpl in Hin.
    destruct Hin as [<-|[<-|[<-|[]]]].
    + apply (Hpad a b "q" "q"%char "" "q"%char ""); auto.
    + apply (Hpad a b "quit" "q"%char "uit" "t"%char "iuq"); auto.
    + apply (Hpad a b "clear" "c"%char "lear" "r"%char "aelc"); auto.
  - exact Hpad.
  - intros input Hturn. now rewrite executor_turn.
Qed.

Lemma C9_input_is_trimmed_witness :
  whitespace_only (" " ++ str3 227 128 128 ++ str1 9)%string /\
  executor sample_Unmarshal sample_config (" " ++ str3 227 128 128 ++ str1 9)%string x_hi
    = executor sample_Unmarshal sample_config "" x_hi /\
  executor sample_Unmarshal sample_config ("  " ++ "q" ++ "  ")%string x_hi
    = executor sample_Unmarshal sample_config "q" x_hi /\
  executor sample_Unmarshal sample_config (" " ++ "clear" ++ " ")%string x_hi
    = executor sample_Unmarshal sample_config "clear" x_hi /\
  is_turn "  hello there " = true /\
  hd_error (executor sample_Unmarshal sample_config "  hello there " x_hi)
    = Some (IAppend (user "hello there")).
Proof.
  assert (W3 : whitespace_only (" " ++ str3 227 128 128 ++ str1 9)%string).
  { exists [" "; str3 227 128 128; str1 9]. split; [|reflexivity].
    repeat (apply Forall_cons; [apply In_by_eqb; reflexivity|]). apply Forall_nil. }
  assert (W2 : whitespace_only "  ").
  { exists [" "; " "]. split; [|reflexivity].
    repeat (apply Forall_cons; [apply In_by_eqb; reflexivity|]). apply Forall_nil. }
  assert (W1 : whitespace_only " ").
  { exists [" "]. split; [|reflexivity].
    repeat (apply Forall_cons; [apply In_by_eqb; reflexivity|]). apply Forall_nil. }
  destruct (C9_input_is_trimmed sample_Unmarshal sample_config x_hi)
    as (Hblank & Hcmd & _ & Hmsg).
  split; [exact W3|].
  split; [exact (proj1 (Hblank _ [] [] W3))|].
  split; [exact (Hcmd "  " "  " "q" W2 W2 (or_introl eq_refl))|].
  split; [exact (Hcmd " " " " "clear" W1 W1 (or_intror (or_intror (or_introl eq_refl))))|].
  split; [reflexivity|].
  exact (Hmsg "  hello there " eq_refl).
Defined.

(** * Further properties of the code *)

Section ConsumerExtras.

Variable json_Unmarshal : string -> option StreamResponse.
Variable config : Config.

(** The effects of [sendStreamRequest], exactly. *)
Lemma send_effects messages x tr r :
  sendStreamRequest json_Unmarshal config messages x = (tr, r) ->
  exists ds,
    Forall (fun d => d <> "") ds /\
    tr = request_part config messages x ++ sync_prefix true ds ++ map IPrint ds /\
    match r with
    | Ok c => ds <> [] /\ c = String.concat "" ds
    | _ => True
    end.
Proof.
  destruct x as [err|err|err isTimeout|st body scanErr]; simpl; intros H.
  - inversion H; subst. exists []. repeat split; constructor.
  - inversion H; subst. exists []. repeat split; constructor.
  - inversion H; subst. exists []. repeat split; constructor.
  - destruct (negb (st =? StatusOK)%Z).
    { inversion H; subst. exists []. repeat split; constructor. }
    destruct (scanLoop json_Unmarshal body "" true) as [tr' e] eqn:Eloop.
    apply scanLoop_trace in Eloop as (ds & Hne & Htr & He).
    assert (Hok : forall f, f = ("" ++ String.concat "" ds)%string ->
                   (f =? "")%string = false -> ds <> [] /\ f = String.concat "" ds).
    { intros f -> Hf. simpl in *. split; [|reflexivity].
      intros ->. simpl in Hf. discriminate. }
    destruct e as [f|f|].
    + destruct scanErr.
      * inversion H; subst. exists ds. repeat split; auto.
      * destruct (f =? "")%string eqn:Ef; inversion H; subst;
          try (pose proof (Hok _ eq_refl Ef) as [? ?]);
          exists ds; repeat split; auto.
    + destruct scanErr.
      * inversion H; subst. exists ds. repeat split; auto.
      * destruct (f =? "")%string eqn:Ef; inversion H; subst;
          try (pose proof (Hok _ eq_refl Ef) as [? ?]);
          exists ds; repeat split; auto.
    + inversion H; subst. exists ds. repeat split; auto.
Qed.

Lemma printed_app a b : printed (a ++ b) = printed a ++ printed b.
Proof. unfold printed. apply flat_map_app. Qed.

Lemma printed_prints ds : printed (map IPrint ds) = ds.
Proof. induction ds as [|d ds IH]; simpl; [reflexivity | now rewrite IH]. Qed.

Lemma printed_request_part messages x : printed (request_part config messages x) = [].
Proof. destruct x; reflexivity. Qed.

Lemma printed_sync b ds : printed (sync_prefix b ds) = [].
Proof. destruct ds, b; reflexivity. Qed.

(** The loop reads nothing behind the terminator. *)
Lemma scanLoop_stops_at_terminator pre : forall post post' fullContent firstContent,
  scanLoop json_Unmarshal (pre ++ data "[DONE]" :: post) fullContent firstContent
  = scanLoop json_Unmarshal (pre ++ data "[DONE]" :: post') fullContent firstContent.
Proof.
  induction pre as [|line pre IH]; intros post post' full first; [reflexivity|].
  simpl.
  destruct ((line =? "")%string || HasPrefix line ": "); [apply IH|].
  destruct (HasPrefix line "data: "); [|apply IH].
  destruct (TrimPrefix line "data: " =? "[DONE]")%string; [reflexivity|].
  destruct (json_Unmarshal (TrimPrefix line "data: ")) as [r|]; [|apply IH].
  destruct (Choices r) as [|choice0 others]; [reflexivity|].
  destruct (negb (Content (Delta choice0) =? "")%string); [|apply IH].
  now rewrite (IH post post').
Qed.

(** With a terminator in the stream the loop never ends by exhaustion. *)
Lemma scanLoop_terminated pre : forall post fullContent firstContent f,
  snd (scanLoop json_Unmarshal (pre ++ data "[DONE]" :: post) fullContent firstContent)
    <> Exhausted f.
Proof.
  induction pre as [|line pre IH]; intros post full first f; [discriminate|].
  simpl.
  destruct ((line =? "")%string || HasPrefix line ": "); [apply IH|].
  destruct (HasPrefix line "data: "); [|apply IH].
  destruct (TrimPrefix line "data: " =? "[DONE]")%string; [discriminate|].
  destruct (json_Unmarshal (TrimPrefix line "data: ")) as [r|]; [|apply IH].
  destruct (Choices r) as [|choice0 others]; [discriminate|].
  destruct (negb (Content (Delta choice0) =? "")%string); [|apply IH].
  specialize (IH post (full ++ Content (Delta choice0))%string false f).
  destruct (scanLoop json_Unmarshal (pre ++ data "[DONE]" :: post)
              (full ++ Content (Delta choice0))%string false).
  exact IH.
Qed.

End ConsumerExtras.

(** X1: once the terminator line has been read, the lines that follow it
    do not matter: they are not parsed, not printed, and cannot make the
    call fail or panic. *)
Theorem terminator_ends_the_stream
    (json_Unmarshal : string -> option StreamResponse) (config : Config)
    (messages : list Message) (pre post post' : list string)
    (scanErr : option string) :
  sendStreamRequest json_Unmarshal config messages
    (Responded StatusOK (pre ++ data "[DONE]" :: post) scanErr)
  = sendStreamRequest json_Unmarshal config messages
      (Responded StatusOK (pre ++ data "[DONE]" :: post') scanErr).
Proof.
  cbn [sendStreamRequest]. change (negb (StatusOK =? StatusOK)%Z) with false. cbv iota.
  rewrite (scanLoop_stops_at_terminator json_Unmarshal pre post post' "" true).
  pose proof (scanLoop_terminated json_Unmarshal pre post' "" true) as Hne.
  destruct (scanLoop json_Unmarshal (pre ++ data "[DONE]" :: post') "" true) as [tr e].
  destruct e as [f|f|]; [exfalso; now apply (Hne f)| |]; reflexivity.
Qed.

Lemma reply_non_empty
    (json_Unmarshal : string -> option StreamResponse) (config : Config)
    (messages : list Message) (x : Exchange) (tr : list instr) (content : string) :
  sendStreamRequest json_Unmarshal config messages x = (tr, Ok content) -> content <> "".
Proof.
  intros H. destruct (send_effects _ _ _ _ _ _ H) as (ds & Hne & _ & Hds & Hc).
  subst content. intros E. now apply Hds, (concat_non_empty ds Hne).
Qed.

(** X2: a successful call never returns an empty reply, and what it has
    printed, delta by delta, is the reply it returns: the text a user saw
    streamed is the text that goes into the transcript. *)
Theorem success_is_what_was_printed
    (json_Unmarshal : string -> option StreamResponse) (config : Config)
    (messages : list Message) (x : Exchange) (tr : list instr) (content : string) :
  sendStreamRequest json_Unmarshal config messages x = (tr, Ok content) ->
  content <> "" /\ String.concat "" (printed tr) = content /\
  Forall (fun t => t <> "") (printed tr).
Proof.
  intros H. destruct (send_effects _ _ _ _ _ _ H) as (ds & Hne & Htr & Hds & Hc).
  subst tr. rewrite !printed_app, printed_request_part, printed_sync, printed_prints.
  simpl. subst content. repeat split; auto.
  intros E. now apply Hds, (concat_non_empty ds Hne).
Qed.

Lemma success_is_what_was_printed_witness :
  sendStreamRequest sample_Unmarshal sample_config [user "hello"] x_a_b
    = ([IRequest "https://ark.cn-beijing.volces.com/api/v3/chat/completions"
          "Bearer sk-xxxxxx" (requestBody sample_config [user "hello"]);
        ISend stopChan; IRecv doneChan; IPrint "A"; IPrint "B"], Ok "AB") /\
  "AB" <> "" /\
  String.concat ""
    (printed [IRequest "https://ark.cn-beijing.volces.com/api/v3/chat/completions"
                "Bearer sk-xxxxxx" (requestBody sample_config [user "hello"]);
              ISend stopChan; IRecv doneChan; IPrint "A"; IPrint "B"]) = "AB".
Proof.
  split; [reflexivity|].
  destruct (success_is_what_was_printed sample_Unmarshal sample_config [user "hello"]
              x_a_b _ "AB" eq_refl) as (H1 & H2 & _).
  split; [exact H1 | exact H2].
Defined.

(** X3: a failure that comes after the first non-empty delta (a read error
    in mid-stream) is rolled back: the turn can run to its end, and whenever
    [executor] returns the transcript is the one before the turn, although
    part of a reply has been printed. *)
Theorem late_failure_rolls_back
    (json_Unmarshal : string -> option StreamResponse) (config : Config)
    (h : list Message) (input : string) (x : Exchange)
    (tr : list instr) (e : error) :
  is_turn input = true ->
  sendStreamRequest json_Unmarshal config (h ++ [user (TrimSpace input)]) x = (tr, Err e) ->
  has_stop tr = true ->
  (exists sched,
      returned (run sched (start h (executor json_Unmarshal config input x))) /\
      conversationHistory (run sched (start h (executor json_Unmarshal config input x))) = h) /\
  (forall sched,
      returned (run sched (start h (executor json_Unmarshal config input x))) ->
      conversationHistory (run sched (start h (executor json_Unmarshal config input x))) = h).
Proof.
  intros Hturn Hsend Hstop. split.
  - apply (stopped_turn_can_return json_Unmarshal config h input x Hturn tr (Err e)
             Hsend ltac:(discriminate) Hstop).
  - intros sched Hret.
    apply (turn_returns_final json_Unmarshal config h input x Hturn tr (Err e) sched
             Hsend ltac:(discriminate) Hret).
Qed.

Lemma late_failure_rolls_back_witness :
  is_turn "hello" = true /\
  sendStreamRequest sample_Unmarshal sample_config
    ([user "a"; assistant "b"] ++ [user (TrimSpace "hello")]) x_cut_off
  = ([IRequest "https://ark.cn-beijing.volces.com/api/v3/chat/completions"
        "Bearer sk-xxxxxx"
        (requestBody sample_config [user "a"; assistant "b"; user "hello"]);
      ISend stopChan; IRecv doneChan; IPrint "A"],
     Err "读取流式响应失败：unexpected EOF") /\
  (forall sched,
      returned (run sched (start [user "a"; assistant "b"]
                             (executor sample_Unmarshal sample_config "hello" x_cut_off))) ->
      conversationHistory
        (run sched (start [user "a"; assistant "b"]
                      (executor sample_Unmarshal sample_config "hello" x_cut_off)))
      = [user "a"; assistant "b"]) /\
  returned (run (round_robin 16)
              (start [user "a"; assistant "b"]
                 (executor sample_Unmarshal sample_config "hello" x_cut_off))).
Proof.
  split; [reflexivity|]. split; [reflexivity|].
  split; [|vm_compute; split; reflexivity].
  exact (proj2 (late_failure_rolls_back sample_Unmarshal sample_config
                  [user "a"; assistant "b"] "hello" x_cut_off _ _
                  eq_refl eq_refl eq_refl)).
Defined.

Section ReturnInvariant.

Variable json_Unmarshal : string -> option StreamResponse.
Variable config : Config.

Lemma exit_never_returns input x h sched :
  TrimSpace input = "q" \/ TrimSpace input = "quit" ->
  ~ returned (run sched (start h (executor json_Unmarshal config input x))).
Proof.
  intros Ht.
  assert (E : executor json_Unmarshal config input x
              = [IPrint (LF ++ "豆包：感谢使用，再见！" ++ LF)%string; IExit 0])
    by (unfold executor; destruct Ht as [-> | ->]; reflexivity).
  rewrite E, run_main_only by reflexivity.
  destruct (main_steps sched) as [|[|m]]; try (intros [Hp _]; discriminate).
  change (repeat G_main (S (S m))) with ([G_main; G_main] ++ repeat G_main m).
  rewrite run_app, run_stuck by discriminate. intros [_ Hs]. discriminate.
Qed.

Lemma clear_returns input x h sched :
  TrimSpace input = "clear" ->
  returned (run sched (start h (executor json_Unmarshal config input x))) ->
  conversationHistory (run sched (start h (executor json_Unmarshal config input x))) = [].
Proof.
  intros Ht Hret.
  destruct (main_steps sched) as [|m] eqn:Hm.
  - exfalso. revert Hret.
    assert (E : executor json_Unmarshal config input x
                = [IClear; IPrint ("豆包：已清空所有对话上下文！" ++ LF)%string])
      by (unfold executor; rewrite Ht; reflexivity).
    rewrite E, run_main_only, Hm by reflexivity. intros [Hp _]. discriminate.
  - apply clear_run; [exact Ht | lia].
Qed.

(** Whatever the input and whatever the server does, a call of [executor]
    that returns leaves the transcript empty, or as it was, or extended by
    the user message and a non-empty assistant message. *)
Lemma executor_returns input x h h' :
  turn_returns json_Unmarshal config input x h h' ->
  h' = [] \/ h' = h \/
  exists c, c <> "" /\ h' = h ++ [user (TrimSpace input); assistant c].
Proof.
  intros (sched & Hret & Hh). subst h'.
  destruct (is_turn input) eqn:Hturn.
  - destruct (sendStreamRequest json_Unmarshal config (h ++ [user (TrimSpace input)]) x)
      as [tr r] eqn:Hsend.
    destruct r as [c|e|].
    + right. right. exists c. split.
      * exact (reply_non_empty _ _ _ _ _ _ Hsend).
      * apply (turn_returns_final json_Unmarshal config h input x Hturn tr (Ok c) sched
                 Hsend ltac:(discriminate) Hret).
    + right. left.
      apply (turn_returns_final json_Unmarshal config h input x Hturn tr (Err e) sched
               Hsend ltac:(discriminate) Hret).
    + exfalso.
      destruct (panicking_turn_doomed json_Unmarshal config h input x Hturn tr sched Hsend)
        as [Hb|Hd].
      * eapply before_call_not_returned; eassumption.
      * now apply (doomed_not_returned _ Hd).
  - unfold is_turn in Hturn. apply negb_false_iff in Hturn.
    apply orb_true_iff in Hturn as [Hturn|Hempty].
    + apply orb_true_iff in Hturn as [Hquit|Hclear].
      * exfalso. apply (exit_never_returns input x h sched); [|exact Hret].
        apply orb_true_iff in Hquit as [H|H]; apply String.eqb_eq in H; auto.
      * left. apply clear_returns; [now apply String.eqb_eq | exact Hret].
    + right. left. apply String.eqb_eq in Hempty.
      now destruct (empty_run json_Unmarshal config input x h sched Hempty).
Qed.

End ReturnInvariant.

(** X4: the transcript invariant of [executor].  Whatever the input line
    and whatever the server answers, if the transcript is empty or ends with
    a (user, assistant) pair before the call and the call returns, it is so
    after the call; and the new transcript is the empty one, the old one, or
    the old one with the user message and a non-empty assistant message. *)
Theorem executor_keeps_pairs
    (json_Unmarshal : string -> option StreamResponse) (config : Config)
    (input : string) (x : Exchange) (h h' : list Message) :
  paired_or_empty h ->
  turn_returns json_Unmarshal config input x h h' ->
  paired_or_empty h' /\
  (h' = [] \/ h' = h \/
   exists c, c <> "" /\ h' = h ++ [user (TrimSpace input); assistant c]).
Proof.
  intros Hp Hr.
  pose proof (executor_returns json_Unmarshal config input x h h' Hr) as Hcases.
  split; [|exact Hcases].
  destruct Hcases as [-> | [-> | (c & _ & ->)]].
  - now left.
  - exact Hp.
  - right. exists h, (user (TrimSpace input)), (assistant c). auto.
Qed.

Lemma executor_keeps_pairs_witness :
  paired_or_empty [user "a"; assistant "b"] /\
  turn_returns sample_Unmarshal sample_config "hello" x_cut_off
    [user "a"; assistant "b"] [user "a"; assistant "b"] /\
  paired_or_empty [user "a"; assistant "b"].
Proof.
  assert (H1 : paired_or_empty [user "a"; assistant "b"]).
  { right. exists [], (user "a"), (assistant "b"). auto. }
  assert (H2 : turn_returns sample_Unmarshal sample_config "hello" x_cut_off
                 [user "a"; assistant "b"] [user "a"; assistant "b"]).
  { exists (round_robin 16). vm_compute. repeat split. }
  split; [exact H1|]. split; [exact H2|].
  exact (proj1 (executor_keeps_pairs sample_Unmarshal sample_config "hello" x_cut_off
                  _ _ H1 H2)).
Defined.

(** ** The animation goroutine and the WaitGroup *)

Lemma plain_tl prog : forallb is_plain prog = true -> forallb is_plain (tl prog) = true.
Proof. destruct prog as [|i k]; simpl; [auto|]. intros H. now apply andb_true_iff in H. Qed.

Ltac split_matches :=
  do 4 (try match goal with
            | |- context [match ?x with _ => _ end] => destruct x eqn:?; simpl
            end).

Lemma accounted_step g s : accounted s -> accounted (step g s).
Proof.
  intros (Hp & Ha & Hw). break_state s. unfold step, accounted. simpl.
  destruct st; simpl; auto.
  destruct g.
  - unfold step_main, anim_sending. simpl.
    destruct prog as [|i k]; simpl; auto.
    simpl in Hp. apply andb_true_iff in Hp as [Hi Hk].
    destruct i; try discriminate; simpl; split_matches;
      repeat split; simpl; auto; subst; simpl in *; try congruence;
      rewrite ?Hk; auto; destruct a; simpl in *; congruence.
  - unfold step_anim, main_sending, main_receiving. simpl.
    destruct a; simpl; try congruence; split_matches;
      repeat split; simpl; auto; subst; simpl in *; try congruence;
      try (now apply plain_tl); try (now apply (plain_tl (_ :: _))).
Qed.

Lemma wait_ahead_step g s : wait_ahead s -> wait_ahead (step g s).
Proof.
  intros [Hacc Hw]. split; [now apply accounted_step|].
  destruct Hacc as (Hp & Ha & Hn). break_state s. unfold step. simpl.
  destruct st; simpl; auto.
  destruct g.
  - unfold step_main, anim_sending. simpl.
    destruct prog as [|i k]; simpl; auto.
    simpl in Hp. apply andb_true_iff in Hp as [Hi Hk].
    destruct i; try discriminate; simpl in *; split_matches; simpl; auto;
      try (destruct Hw as [Hw|Hw]; [now left | now right]).
    apply Nat.eqb_eq in Heqb. now right.
  - unfold step_anim, main_sending, main_receiving. simpl.
    destruct a; simpl; try congruence; split_matches; simpl; auto;
      try (destruct Hw as [Hw|Hw]; [left | now right];
           destruct prog as [|i k]; simpl in *; try discriminate;
           destruct i; simpl in *; try discriminate; auto; fail).
    destruct Hw as [Hw|Hw]; [|right; now rewrite Hw]. simpl in Hn. subst n. now right.
Qed.

(** X5: no goroutine is left behind.  Whenever [executor] returns from a
    conversational turn, [loadingAnimation] has run to its end and the
    WaitGroup counter is back to zero. *)
Theorem animation_has_exited_on_return
    (json_Unmarshal : string -> option StreamResponse) (config : Config)
    (h : list Message) (input : string) (x : Exchange) (sched : list goroutine) :
  is_turn input = true ->
  returned (run sched (start h (executor json_Unmarshal config input x))) ->
  anim (run sched (start h (executor json_Unmarshal config input x))) = AExited /\
  wg (run sched (start h (executor json_Unmarshal config input x))) = 0.
Proof.
  intros Hturn Hret.
  destruct (sendStreamRequest json_Unmarshal config (h ++ [user (TrimSpace input)]) x)
    as [tr r] eqn:Hsend.
  destruct (send_effects _ _ _ _ _ _ Hsend) as (ds & _ & Htr & _).
  assert (Hplain : forallb is_plain tr = true).
  { subst tr. rewrite !forallb_app.
    replace (forallb is_plain (request_part config _ x)) with true by (destruct x; reflexivity).
    replace (forallb is_plain (sync_prefix true ds)) with true by (destruct ds; reflexivity).
    simpl. clear. induction ds; simpl; auto. }
  assert (Hinv : before_call h (user (TrimSpace input))
                   (request_and_reconcile json_Unmarshal config x)
                   (run sched (start h (executor json_Unmarshal config input x))) \/
                 (r <> Panic ->
                  wait_ahead (run sched (start h (executor json_Unmarshal config input x))))).
  { destruct r as [c|e|].
    1,2: (destruct (turn_invariant h (user (TrimSpace input))
                      (request_and_reconcile json_Unmarshal config x) wait_ahead)
            with (sched := sched)
                 (s := start h (executor json_Unmarshal config input x)) as [Hb|Hw];
          [ intros s (Hh & Hp & Ha & Hw & Hs); break_state s; subst;
            unfold request_and_reconcile; rewrite Hsend;
            (split; [repeat split; simpl;
                     [rewrite forallb_app, Hplain; reflexivity
                     |destruct a; discriminate
                     |destruct a; try discriminate; reflexivity]
                    |left; simpl; rewrite existsb_app; simpl; apply orb_true_r])
          | intros g s; apply wait_ahead_step
          | left; now apply start_before_call
          | now left
          | now right ]).
    right. congruence. }
  destruct Hinv as [Hb|Hw].
  { exfalso. eapply before_call_not_returned; eassumption. }
  destruct r as [c|e|].
  3:{ exfalso.
      destruct (panicking_turn_doomed json_Unmarshal config h input x Hturn tr sched Hsend)
        as [Hb|Hd].
      - eapply before_call_not_returned; eassumption.
      - now apply (doomed_not_returned _ Hd). }
  all: destruct (Hw ltac:(discriminate)) as [(Hp & Ha & Hn) [Hwait|Hz]];
    destruct Hret as [Hpend _];
    [rewrite Hpend in Hwait; discriminate|];
    (split; [|exact Hz]); rewrite Hz in Hn;
    destruct (anim (run sched (start h (executor json_Unmarshal config input x))));
    simpl in Hn; congruence.
Qed.

Lemma animation_has_exited_on_return_witness :
  is_turn "hello" = true /\
  returned (run (round_robin 16)
              (start [] (executor sample_Unmarshal sample_config "hello" x_hi))) /\
  anim (run (round_robin 16)
          (start [] (executor sample_Unmarshal sample_config "hello" x_hi))) = AExited /\
  wg (run (round_robin 16)
        (start [] (executor sample_Unmarshal sample_config "hello" x_hi))) = 0.
Proof.
  assert (H : returned (run (round_robin 16)
                (start [] (executor sample_Unmarshal sample_config "hello" x_hi))))
    by (vm_compute; split; reflexivity).
  split; [reflexivity|]. split; [exact H|].
  exact (animation_has_exited_on_return sample_Unmarshal sample_config [] "hello" x_hi
           (round_robin 16) eq_refl H).
Defined.

(** ** What a call of [executor] writes and sends *)

Lemma anim_then_main_snoc lg e :
  anim_then_main lg = true -> anim_print e = false -> anim_then_main (lg ++ [e]) = true.
Proof.
  intros H He. induction lg as [|e0 lg IH]; simpl in *.
  - destruct (main_print e); reflexivity.
  - destruct (main_print e0); [|auto].
    rewrite existsb_app. simpl. rewrite He, orb_false_r. exact H.
Qed.

Lemma no_main_print_ordered lg : existsb main_print lg = false -> anim_then_main lg = true.
Proof.
  induction lg as [|e lg IH]; simpl; [reflexivity|]. intros H.
  apply orb_false_iff in H as [He H]. rewrite He. auto.
Qed.

Lemma no_anim_print_ordered lg : existsb anim_print lg = false -> anim_then_main lg = true.
Proof.
  induction lg as [|e lg IH]; simpl; [reflexivity|]. intros H.
  apply orb_false_iff in H as [He H]. destruct (main_print e); [now rewrite H | auto].
Qed.

Lemma existsb_snoc {A : Type} (f : A -> bool) l e :
  existsb f l = false -> f e = false -> existsb f (l ++ [e]) = false.
Proof. intros H He. rewrite existsb_app, H. simpl. now rewrite He. Qed.

Lemma filter_snoc_no (lg : list event) e :
  is_request e = false -> filter is_request (lg ++ [e]) = filter is_request lg.
Proof. intros H. rewrite filter_app. simpl. rewrite H. apply app_nil_r. Qed.

Lemma guarded_tl prog :
  guarded prog = true ->
  match prog with
  | ISend _ :: k => guarded k = true
  | _ => True
  end.
Proof. destruct prog as [|i k]; [auto|]. destruct i; auto. Qed.

Ltac ordered_finish Hord :=
  simpl in *; try discriminate; try congruence;
  repeat match goal with
         | H : (_ =? _)%nat = true |- _ => apply Nat.eqb_eq in H
         end;
  subst; simpl in *;
  (split;
   [ first [ exact Hord
           | apply anim_then_main_snoc; [exact Hord | reflexivity]
           | apply no_main_print_ordered; apply existsb_snoc; [assumption | reflexivity] ]
   | first [ left; first [reflexivity | assumption]
           | left;
             match goal with
             | |- silent ?a = true => destruct a; simpl in *; congruence
             end
           | right; split;
             [ first [assumption | apply existsb_snoc; [assumption | reflexivity]]
             | first [assumption | reflexivity] ] ] ]).

Lemma ordered_step g s : ordered s -> ordered (step g s).
Proof.
  intros (Hacc & Hord & Hcase). split; [now apply accounted_step|].
  destruct Hacc as (Hp & Ha & Hn). break_state s. unfold step. simpl.
  destruct st; simpl; auto.
  destruct g.
  - unfold step_main, anim_sending. simpl.
    destruct prog as [|i k]; simpl; auto.
    simpl in Hp. apply andb_true_iff in Hp as [Hi Hk].
    destruct i; try discriminate; simpl; split_matches;
      destruct Hcase as [Hs|[Hm Hg]]; ordered_finish Hord.
  - unfold step_anim, main_sending, main_receiving. simpl.
    destruct a; simpl; try congruence; auto;
      (destruct prog as [|i k]; [|destruct i]); simpl; split_matches;
      destruct Hcase as [Hs|[Hm Hg]]; ordered_finish Hord.
Qed.

Lemma requests_are_step L g s : requests_are L s -> requests_are L (step g s).
Proof.
  intros (Hp & HL). break_state s. unfold step, requests_are. simpl.
  destruct st; simpl; auto.
  destruct g.
  - unfold step_main, anim_sending. simpl.
    destruct prog as [|i k]; simpl; auto.
    simpl in Hp. apply andb_true_iff in Hp as [Hi Hk].
    destruct i; try discriminate; simpl in *; split_matches;
      rewrite ?Hk; rewrite ?filter_snoc_no by reflexivity; auto.
    split; [reflexivity|]. rewrite filter_app. simpl. now rewrite <- app_assoc.
  - unfold step_anim, main_sending, main_receiving. simpl.
    destruct a; simpl; auto;
      (destruct prog as [|i k]; [|destruct i]); simpl in *; split_matches;
      rewrite ?filter_snoc_no by reflexivity; auto;
      apply andb_true_iff in Hp as [Hi Hk]; auto.
Qed.

Lemma never_animated_step g s : never_animated s -> never_animated (step g s).
Proof.
  intros (Ha & Hp & Hl & Hr & Hq). break_state s. subst.
  unfold step, never_animated. simpl.
  destruct st; simpl; auto.
  destruct g; [|unfold step_anim; simpl; auto].
  unfold step_main, anim_sending. simpl.
  destruct prog as [|i k]; simpl; auto.
  simpl in Hp. apply andb_true_iff in Hp as [Hi Hk].
  destruct i; try discriminate; simpl in *; split_matches;
    rewrite ?Hk; rewrite ?filter_snoc_no by reflexivity;
    rewrite ?existsb_snoc by (assumption || reflexivity); auto; try discriminate.
Qed.

Section TurnLog.

Variable h : list Message.
Variable u : Message.
Variable F : list Message -> list instr.

(** Before the call the log receives frames of the animation only. *)
Lemma before_call_step_log g s :
  before_call h u F s ->
  (log (step g s) = log s \/ exists t, log (step g s) = log s ++ [EvPrint G_anim t]) /\
  (before_call h u F (step g s) \/ at_call h u F (step g s)).
Proof.
  intros Hb. destruct Hb as [lg|lg|lg|a lg st Ha Hst]; unfold step; simpl.
  - destruct g; simpl; split; auto; left; constructor.
  - destruct g; simpl; split; auto; left; constructor.
  - destruct g; simpl; split; auto; left; constructor; reflexivity.
  - destruct st; try discriminate; [|split; [auto | left; now constructor]].
    destruct g.
    + split; [now left|]. right. unfold step_main, at_call. simpl.
      rewrite app_nil_r. auto.
    + unfold step_anim, main_sending. simpl.
      destruct a; try discriminate; simpl.
      * split; [right; eauto | left; now constructor].
      * destruct (index chars (Z.rem idx 4)); simpl;
          (split; [eauto | left; now constructor]).
Qed.

(** [turn_invariant] with a property of the log that frames of the
    animation do not disturb. *)
Lemma turn_invariant_log (P : list event -> Prop) (post : State -> Prop) :
  (forall lg t, P lg -> P (lg ++ [EvPrint G_anim t])) ->
  (forall s, at_call h u F s -> P (log s) -> post s) ->
  (forall g s, post s -> post (step g s)) ->
  forall sched s,
    (before_call h u F s /\ P (log s)) \/ post s ->
    (before_call h u F (run sched s) /\ P (log (run sched s))) \/ post (run sched s).
Proof.
  intros HP Hcall Hpost. apply run_invariant.
  intros g s [[Hb Hl]|Hp]; [|right; auto].
  destruct (before_call_step_log g s Hb) as [Hlog Hnext].
  assert (Hl' : P (log (step g s))).
  { destruct Hlog as [-> | [t ->]]; auto. }
  destruct Hnext as [Hb'|Hc]; [left; auto | right; auto].
Qed.

End TurnLog.

Section TurnOutput.

Variable json_Unmarshal : string -> option StreamResponse.
Variable config : Config.

Lemma command_programs input x :
  is_turn input = false ->
  executor json_Unmarshal config input x
    = [IPrint (LF ++ "豆包：感谢使用，再见！" ++ LF)%string; IExit 0] \/
  executor json_Unmarshal config input x
    = [IClear; IPrint ("豆包：已清空所有对话上下文！" ++ LF)%string] \/
  executor json_Unmarshal config input x
    = [IPrint ("豆包：问题不能为空，请重新输入！" ++ LF)%string].
Proof.
  unfold is_turn, executor. intros H. apply negb_false_iff in H. cbv zeta in *.
  destruct ((TrimSpace input =? "q")%string || (TrimSpace input =? "quit")%string);
    [now left|].
  destruct (TrimSpace input =? "clear")%string; [right; now left|].
  destruct (TrimSpace input =? "")%string; [right; now right | discriminate].
Qed.

Lemma command_never_animated input x h sched :
  is_turn input = false ->
  never_animated (run sched (start h (executor json_Unmarshal config input x))).
Proof.
  intros H. apply run_invariant; [intros g s; apply never_animated_step|].
  destruct (command_programs input x H) as [-> | [-> | ->]]; repeat split.
Qed.

Lemma call_effects messages x :
  exists tr r ds,
    sendStreamRequest json_Unmarshal config messages x = (tr, r) /\
    tr = request_part config messages x ++ sync_prefix true ds ++ map IPrint ds /\
    request_and_reconcile json_Unmarshal config x messages
      = tr ++ match r with
              | Panic => [IPanic]
              | _ => ensure_stopped ++ reconcile r
              end.
Proof.
  destruct (sendStreamRequest json_Unmarshal config messages x) as [tr r] eqn:Hsend.
  destruct (send_effects _ _ _ _ _ _ Hsend) as (ds & _ & Htr & _).
  exists tr, r, ds. split; [reflexivity|]. split; [exact Htr|].
  unfold request_and_reconcile. rewrite Hsend. destruct r; reflexivity.
Qed.

Lemma call_is_plain messages x :
  forallb is_plain (request_and_reconcile json_Unmarshal config x messages) = true.
Proof.
  destruct (call_effects messages x) as (tr & r & ds & _ & Htr & ->). subst tr.
  rewrite !forallb_app.
  replace (forallb is_plain (request_part config messages x)) with true
    by (destruct x; reflexivity).
  replace (forallb is_plain (sync_prefix true ds)) with true by (destruct ds; reflexivity).
  replace (forallb is_plain (map IPrint ds)) with true
    by (clear; induction ds; simpl; auto).
  destruct r; reflexivity.
Qed.

Lemma call_is_guarded messages x :
  guarded (request_and_reconcile json_Unmarshal config x messages) = true.
Proof.
  destruct (call_effects messages x) as (tr & r & ds & _ & Htr & ->). subst tr.
  destruct x, ds, r; reflexivity.
Qed.

Lemma call_requests messages x :
  requests_pending (request_and_reconcile json_Unmarshal config x messages)
  = requests_pending (request_part config messages x).
Proof.
  destruct (call_effects messages x) as (tr & r & ds & _ & Htr & ->). subst tr.
  unfold requests_pending. rewrite !flat_map_app.
  replace (flat_map _ (sync_prefix true ds)) with (@nil event) by (destruct ds; reflexivity).
  replace (flat_map _ (map IPrint ds)) with (@nil event)
    by (clear; induction ds; simpl; auto).
  destruct r; simpl; rewrite ?app_nil_r; reflexivity.
Qed.

End TurnOutput.

(** X6: the output of a call of [executor] is never interleaved.  Whatever
    the input, the exchange and the schedule, once the main goroutine has
    written anything (a delta of the reply, an error, a notice) no frame of
    the animation is written any more. *)
Theorem output_is_never_interleaved
    (json_Unmarshal : string -> option StreamResponse) (config : Config)
    (input : string) (x : Exchange) (h : list Message) (sched : list goroutine) :
  anim_then_main (log (run sched (start h (executor json_Unmarshal config input x)))) = true.
Proof.
  destruct (is_turn input) eqn:Hturn.
  - destruct (turn_invariant_log h (user (TrimSpace input))
                (request_and_reconcile json_Unmarshal config x)
                (fun lg => existsb main_print lg = false) ordered)
      with (sched := sched) (s := start h (executor json_Unmarshal config input x))
      as [[_ Hl]|Ho].
    + intros lg t Hl. now apply existsb_snoc.
    + intros s (Hh & Hp & Ha & Hw & Hs) Hl. break_state s. subst.
      split; [|split].
      * repeat split; simpl.
        -- apply call_is_plain.
        -- destruct a; discriminate.
        -- destruct a; try discriminate; reflexivity.
      * now apply no_main_print_ordered.
      * right. split; [exact Hl | apply call_is_guarded].
    + intros g s. apply ordered_step.
    + left. split; [now apply start_before_call | reflexivity].
    + now apply no_main_print_ordered.
    + apply Ho.
  - apply no_anim_print_ordered.
    apply (command_never_animated json_Unmarshal config input x h sched Hturn).
Qed.

(** X7: a call of [executor] sends at most one request, and only in a
    conversational turn; the request goes to the endpoint of the region with
    the key as bearer token, asks for a stream, and carries the whole
    transcript with the user message of the turn at its end. *)
Theorem at_most_one_request
    (json_Unmarshal : string -> option StreamResponse) (config : Config)
    (input : string) (x : Exchange) (h : list Message) (sched : list goroutine) :
  filter is_request
    (log (run sched (start h (executor json_Unmarshal config input x)))) = [] \/
  (is_turn input = true /\
   filter is_request
     (log (run sched (start h (executor json_Unmarshal config input x))))
   = [EvRequest ("https://ark." ++ Region config ++ ".volces.com/api/v3/chat/completions")
        ("Bearer " ++ APIKey config)
        {| Model := EndpointID config;
           Messages := h ++ [user (TrimSpace input)];
           MaxTokens := 2000; Temperature := (7, 10)%Z; Stream := true |}]).
Proof.
  destruct (is_turn input) eqn:Hturn.
  - destruct (turn_invariant_log h (user (TrimSpace input))
                (request_and_reconcile json_Unmarshal config x)
                (fun lg => filter is_request lg = [])
                (requests_are
                   (requests_pending
                      (request_part config (h ++ [user (TrimSpace input)]) x))))
      with (sched := sched) (s := start h (executor json_Unmarshal config input x))
      as [[_ Hl]|[_ HL]].
    + intros lg t Hl. now rewrite filter_snoc_no.
    + intros s (Hh & Hp & Ha & Hw & Hs) Hl. split.
      * rewrite Hp. apply call_is_plain.
      * rewrite Hl, Hp. apply call_requests.
    + intros g s. apply requests_are_step.
    + left. split; [now apply start_before_call | reflexivity].
    + now left.
    + remember (filter is_request
                  (log (run sched (start h (executor json_Unmarshal config input x)))))
        as fl eqn:Hfl.
      remember (requests_pending
                  (pending (run sched (start h (executor json_Unmarshal config input x)))))
        as rp eqn:Hrp.
      clear Hfl Hrp.
      destruct fl as [|e l]; [now left|].
      right. split; [reflexivity|].
      destruct x; simpl in HL; try discriminate;
        injection HL as He Hrest; apply app_eq_nil in Hrest as [Hl _]; subst; reflexivity.
  - left. apply (command_never_animated json_Unmarshal config input x h sched Hturn).
Qed.

(** ** [loadingAnimation] *)

Lemma frame_index (n : nat) :
  index chars (Z.rem (Z.of_nat n) 4) = Some (nth (n mod 4) chars "").
Proof.
  unfold index.
  rewrite Z.rem_mod_nonneg by lia.
  assert (Hlt : (0 <= Z.of_nat n mod 4 < 4)%Z) by (apply Z.mod_pos_bound; lia).
  destruct (Z.of_nat n mod 4 <? 0)%Z eqn:E; [apply Z.ltb_lt in E; lia|].
  replace (Z.to_nat (Z.of_nat n mod 4)) with (n mod 4).
  - assert (Hn : n mod 4 < 4) by (apply Nat.mod_upper_bound; lia).
    destruct (n mod 4) as [|[|[|[|m]]]]; try reflexivity; lia.
  - change 4%Z with (Z.of_nat 4). rewrite <- Nat2Z.inj_mod. now rewrite Nat2Z.id.
Qed.

Lemma int_wrap_succ (n : nat) :
  (Z.of_nat n + 1 < 2 ^ 63)%Z -> int_wrap (Z.of_nat n + 1) = Z.of_nat (S n).
Proof.
  intros H. unfold int_wrap. rewrite Z.mod_small by lia. lia.
Qed.

Lemma frames_run
    (n : nat) (hist : list Message) (prog : list instr) (w : nat) (lg : list event) :
  (Z.of_nat n < 2 ^ 63)%Z ->
  main_sending {| conversationHistory := hist; pending := prog; anim := ASelect 0;
                  wg := w; log := lg; status := Running |} stopChan = false ->
  run (repeat G_anim n)
    {| conversationHistory := hist; pending := prog; anim := ASelect 0;
       wg := w; log := lg; status := Running |}
  = {| conversationHistory := hist; pending := prog; anim := ASelect (Z.of_nat n);
       wg := w;
       log := lg ++ map (fun k => EvPrint G_anim (frame_text k)) (seq 0 n);
       status := Running |}.
Proof.
  intros Hn Hs. induction n as [|n IH].
  - simpl. now rewrite app_nil_r.
  - replace (repeat G_anim (S n)) with (repeat G_anim n ++ [G_anim])
      by (rewrite <- repeat_cons; reflexivity).
    rewrite run_app, IH by lia.
    rewrite seq_S, map_app, app_assoc.
    generalize (lg ++ map (fun k => EvPrint G_anim (frame_text k)) (seq 0 n)).
    intros lg'. cbn [seq map Nat.add].
    unfold run, fold_left, step, step_anim.
    cbn [status anim].
    unfold main_sending in *. cbn [pending] in *. rewrite Hs.
    rewrite frame_index.
    rewrite int_wrap_succ by lia.
    reflexivity.
Qed.

(** X8: left alone, the animation writes its frames in the order ".",
    "..", "...", "....", over and over: after [n] polls without a stop it has
    written the frames 0 to [n - 1] and stands at frame [n]; it does not fail
    as long as the counter stays in the range of [int]. *)
Theorem animation_frames_cycle
    (n : nat) (hist : list Message) (prog : list instr) (w : nat) (lg : list event) :
  (Z.of_nat n < 2 ^ 63)%Z ->
  main_sending {| conversationHistory := hist; pending := prog; anim := ASelect 0;
                  wg := w; log := lg; status := Running |} stopChan = false ->
  run (repeat G_anim n)
    {| conversationHistory := hist; pending := prog; anim := ASelect 0;
       wg := w; log := lg; status := Running |}
  = {| conversationHistory := hist; pending := prog; anim := ASelect (Z.of_nat n);
       wg := w;
       log := lg ++ map (fun k => EvPrint G_anim (frame_text k)) (seq 0 n);
       status := Running |} /\
  frame_text (n + 4) = frame_text n.
Proof.
  intros Hn Hs. split.
  - now apply frames_run.
  - unfold frame_text.
    replace ((n + 4) mod 4) with (n mod 4); [reflexivity|].
    replace (n + 4) with (n + 1 * 4) by lia. now rewrite Nat.Div0.mod_add.
Qed.

Lemma animation_frames_cycle_witness :
  (Z.of_nat 5 < 2 ^ 63)%Z /\
  log (run (repeat G_anim 5)
         {| conversationHistory := []; pending := [IRequest "u" "a" (requestBody sample_config [])];
            anim := ASelect 0; wg := 1; log := []; status := Running |})
  = [EvPrint G_anim (CR ++ "豆包：正在思考.")%string;
     EvPrint G_anim (CR ++ "豆包：正在思考..")%string;
     EvPrint G_anim (CR ++ "豆包：正在思考...")%string;
     EvPrint G_anim (CR ++ "豆包：正在思考....")%string;
     EvPrint G_anim (CR ++ "豆包：正在思考.")%string].
Proof.
  assert (H : (Z.of_nat 5 < 2 ^ 63)%Z) by (vm_compute; reflexivity).
  split; [exact H|].
  rewrite (proj1 (animation_frames_cycle 5 [] [IRequest "u" "a" (requestBody sample_config [])]
                    1 [] H eq_refl)).
  reflexivity.
Defined.

(** ** When a turn can end *)

(** X9: a conversational turn can return to the prompt exactly when the
    consumer met a non-empty delta (so that it stopped the animation itself)
    and did not panic; in every other case no schedule lets [executor]
    return. *)
Theorem turn_returns_iff_stopped
    (json_Unmarshal : string -> option StreamResponse) (config : Config)
    (h : list Message) (input : string) (x : Exchange)
    (tr : list instr) (r : Result) :
  is_turn input = true ->
  sendStreamRequest json_Unmarshal config (h ++ [user (TrimSpace input)]) x = (tr, r) ->
  ((exists sched,
      returned (run sched (start h (executor json_Unmarshal config input x))))
   <-> (has_stop tr = true /\ r <> Panic)).
Proof.
  intros Hturn Hsend. split.
  - intros (sched & Hret).
    destruct r as [c|e|].
    + split; [|discriminate].
      destruct (send_shape _ _ _ _ _ _ Hsend) as (rq & ds & Hrq & _ & Htr & Hne & _).
      subst tr. rewrite !has_stop_app. destruct ds; [congruence|].
      simpl. now rewrite orb_true_r.
    + split; [|discriminate].
      destruct (has_stop tr) eqn:Hstop; [reflexivity|]. exfalso.
      destruct (failed_turn_waits json_Unmarshal config h input x Hturn tr e sched
                  Hsend Hstop) as [Hb|Hw].
      * eapply before_call_not_returned; eassumption.
      * destruct Hret as [Hp _]. destruct Hw as (_ & _ & _ & _ & q & _ & Hq).
        rewrite Hq in Hp. destruct q; discriminate.
    + exfalso.
      destruct (panicking_turn_doomed json_Unmarshal config h input x Hturn tr sched Hsend)
        as [Hb|[k Hk]].
      * eapply before_call_not_returned; eassumption.
      * destruct Hret as [Hp _]. rewrite Hk in Hp. destruct k; discriminate.
  - intros [Hstop Hr].
    destruct (stopped_turn_can_return json_Unmarshal config h input x Hturn tr r
                Hsend Hr Hstop) as (sched & Hret & _).
    exists sched. exact Hret.
Qed.

Lemma turn_returns_iff_stopped_witness :
  is_turn "hello" = true /\
  (exists sched,
      returned (run sched (start [] (executor sample_Unmarshal sample_config "hello" x_hi)))) /\
  ~ (exists sched,
      returned (run sched (start [] (executor sample_Unmarshal sample_config "hello" x_500)))).
Proof.
  assert (Hturn : is_turn "hello" = true) by (vm_compute; reflexivity).
  split; [exact Hturn|]. split.
  - apply (proj2 (turn_returns_iff_stopped sample_Unmarshal sample_config [] "hello" x_hi
                    _ _ Hturn eq_refl)).
    split; [vm_compute; reflexivity | discriminate].
  - intros H.
    apply (proj1 (turn_returns_iff_stopped sample_Unmarshal sample_config [] "hello" x_500
                    _ _ Hturn eq_refl)) in H.
    destruct H as [H _]. vm_compute in H. discriminate.
Defined.

(** ** [main] *)

Lemma eqb_empty (s : string) : (s =? "")%string = true <-> s = "".
Proof. apply String.eqb_eq. Qed.

(** X10: [main] before the prompt.  When the command line is accepted,
    the configuration holds the key and the endpoint given (empty when
    absent), the region given or "cn-beijing", the timeout given or 120.
    [main] exits with status 1 exactly when the command line is accepted
    and the key or the endpoint is absent or empty, and it has then written
    the two lines of usage and nothing else; it gets to the prompt exactly
    when the command line is accepted with both, and it has then written the
    three lines of the banner and nothing else.  A command line that asks
    for help exits with status 0 and one that does not parse with status 2,
    with nothing on standard output. *)
Theorem main_checks_credentials (args : CommandLine) (sched : list goroutine) :
  3 <= main_steps sched ->
  (forall flags, args = Flagged flags ->
     fst (main args)
     = {| APIKey := flag_value (flag_apikey flags) "";
          EndpointID := flag_value (flag_endpoint flags) "";
          Region := flag_value (flag_region flags) "cn-beijing";
          Timeout := flag_value (flag_timeout flags) 120%Z |}) /\
  (status (main_run args sched) = Exited 1
   <-> exists flags,
         args = Flagged flags /\
         (flag_value (flag_apikey flags) "" = "" \/
          flag_value (flag_endpoint flags) "" = "")) /\
  (returned (main_run args sched)
   <-> exists flags,
         args = Flagged flags /\
         flag_value (flag_apikey flags) "" <> "" /\
         flag_value (flag_endpoint flags) "" <> "") /\
  (status (main_run args sched) = Exited 1 ->
   log (main_run args sched)
   = [EvPrint G_main ("错误：必须指定 --apikey 和 --endpoint 参数！" ++ LF)%string;
      EvPrint G_main
        ("使用示例：go run main.go --apikey sk-xxxxxx --endpoint ep-xxxxxx --timeout 180"
           ++ LF)%string]) /\
  (returned (main_run args sched) ->
   log (main_run args sched)
   = [EvPrint G_main
        ("==================== 豆包多轮对话CLI ====================" ++ LF)%string;
      EvPrint G_main ("说明：1.输入 q/quit 退出对话；输入 clear 清空上下文" ++ LF)%string;
      EvPrint G_main
        ("=========================================================" ++ LF)%string]) /\
  (args = HelpAsked ->
   status (main_run args sched) = Exited 0 /\ log (main_run args sched) = []) /\
  (args = Malformed ->
   status (main_run args sched) = Exited 2 /\ log (main_run args sched) = []).
Proof.
  intros Hn. split.
  { intros flags ->. cbn [main].
    match goal with
    | |- context [if ?b then _ else _] => destruct b
    end; reflexivity. }
  assert (Hrun : forall prog,
            forallb no_spawn prog = true ->
            run sched (start [] prog)
            = run (repeat G_main (main_steps sched - 3))
                (run [G_main; G_main; G_main] (start [] prog))).
  { intros prog Hp. rewrite run_main_only by (try reflexivity; exact Hp).
    rewrite (repeat_split (main_steps sched) 3 Hn), run_app. reflexivity. }
  unfold main_run.
  destruct args as [| |flags]; cbn [main snd].
  - rewrite Hrun by reflexivity. rewrite run_stuck by (vm_compute; discriminate).
    split; [|split; [|split; [|split; [|split]]]].
    + split; [discriminate | intros (f & Hf & _); discriminate].
    + split; [intros [_ Hs]; discriminate | intros (f & Hf & _); discriminate].
    + discriminate.
    + intros [_ Hs]. discriminate.
    + intros _. split; reflexivity.
    + discriminate.
  - rewrite Hrun by reflexivity. rewrite run_stuck by (vm_compute; discriminate).
    split; [|split; [|split; [|split; [|split]]]].
    + split; [discriminate | intros (f & Hf & _); discriminate].
    + split; [intros [_ Hs]; discriminate | intros (f & Hf & _); discriminate].
    + discriminate.
    + intros [_ Hs]. discriminate.
    + discriminate.
    + intros _. split; reflexivity.
  - cbn [APIKey EndpointID].
    destruct (flag_value (flag_apikey flags) "" =? "")%string eqn:Ea;
      [|destruct (flag_value (flag_endpoint flags) "" =? "")%string eqn:Ee];
      cbn [orb snd]; rewrite Hrun by reflexivity.
    + rewrite run_stuck by (vm_compute; discriminate).
      apply eqb_empty in Ea.
      split; [|split; [|split; [|split; [|split]]]].
      * split; [intros _; exists flags; auto | reflexivity].
      * split; [intros [_ Hs]; discriminate
               | intros (f & Hf & Hk & _); inversion Hf; subst; contradiction].
      * intros _. reflexivity.
      * intros [_ Hs]. discriminate.
      * discriminate.
      * discriminate.
    + rewrite run_stuck by (vm_compute; discriminate).
      apply eqb_empty in Ee.
      split; [|split; [|split; [|split; [|split]]]].
      * split; [intros _; exists flags; auto | reflexivity].
      * split; [intros [_ Hs]; discriminate
               | intros (f & Hf & _ & Hk); inversion Hf; subst; contradiction].
      * intros _. reflexivity.
      * intros [_ Hs]. discriminate.
      * discriminate.
      * discriminate.
    + rewrite run_finished by reflexivity.
      assert (Ha : flag_value (flag_apikey flags) "" <> "")
        by (intros Hc; apply eqb_empty in Hc; congruence).
      assert (He : flag_value (flag_endpoint flags) "" <> "")
        by (intros Hc; apply eqb_empty in Hc; congruence).
      split; [|split; [|split; [|split; [|split]]]].
      * split; [intros Hs; discriminate
               | intros (f & Hf & [Hk|Hk]); inversion Hf; subst; contradiction].
      * split; [intros _; exists flags; auto | intros _; split; reflexivity].
      * intros Hs. discriminate.
      * intros _. reflexivity.
      * discriminate.
      * discriminate.
Qed.

Lemma main_checks_credentials_witness :
  3 <= main_steps (round_robin 3) /\
  status (main_run (Flagged {| flag_apikey := Some "sk-xxxxxx"; flag_endpoint := None;
                               flag_region := None; flag_timeout := Some 180%Z |})
            (round_robin 3))
  = Exited 1 /\
  log (main_run (Flagged {| flag_apikey := Some "sk-xxxxxx"; flag_endpoint := None;
                            flag_region := None; flag_timeout := Some 180%Z |})
         (round_robin 3))
  = [EvPrint G_main ("错误：必须指定 --apikey 和 --endpoint 参数！" ++ LF)%string;
     EvPrint G_main
       ("使用示例：go run main.go --apikey sk-xxxxxx --endpoint ep-xxxxxx --timeout 180"
          ++ LF)%string].
Proof.
  assert (H : 3 <= main_steps (round_robin 3)) by (vm_compute; lia).
  destruct (main_checks_credentials
              (Flagged {| flag_apikey := Some "sk-xxxxxx"; flag_endpoint := None;
                          flag_region := None; flag_timeout := Some 180%Z |})
              (round_robin 3) H) as (_ & Hexit & _ & Hlog & _).
  assert (Hs : status (main_run
                         (Flagged {| flag_apikey := Some "sk-xxxxxx";
                                     flag_endpoint := None;
                                     flag_region := None;
                                     flag_timeout := Some 180%Z |})
                         (round_robin 3)) = Exited 1).
  { apply Hexit. eexists. split; [reflexivity|]. right. reflexivity. }
  split; [exact H|]. split; [exact Hs|]. exact (Hlog Hs).
Defined.

(** ** Sessions *)

(** X11: across a whole session (turns that succeed, turns that fail,
    [clear], blank lines, in any order) the transcript stays a sequence of
    questions each followed by its non-empty answer: a failed turn leaves no
    dangling user message behind once [executor] has returned. *)
Theorem session_keeps_dialogue
    (json_Unmarshal : string -> option StreamResponse) (config : Config)
    (turns : list (string * Exchange)) (h h' : list Message) :
  dialogue h ->
  session json_Unmarshal config turns h h' ->
  dialogue h'.
Proof.
  intros Hd Hs. induction Hs as [h|input x rest h h1 h2 Hret _ IH]; [exact Hd|].
  apply IH.
  destruct (executor_returns json_Unmarshal config input x h h1 Hret)
    as [-> | [-> | (c & Hc & ->)]].
  - constructor.
  - exact Hd.
  - now constructor.
Qed.

Lemma session_keeps_dialogue_witness :
  dialogue [user "a"; assistant "b"] /\
  session sample_Unmarshal sample_config
    [("hello", x_cut_off); ("  ", x_500); (" again ", x_a_b)]
    [user "a"; assistant "b"]
    [user "a"; assistant "b"; user "again"; assistant "AB"] /\
  dialogue [user "a"; assistant "b"; user "again"; assistant "AB"].
Proof.
  assert (H1 : dialogue [user "a"; assistant "b"]).
  { apply (dialogue_turn [] "a" "b"); [constructor | discriminate]. }
  assert (H2 : session sample_Unmarshal sample_config
                 [("hello", x_cut_off); ("  ", x_500); (" again ", x_a_b)]
                 [user "a"; assistant "b"]
                 [user "a"; assistant "b"; user "again"; assistant "AB"]).
  { apply session_cons with (h1 := [user "a"; assistant "b"]).
    { exists (round_robin 16). vm_compute. repeat split. }
    apply session_cons with (h1 := [user "a"; assistant "b"]).
    { exists (round_robin 2). vm_compute. repeat split. }
    apply session_cons
      with (h1 := [user "a"; assistant "b"; user "again"; assistant "AB"]).
    { exists (round_robin 20). vm_compute. repeat split. }
    constructor. }
  split; [exact H1|]. split; [exact H2|].
  exact (session_keeps_dialogue sample_Unmarshal sample_config _ _ _ H1 H2).
Defined.

(** ** The label before the reply *)

Lemma last_anim_print_other lg e :
  anim_print e = false -> last_anim_print (lg ++ [e]) = last_anim_print lg.
Proof.
  intros H. unfold last_anim_print. rewrite filter_app. simpl. rewrite H.
  now rewrite app_nil_r.
Qed.

Lemma last_anim_print_snoc lg t :
  last_anim_print (lg ++ [EvPrint G_anim t]) = Some t.
Proof.
  unfold last_anim_print. rewrite filter_app. simpl.
  destruct (filter anim_print lg) as [|e rest]; [reflexivity|].
  simpl. destruct rest as [|e' rest]; [reflexivity|].
  change (e' :: rest ++ [EvPrint G_anim t]) with ((e' :: rest) ++ [EvPrint G_anim t]).
  now rewrite last_last.
Qed.

Ltac labelled_finish Hl :=
  simpl in *; try discriminate; try congruence;
  intros Hsil;
  rewrite ?last_anim_print_other by reflexivity;
  first [ discriminate
        | apply last_anim_print_snoc
        | apply Hl;
          first [ exact Hsil
                | reflexivity
                | match goal with
                  | |- silent ?a = true => destruct a; simpl in *; congruence
                  end ] ].

Lemma labelled_step g s : labelled s -> labelled (step g s).
Proof.
  intros (Hacc & Hl). split; [now apply accounted_step|].
  destruct Hacc as (Hp & Ha & Hn). break_state s. unfold step. simpl.
  destruct st; simpl; auto.
  destruct g.
  - unfold step_main, anim_sending. simpl.
    destruct prog as [|i k]; simpl; auto.
    simpl in Hp. apply andb_true_iff in Hp as [Hi Hk].
    destruct i; try discriminate; simpl; split_matches; labelled_finish Hl.
  - unfold step_anim, main_sending, main_receiving. simpl.
    destruct a; simpl; try congruence; auto;
      (destruct prog as [|i k]; [|destruct i]); simpl; split_matches;
      labelled_finish Hl.
Qed.

(** X12: the label comes last.  In a conversational turn, whenever the
    main goroutine has written anything (a delta of the reply, the error
    message, the closing blank lines), the last text the animation wrote is
    the label of line 76, a carriage return followed by the name: no frame
    of the animation is written between the label and what the main
    goroutine writes. *)
Theorem reply_follows_label
    (json_Unmarshal : string -> option StreamResponse) (config : Config)
    (input : string) (x : Exchange) (h : list Message) (sched : list goroutine) :
  is_turn input = true ->
  existsb main_print (log (run sched (start h (executor json_Unmarshal config input x))))
  = true ->
  last_anim_print (log (run sched (start h (executor json_Unmarshal config input x))))
  = Some label.
Proof.
  intros Hturn Hmain.
  destruct (turn_invariant_log h (user (TrimSpace input))
              (request_and_reconcile json_Unmarshal config x)
              (fun lg => existsb main_print lg = false)
              (fun s => ordered s /\ labelled s))
    with (sched := sched) (s := start h (executor json_Unmarshal config input x))
    as [[_ Hl]|[Ho Hlab]].
  - intros lg t Hl. now apply existsb_snoc.
  - intros s (Hh & Hp & Ha & Hw & Hs) Hl.
    assert (Hacc : accounted s).
    { unfold accounted. rewrite Hp, Hw. repeat split.
      - apply call_is_plain.
      - destruct (anim s); discriminate.
      - destruct (anim s); try discriminate; reflexivity. }
    split; [split; [exact Hacc | split]|split; [exact Hacc|]].
    + now apply no_main_print_ordered.
    + right. split; [exact Hl | rewrite Hp; apply call_is_guarded].
    + destruct (anim s); discriminate.
  - intros g s [Ho Hlab]. split; [now apply ordered_step | now apply labelled_step].
  - left. split; [now apply start_before_call | reflexivity].
  - rewrite Hl in Hmain. discriminate.
  - destruct Ho as (_ & _ & [Hs|[Hm _]]).
    + apply Hlab. exact Hs.
    + rewrite Hm in Hmain. discriminate.
Qed.

Lemma reply_follows_label_witness :
  is_turn "hello" = true /\
  existsb main_print
    (log (run (round_robin 16)
            (start [] (executor sample_Unmarshal sample_config "hello" x_hi)))) = true /\
  last_anim_print
    (log (run (round_robin 16)
            (start [] (executor sample_Unmarshal sample_config "hello" x_hi))))
  = Some (CR ++ "豆包：")%string.
Proof.
  assert (H : existsb main_print
                (log (run (round_robin 16)
                        (start [] (executor sample_Unmarshal sample_config "hello" x_hi))))
              = true) by (vm_compute; reflexivity).
  split; [reflexivity|]. split; [exact H|].
  exact (reply_follows_label sample_Unmarshal sample_config "hello" x_hi []
           (round_robin 16) eq_refl H).
Defined.

(** ** Turns that cannot get stuck *)

Lemma length_removelast_cons (m : Message) (l : list Message) :
  length (removelast (m :: l)) = length l.
Proof.
  revert m. induction l as [|a l IH]; intros m; [reflexivity|].
  change (removelast (m :: a :: l)) with (m :: removelast (a :: l)).
  simpl. now rewrite IH.
Qed.

Lemma drops_ok_step g s :
  drops_ok (pending s) (length (conversationHistory s)) = true ->
  drops_ok (pending (step g s)) (length (conversationHistory (step g s))) = true.
Proof.
  intros H. break_state s. unfold step. simpl in *.
  destruct st; simpl; auto.
  destruct g.
  - unfold step_main, anim_sending. simpl.
    destruct prog as [|i k]; simpl; auto.
    destruct i; simpl in *; try discriminate; auto.
    + now rewrite length_app, Nat.add_1_r.
    + destruct hist as [|m l]; simpl in *; [discriminate|].
      now rewrite length_removelast_cons.
    + destruct a; simpl; auto. destruct (chan_eqb c doneChan); simpl; auto.
    + destruct (Nat.eqb n 0); simpl; auto.
  - unfold step_anim, main_sending, main_receiving. simpl.
    destruct a; simpl; auto;
      (destruct prog as [|i k]; [|destruct i]); simpl in *; split_matches; auto.
Qed.

Section Progress.

Variable h : list Message.
Variable u : Message.
Variables p fin : list instr.

Hypothesis p_local : forallb is_local p = true.
Hypothesis fin_quiet : forallb is_quiet fin = true.

Lemma on_track_step g s :
on_track h u p fin s -> status (step g s) = Running -> on_track h u p fin (step g s).
Proof.
intros (Hs & Hd & _) Hr. split; [|split].
- now apply synced_step.
- now apply drops_ok_step.
- exact Hr.
Qed.

(** Some goroutine can move, and the move brings the turn nearer its end. *)
Lemma on_track_progress s :
on_track h u p fin s -> pending s <> [] ->
exists g, status (step g s) = Running /\ distance (step g s) < distance s.
Proof.
intros (Hs & Hd & Hr) Hne.
destruct Hs as [q a lg st Hq Ha Hst | a lg Ha | q a n lg Hq Hg
               | hist prog a n lg st Hq Hg]; simpl in Hr, Hd, Hne; subst;
  unfold step, distance; cbn [status].
- destruct q as [|i q].
  + exists G_anim. unfold step_anim, main_sending. simpl.
    destruct a; try discriminate; simpl; split; auto; lia.
  + exists G_main. simpl in Hq. apply andb_true_iff in Hq as [Hi Hq].
    unfold step_main. destruct i; try discriminate; simpl; split; auto; lia.
- destruct Ha as [-> | ->].
  + exists G_anim. unfold step_anim. simpl. split; auto; lia.
  + exists G_main. unfold step_main, anim_sending. simpl. split; auto; lia.
- exists G_main. destruct q as [|i q].
  + unfold step_main, anim_receiving. simpl. split; auto; lia.
  + simpl in Hq. apply andb_true_iff in Hq as [Hi Hq].
    unfold step_main. destruct i; try discriminate; simpl; split; auto; lia.
- destruct prog as [|i k]; [congruence|].
  simpl in Hq. apply andb_true_iff in Hq as [Hi Hq].
  destruct i; try discriminate;
    try (exists G_main; unfold step_main; simpl; split; auto; lia).
  + exists G_main. unfold step_main. simpl.
    destruct hist as [|m l]; [discriminate|]. simpl. split; auto; lia.
  + destruct Hg as [[-> ->] | [-> ->]].
    * exists G_anim. unfold step_anim. simpl. split; auto; lia.
    * exists G_main. unfold step_main. simpl. split; auto; lia.
Qed.

(** From wherever such a turn stands, some schedule takes it to its end. *)
Lemma on_track_finishes (n : nat) : forall s,
distance s <= n -> on_track h u p fin s ->
exists more, returned (run more s).
Proof.
induction n as [|n IH]; intros s Hn Ht.
- exists []. split; [|apply Ht]. simpl.
  destruct (pending s) as [|i k] eqn:Hp; [reflexivity|].
  unfold distance in Hn. rewrite Hp in Hn. simpl in Hn. lia.
- destruct (pending s) as [|i k] eqn:Hp.
  + exists []. split; [exact Hp | apply Ht].
  + destruct (on_track_progress s Ht) as (g & Hr & Hlt); [rewrite Hp; discriminate|].
    destruct (IH (step g s)) as (more & Hret).
    * lia.
    * now apply on_track_step.
    * exists (g :: more). exact Hret.
Qed.

End Progress.

Section NeverWedged.

Variable json_Unmarshal : string -> option StreamResponse.
Variable config : Config.
Variable h : list Message.
Variable input : string.
Variable x : Exchange.

Hypothesis turn : is_turn input = true.

Lemma before_call_reaches_call F s :
before_call h (user (TrimSpace input)) F s -> status s = Running ->
exists more, at_call h (user (TrimSpace input)) F (run more s).
Proof.
intros Hb Hr. destruct Hb as [lg|lg|lg|a lg st Ha Hst].
- exists [G_main; G_main; G_main; G_main]. unfold at_call. simpl.
  rewrite app_nil_r. repeat split.
- exists [G_main; G_main; G_main]. unfold at_call. simpl.
  rewrite app_nil_r. repeat split.
- exists [G_main; G_main]. unfold at_call. simpl.
  rewrite app_nil_r. repeat split.
- simpl in Hr. subst st. exists [G_main]. unfold at_call. simpl.
  rewrite app_nil_r. repeat split; auto.
Qed.

Lemma drops_ok_neutral q k len :
forallb keeps_history q = true -> forallb not_call q = true ->
drops_ok (q ++ k) len = drops_ok k len.
Proof.
induction q as [|i q IH]; simpl; [reflexivity|]. intros Hk Hc.
apply andb_true_iff in Hk as [Hi Hk]. apply andb_true_iff in Hc as [Hj Hc].
destruct i; try discriminate; simpl; auto.
Qed.

Lemma at_call_on_track tr r rq ds s :
sendStreamRequest json_Unmarshal config (h ++ [user (TrimSpace input)]) x = (tr, r) ->
r <> Panic ->
forallb is_local rq = true ->
tr = rq ++ ISend stopChan :: IRecv doneChan :: map IPrint ds ->
at_call h (user (TrimSpace input)) (request_and_reconcile json_Unmarshal config x) s ->
synced h (user (TrimSpace input)) (map IPrint ds) (reconcile r) s /\
drops_ok (pending s) (length (conversationHistory s)) = true.
Proof.
intros Hsend Hr Hrq Htr (Hh & Hp & Ha & Hw & Hs). break_state s. subst.
unfold request_and_reconcile. rewrite Hsend.
replace (match r with
         | Panic => _
         | _ => _
         end)
  with ((rq ++ ISend stopChan :: IRecv doneChan :: map IPrint ds)
          ++ ensure_stopped ++ reconcile r)
  by (destruct r; congruence).
split.
- rewrite <- app_assoc. simpl. now apply SY_before.
- rewrite app_assoc, drops_ok_neutral.
  + rewrite length_app, Nat.add_1_r. destruct r; try congruence; reflexivity.
  + rewrite !forallb_app. simpl.
    now rewrite (local_keeps_history rq Hrq), (local_keeps_history _ (local_prints ds)).
  + rewrite !forallb_app. simpl.
    now rewrite (local_not_call rq Hrq), (local_not_call _ (local_prints ds)).
Qed.

End NeverWedged.

(** X13: a turn in which the consumer stops the animation cannot get
    stuck.  Wherever such a turn stands after any schedule, as long as the
    process is running, some continuation lets [executor] return, with the
    transcript the turn is to leave. *)
Theorem stopped_turn_never_wedges
    (json_Unmarshal : string -> option StreamResponse) (config : Config)
    (h : list Message) (input : string) (x : Exchange)
    (tr : list instr) (r : Result) (sched : list goroutine) :
  is_turn input = true ->
  sendStreamRequest json_Unmarshal config (h ++ [user (TrimSpace input)]) x = (tr, r) ->
  has_stop tr = true ->
  r <> Panic ->
  status (run sched (start h (executor json_Unmarshal config input x))) = Running ->
  exists more,
    returned (run (sched ++ more) (start h (executor json_Unmarshal config input x))) /\
    conversationHistory
      (run (sched ++ more) (start h (executor json_Unmarshal config input x)))
    = final_history h (user (TrimSpace input)) r.
Proof.
  intros Hturn Hsend Hstop Hr Hrun.
  destruct (shape_with_stop json_Unmarshal config h input x tr r Hsend Hstop)
    as (rq & ds & Hrq & Htr).
  set (s0 := start h (executor json_Unmarshal config input x)) in *.
  set (post := fun s =>
         synced h (user (TrimSpace input)) (map IPrint ds) (reconcile r) s /\
         drops_ok (pending s) (length (conversationHistory s)) = true).
  assert (Hstep : forall g s, post s -> post (step g s)).
  { intros g s [Hs Hd]. split.
    - apply synced_step; [apply local_prints | apply reconcile_quiet | exact Hs].
    - now apply drops_ok_step. }
  assert (Hcall : forall s,
             at_call h (user (TrimSpace input))
               (request_and_reconcile json_Unmarshal config x) s -> post s).
  { intros s Hc. exact (at_call_on_track json_Unmarshal config h input x tr r rq ds s
                          Hsend Hr Hrq Htr Hc). }
  assert (Hfin : exists more, returned (run more (run sched s0))).
  { destruct (turn_invariant h (user (TrimSpace input))
                (request_and_reconcile json_Unmarshal config x) post Hcall Hstep sched s0)
      as [Hb|[Hs Hd]].
    - left. now apply start_before_call.
    - destruct (before_call_reaches_call h input _ _ Hb Hrun) as (m1 & Hc).
      destruct (Hcall _ Hc) as [Hs Hd].
      destruct (on_track_finishes h (user (TrimSpace input)) (map IPrint ds) (reconcile r)
                  (local_prints ds) (reconcile_quiet r) _ (run m1 (run sched s0)) (le_n _))
        as (m2 & Hret).
      + split; [exact Hs | split; [exact Hd | apply Hc]].
      + exists (m1 ++ m2). now rewrite run_app.
    - apply (on_track_finishes h (user (TrimSpace input)) (map IPrint ds) (reconcile r)
               (local_prints ds) (reconcile_quiet r) _ (run sched s0) (le_n _)).
      split; [exact Hs | split; [exact Hd | exact Hrun]]. }
  destruct Hfin as (more & Hret). exists more.
  rewrite run_app. split; [exact Hret|].
  rewrite <- run_app in *.
  apply (turn_returns_final json_Unmarshal config h input x Hturn tr r (sched ++ more)
           Hsend Hr Hret).
Qed.

Lemma stopped_turn_never_wedges_witness :
  is_turn "hello" = true /\
  status (run [G_main; G_anim; G_anim; G_main; G_anim; G_main; G_main; G_anim]
            (start [] (executor sample_Unmarshal sample_config "hello" x_cut_off)))
  = Running /\
  exists more,
    returned (run ([G_main; G_anim; G_anim; G_main; G_anim; G_main; G_main; G_anim] ++ more)
                (start [] (executor sample_Unmarshal sample_config "hello" x_cut_off))).
Proof.
  assert (H : status (run [G_main; G_anim; G_anim; G_main; G_anim; G_main; G_main; G_anim]
                        (start [] (executor sample_Unmarshal sample_config "hello"
                                     x_cut_off))) = Running)
    by (vm_compute; reflexivity).
  split; [reflexivity|]. split; [exact H|].
  destruct (stopped_turn_never_wedges sample_Unmarshal sample_config [] "hello" x_cut_off
              _ _ [G_main; G_anim; G_anim; G_main; G_anim; G_main; G_main; G_anim]
              eq_refl eq_refl eq_refl ltac:(discriminate) H) as (more & Hret & _).
  exists more. exact Hret.
Defined.

(** ** The counter of the animation *)

(** X14: the animation is not safe for ever.  Its counter is an [int]; left
    alone for 2^63 + 2 polls it has wrapped around to a negative number
    whose remainder by 4 is negative, and indexing the frames with it
    panics. *)
Theorem animation_counter_overflows
    (hist : list Message) (prog : list instr) (w : nat) (lg : list event) :
  main_sending {| conversationHistory := hist; pending := prog; anim := ASelect 0;
                  wg := w; log := lg; status := Running |} stopChan = false ->
  status (run (repeat G_anim (Z.to_nat (2 ^ 63 - 1) + 3))
            {| conversationHistory := hist; pending := prog; anim := ASelect 0;
               wg := w; log := lg; status := Running |}) = Crashed.
Proof.
  intros Hs. rewrite repeat_app, run_app.
  rewrite frames_run; [|rewrite Z2Nat.id; [reflexivity | discriminate] | exact Hs].
  rewrite Z2Nat.id by discriminate.
  generalize (lg ++ map (fun k => EvPrint G_anim (frame_text k))
                      (seq 0 (Z.to_nat (2 ^ 63 - 1)))).
  intros lg'. unfold main_sending in Hs. cbn [pending] in Hs.
  change (repeat G_anim 3) with [G_anim; G_anim; G_anim].
  unfold run, step, step_anim, main_sending. cbn [status anim pending].
  rewrite Hs.
  replace (index chars (Z.rem (2 ^ 63 - 1) 4)) with (Some "....")
    by (vm_compute; reflexivity).
  cbn [status anim pending set_anim emit].
  rewrite Hs.
  replace (int_wrap (2 ^ 63 - 1 + 1)) with (- 2 ^ 63)%Z by (vm_compute; reflexivity).
  replace (index chars (Z.rem (- 2 ^ 63) 4)) with (Some ".")
    by (vm_compute; reflexivity).
  cbn [status anim pending set_anim emit].
  rewrite Hs.
  replace (int_wrap (- 2 ^ 63 + 1)) with (- 2 ^ 63 + 1)%Z by (vm_compute; reflexivity).
  replace (index chars (Z.rem (- 2 ^ 63 + 1) 4)) with (@None string)
    by (vm_compute; reflexivity).
  reflexivity.
Qed.

Lemma animation_counter_overflows_witness :
  main_sending {| conversationHistory := []; pending := [IWait]; anim := ASelect 0;
                  wg := 1; log := []; status := Running |} stopChan = false /\
  status (run (repeat G_anim (Z.to_nat (2 ^ 63 - 1) + 3))
            {| conversationHistory := []; pending := [IWait]; anim := ASelect 0;
               wg := 1; log := []; status := Running |}) = Crashed.
Proof.
  split; [reflexivity|].
  exact (animation_counter_overflows [] [IWait] 1 [] eq_refl).
Defined.
